(** * omero-screen: segmentation masks, cytoplasm derivation and table merging

    A shallow embedding of the mask algebra of [omero_screen.image_analysis]
    and [omero_screen.general_functions].  Arrays are numpy arrays: a shape
    and the elements in C (row-major) order.  Python exceptions are an error
    monad; calls to the OMERO server and to the Cellpose model are recorded
    in a trace. *)

From Stdlib Require Import ZArith Floats String Ascii DecimalString Lia.
From stdpp Require Import base tactics option list gmap sets strings relations.

#[local] Set Warnings "-clear-no-such-hyp".

Open Scope Z_scope.
Open Scope nat_scope.

(** ** Exceptions *)

Inductive exn :=
  IndexError | ValueError | KeyError | AssertionError | NotImplementedError.

Inductive result (A : Type) :=
  | Ok (a : A)
  | Raise (e : exn).
Arguments Ok {A} a.
Arguments Raise {A} e.

#[global] Instance result_ret : MRet result := @Ok.
#[global] Instance result_bind : MBind result :=
  λ A B f m, match m with Ok a => f a | Raise e => Raise e end.

#[global] Instance result_fmap : FMap result :=
  λ A B f m, match m with Ok a => Ok (f a) | Raise e => Raise e end.

#[global] Instance exn_eq_dec : EqDecision exn.
Proof. solve_decision. Defined.

(** ** numpy arrays *)

Record ndarray (A : Type) := NDArray { shape : list nat; data : list A }.
Arguments NDArray {A} shape data.
Arguments shape {A} _.
Arguments data {A} _.

(** Number of elements of an array of the given shape. *)
Definition size_of (sh : list nat) : nat := foldr Nat.mul 1 sh.

Definition wf_array {A} (a : ndarray A) : Prop :=
  length (data a) = size_of (shape a).

(** [n] consecutive blocks of [k] elements. *)
Fixpoint chunks {A} (k n : nat) (d : list A) : list (list A) :=
  match n with
  | 0 => []
  | S n' => take k d :: chunks k n' (drop k d)
  end.

(** Broadcasting of two shapes, aligned on the last axis
    (the lists are the reversed shapes). *)
Fixpoint broadcast_rev (s1 s2 : list nat) : option (list nat) :=
  match s1, s2 with
  | [], s => Some s
  | s, [] => Some s
  | a :: r1, b :: r2 =>
      if decide (a = b) then cons a <$> broadcast_rev r1 r2
      else if decide (a = 1) then cons b <$> broadcast_rev r1 r2
      else if decide (b = 1) then cons a <$> broadcast_rev r1 r2
      else None
  end.

Definition broadcast_shapes (s1 s2 : list nat) : option (list nat) :=
  reverse <$> broadcast_rev (reverse s1) (reverse s2).

(** A shape extended to [n] axes by leading axes of length 1. *)
Definition pad_shape (n : nat) (sh : list nat) : list nat :=
  replicate (n - length sh) 1 ++ sh.

(** The elements of an array of shape [src] repeated to fill shape [tgt];
    an axis of [src] is as long as that of [tgt], or has length 1. *)
Fixpoint expand_data {A} (src tgt : list nat) (d : list A) : list A :=
  match src, tgt with
  | s :: src', t :: tgt' =>
      if decide (s = t)
      then mjoin (expand_data src' tgt' <$> chunks (size_of src') s d)
      else mjoin (replicate t (expand_data src' tgt' d))
  | _, _ => d
  end.

(** [f(a, b)] element by element under numpy's broadcasting rules. *)
Definition broadcast2 {A B C} (f : A → B → C)
    (a : ndarray A) (b : ndarray B) : result (ndarray C) :=
  match broadcast_shapes (shape a) (shape b) with
  | None => Raise ValueError
  | Some sh =>
      let n := length sh in
      Ok (NDArray sh
            (zip_with f
               (expand_data (pad_shape n (shape a)) sh (data a))
               (expand_data (pad_shape n (shape b)) sh (data b))))
  end.

Definition np_map {A B} (f : A → B) (a : ndarray A) : ndarray B :=
  NDArray (shape a) (f <$> data a).

(** ** Integer element types *)

Inductive int_dtype := uint8 | uint16 | uint32 | int32 | int64.

#[global] Instance int_dtype_eq_dec : EqDecision int_dtype.
Proof. solve_decision. Defined.

Definition bits (dt : int_dtype) : Z :=
  match dt with
  | uint8 => 8 | uint16 => 16 | uint32 => 32 | int32 => 32 | int64 => 64
  end%Z.

Definition is_signed (dt : int_dtype) : bool :=
  match dt with int32 | int64 => true | _ => false end.

(** The value stored when [z] is written into an element of type [dt]. *)
Definition wrap (dt : int_dtype) (z : Z) : Z :=
  if is_signed dt
  then ((z + 2 ^ (bits dt - 1)) mod 2 ^ bits dt - 2 ^ (bits dt - 1))%Z
  else (z mod 2 ^ bits dt)%Z.

(** An integer array: a label mask. *)
Record iarray := IArray { dtype : int_dtype; arr : ndarray Z }.

Definition ishape (m : iarray) : list nat := shape (arr m).
Definition idata (m : iarray) : list Z := data (arr m).

Definition astype (dt : int_dtype) (m : iarray) : iarray :=
  IArray dt (np_map (wrap dt) (arr m)).

(** [m != 0] and [m == 0]. *)
Definition ne0 (m : iarray) : ndarray bool :=
  np_map (λ z, negb (z =? 0)%Z) (arr m).
Definition eq0 (b : ndarray bool) : ndarray bool := np_map negb b.

(** [m.max()]; numpy raises [ValueError] on an array without elements. *)
Definition np_max (m : iarray) : result Z :=
  match idata m with
  | [] => Raise ValueError
  | x :: r => Ok (foldl Z.max x r)
  end.

(** [m * b] for a boolean array [b]: the element type of [m] is kept. *)
Definition mul_bool (m : iarray) (b : ndarray bool) : result iarray :=
  IArray (dtype m) <$> broadcast2 (λ z (t : bool), (z * Z.b2z t)%Z) (arr m) b.

(** ** [Image._get_cyto] *)

(** [overlap = (c_mask != 0) * (n_mask != 0)], then
    [c_mask * ((c_mask != 0) * (overlap == 0))]. *)
Definition _get_cyto (n_mask c_mask : iarray) : result iarray :=
  overlap ← broadcast2 andb (ne0 c_mask) (ne0 n_mask);
  cyto_mask_binary ← broadcast2 andb (ne0 c_mask) (eq0 overlap);
  mul_bool c_mask cyto_mask_binary.

(** ** [Image._compact_mask] *)

(** The mask in the narrowest of uint8 and uint16 that holds its maximum,
    or as it is. *)
Definition _compact_mask (mask : iarray) : result iarray :=
  m ← np_max mask;
  if (m <? 2 ^ 8)%Z then Ok (astype uint8 mask)
  else if (m <? 2 ^ 16)%Z then Ok (astype uint16 mask)
  else Ok mask.

(** ** Python dictionaries

    A [dict] keeps its keys in insertion order; assigning to a key that is
    present replaces its value and leaves its position. *)
Fixpoint dict_set {K V} `{EqDecision K} (d : list (K * V)) (k : K) (v : V)
    : list (K * V) :=
  match d with
  | [] => [(k, v)]
  | (k', v') :: d' =>
      if decide (k = k') then (k, v) :: d' else (k', v') :: dict_set d' k v
  end.

Fixpoint dict_get {K V} `{EqDecision K} (d : list (K * V)) (k : K) : option V :=
  match d with
  | [] => None
  | (k', v') :: d' => if decide (k = k') then Some v' else dict_get d' k
  end.

(** ** [Image._get_img_dict] *)

(** [a[..., k]]: element [k] of every block along the last axis; a negative
    [k] counts from the end. *)
Definition take_last {A} (k : Z) (a : ndarray A) : result (ndarray A) :=
  match reverse (shape a) with
  | [] => Raise IndexError
  | c :: rsh =>
      let k' := if (k <? 0)%Z then (k + Z.of_nat c)%Z else k in
      if decide (0 ≤ k' < Z.of_nat c)%Z
      then Ok (NDArray (reverse rsh)
                 (mjoin ((λ b, take 1 (drop (Z.to_nat k') b)) <$>
                           chunks c (size_of (reverse rsh)) (data a))))
      else Raise IndexError
  end.

(** [np.squeeze(a, axis=1)]: axis 1 is removed, and must have length 1. *)
Definition squeeze_axis1 {A} (a : ndarray A) : result (ndarray A) :=
  match shape a with
  | s0 :: 1 :: rest => Ok (NDArray (s0 :: rest) (data a))
  | _ => Raise ValueError
  end.

(** The flatfield correction of one channel, the body of the loop of
    [_get_img_dict]: [np.squeeze(plane / field, axis=1)]. *)
Definition flatfield_divide (plane field : ndarray float) : result (ndarray float) :=
  img ← broadcast2 PrimFloat.div plane field;
  squeeze_axis1 img.

Definition dict_lookup {V} (d : list (string * V)) (k : string) : result V :=
  match dict_get d k with
  | Some v => Ok v
  | None => Raise KeyError
  end.

(** [_get_img_dict] for the image array [array] (TZYXC): the corrected
    image of every channel, in the order of [channels]. *)
Definition _get_img_dict (array : ndarray float) (channels : list (string * Z))
    (_flatfield_dict : list (string * ndarray float))
    : result (list (string * ndarray float)) :=
  foldl (λ acc ch_idx,
           img_dict ← acc;
           plane ← take_last (snd ch_idx) array;
           field ← dict_lookup _flatfield_dict (fst ch_idx);
           img ← flatfield_divide plane field;
           Ok (dict_set img_dict (fst ch_idx) img))
        (Ok []) channels.

(** ** [skimage.segmentation.clear_border] *)

(** The coordinates of the element at position [i] of an array in C order. *)
Fixpoint unravel (sh : list nat) (i : nat) : list nat :=
  match sh with
  | [] => []
  | _ :: sh' => i / size_of sh' :: unravel sh' (i mod size_of sh')
  end.

(** The border region: on some axis the coordinate is among the first or
    the last [ext] ones ([slice(ext)] and [slice(-ext, None)]). *)
Definition in_border (ext : nat) (sh : list nat) (i : nat) : bool :=
  List.existsb (λ cs, (cs.1 <? ext) || (cs.2 - ext <=? cs.1))
    (zip (unravel sh i) sh).

(** Neighbours under full connectivity: no coordinate differs by more
    than one. *)
Definition adjacent (sh : list nat) (i j : nat) : bool :=
  List.forallb (λ cc, (cc.1 <=? S cc.2) && (cc.2 <=? S cc.1))
    (zip (unravel sh i) (unravel sh j)).

(** Pixels [i] and [j] are neighbours and carry one non-zero label:
    [skimage.measure.label] puts them into one object. *)
Definition linked (labels : ndarray Z) (i j : nat) : bool :=
  match data labels !! i, data labels !! j with
  | Some v, Some w =>
      adjacent (shape labels) i j && (v =? w)%Z && negb (v =? 0)%Z
  | _, _ => false
  end.

(** Pixel [i] is not background. *)
Definition is_object (labels : ndarray Z) (i : nat) : bool :=
  match data labels !! i with
  | Some v => negb (v =? 0)%Z
  | None => false
  end.

(** One round of flood fill: the pixels linked to a pixel of [X] join. *)
Definition grow (labels : ndarray Z) (X : gset nat) : gset nat :=
  X ∪ list_to_set
        (filter (λ j, List.existsb (λ i, linked labels i j) (elements X) = true)
                (seq 0 (length (data labels)))).

Fixpoint flood (fuel : nat) (labels : ndarray Z) (X : gset nat) : gset nat :=
  match fuel with
  | 0 => X
  | S fuel' =>
      let X' := grow labels X in
      if decide (X' = X) then X else flood fuel' labels X'
  end.

(** The pixels of the objects that reach into the border region. *)
Definition border_objects (labels : ndarray Z) (ext : nat) : gset nat :=
  let n := length (data labels) in
  flood n labels
    (list_to_set
       (filter (λ i, in_border ext (shape labels) i && is_object labels i = true)
               (seq 0 n))).

(** [clear_border(labels, buffer_size)]: a buffer as long as an axis is
    refused; the border region is [buffer_size + 1] wide; the objects are
    those of [skimage.measure.label] with background 0 and full
    connectivity, which labels arrays of one to three axes and refuses
    every other array; every pixel of an object with a pixel in the border
    region is set to 0. *)
Definition clear_border (labels : iarray) (buffer_size : nat) : result iarray :=
  if List.existsb (λ s, s <=? buffer_size) (ishape labels)
  then Raise ValueError
  else if (1 <=? length (ishape labels)) && (length (ishape labels) <=? 3)
  then
    let touching := border_objects (arr labels) (buffer_size + 1) in
    Ok (IArray (dtype labels)
          (NDArray (ishape labels)
             (imap (λ i v, if decide (i ∈ touching) then 0%Z else v)
                   (idata labels))))
  else Raise NotImplementedError.

(** ** [general_functions.filter_segmentation] *)

(** [np.bincount]: the number of occurrences of 0, 1, ..., max. *)
Definition bincount (x : list Z) : result (list nat) :=
  if List.existsb (λ z, (z <? 0)%Z) x then Raise ValueError
  else
    match x with
    | [] => Ok []
    | z :: x' =>
        Ok ((λ v, length (filter (λ y, y = Z.of_nat v) x))
              <$> seq 0 (S (Z.to_nat (foldl Z.max z x'))))
    end.

(** [a[0] = v] on a one-dimensional array. *)
Definition set_first {A} (a : list A) (v : A) : result (list A) :=
  match a with
  | [] => Raise IndexError
  | _ :: t => Ok (v :: t)
  end.

(** [table[idx]] for an integer array [idx]: the entry of [table] at every
    element of [idx]. *)
Definition fancy_index {A} (table : list A) (idx : ndarray Z) : result (ndarray A) :=
  NDArray (shape idx) <$>
    mapM (λ z, if decide (0 ≤ z)%Z
               then match table !! Z.to_nat z with
                    | Some v => Ok v
                    | None => Raise IndexError
                    end
               else Raise IndexError)
         (data idx).

(** [filter_segmentation(mask)]: [sizes] counts the pixels of every label
    left by [clear_border]; a pixel keeps its label when that count is
    above 10. *)
Definition filter_segmentation (mask : iarray) : result iarray :=
  cleared ← clear_border mask 5;
  sizes ← bincount (idata cleared);
  mask_sizes ← set_first ((λ s, 10 <? s) <$> sizes) false;
  cells_cleaned ← fancy_index mask_sizes (arr cleared);
  mul_bool mask cells_cleaned.

(** ** More array operations *)

Definition zeros (sh : list nat) (dt : int_dtype) : iarray :=
  IArray dt (NDArray sh (replicate (size_of sh) 0%Z)).

(** [a[t]]: block [t] along the first axis. *)
Definition get_item {A} (t : nat) (a : ndarray A) : result (ndarray A) :=
  match shape a with
  | [] => Raise IndexError
  | s :: sh =>
      if decide (t < s)
      then Ok (NDArray sh (take (size_of sh) (drop (t * size_of sh) (data a))))
      else Raise IndexError
  end.

(** Leading axes of length 1 that numpy drops from the value of an
    assignment which has more axes than its target. *)
Fixpoint strip_ones (n : nat) (sh : list nat) : list nat :=
  match n, sh with
  | S n', 1 :: sh' => strip_ones n' sh'
  | _, _ => sh
  end.

(** The elements of [a] broadcast to the shape [tgt] of an assignment
    target. *)
Definition broadcast_to {A} (tgt : list nat) (a : ndarray A) : result (list A) :=
  let src := strip_ones (length (shape a) - length tgt) (shape a) in
  match broadcast_shapes src tgt with
  | Some sh =>
      if decide (sh = tgt)
      then Ok (expand_data (pad_shape (length tgt) src) tgt (data a))
      else Raise ValueError
  | None => Raise ValueError
  end.

(** [a[t] = v]: the value is broadcast to the block and converted to the
    element type of [a]. *)
Definition set_item (t : nat) (v : iarray) (a : iarray) : result iarray :=
  match ishape a with
  | [] => Raise IndexError
  | s :: sh =>
      if decide (t < s)
      then
        d ← broadcast_to sh (arr v);
        Ok (IArray (dtype a)
              (NDArray (s :: sh)
                 (take (t * size_of sh) (idata a)
                  ++ (wrap (dtype a) <$> d)
                  ++ drop (S t * size_of sh) (idata a))))
      else Raise IndexError
  end.

(** [np.atleast_3d] on shapes. *)
Definition atleast_3d (sh : list nat) : list nat :=
  match sh with
  | [] => [1; 1; 1]
  | [n] => [1; n; 1]
  | [m; n] => [m; n; 1]
  | _ => sh
  end.

(** [np.dstack([a, b])]: concatenation along the third axis. *)
Definition dstack {A} (a b : ndarray A) : result (ndarray A) :=
  match atleast_3d (shape a), atleast_3d (shape b) with
  | a0 :: a1 :: a2 :: ra, b0 :: b1 :: b2 :: rb =>
      if decide (a0 = b0 ∧ a1 = b1 ∧ ra = rb)
      then Ok (NDArray (a0 :: a1 :: (a2 + b2) :: ra)
                 (mjoin (zip_with app
                           (chunks (a2 * size_of ra) (a0 * a1) (data a))
                           (chunks (b2 * size_of rb) (a0 * a1) (data b)))))
      else Raise ValueError
  | _, _ => Raise ValueError
  end.

(** [np.stack([a, b])] of two arrays of one element type. *)
Definition stack (a b : iarray) : result iarray :=
  if decide (ishape a = ishape b)
  then Ok (IArray (dtype a) (NDArray (2 :: ishape a) (idata a ++ idata b)))
  else Raise ValueError.

(** [x, y = a]: the two blocks of an array whose first axis has length 2. *)
Definition unpack2 (a : iarray) : result (iarray * iarray) :=
  match ishape a with
  | [] => Raise ValueError (* TypeError: iteration over a 0-d array *)
  | s :: _ =>
      if decide (s = 2)
      then x ← get_item 0 (arr a); y ← get_item 1 (arr a);
           Ok (IArray (dtype a) x, IArray (dtype a) y)
      else Raise ValueError
  end.

(** ** Strings *)

Definition upper_ascii (c : ascii) : ascii :=
  let n := nat_of_ascii c in
  if (97 <=? n) && (n <=? 122) then ascii_of_nat (n - 32) else c.

(** [s.upper()] for a string of ASCII characters. *)
Fixpoint upper (s : string) : string :=
  match s with
  | EmptyString => EmptyString
  | String c s' => String (upper_ascii c) (upper s')
  end.

Fixpoint remove_spaces (s : string) : string :=
  match s with
  | EmptyString => EmptyString
  | String c s' =>
      if Ascii.eqb c " " then remove_spaces s' else String c (remove_spaces s')
  end.

(** [needle in s]. *)
Fixpoint contains (needle s : string) : bool :=
  String.prefix needle s
  || match s with
     | EmptyString => false
     | String _ s' => contains needle s'
     end.

(** [str(n)] for an integer. *)
Definition str (n : Z) : string := NilZero.string_of_int (Z.to_int n).

(** ** The OMERO server, the Cellpose model and the trace of calls *)

Record model_call := ModelCall {
  model_type : string;
  image : ndarray float;
  channel_roles : nat * nat;
  diameter : option Z
}.

Inductive event :=
  | ListChildren (dataset_id : Z)
  | GetImage (image_id : Z)
  | ModelEval (call : model_call)
  | UploadMasks (dataset_id image_id : Z) (n_mask : iarray) (c_mask : option iarray).

(** The collaborators of the pipeline.  [MODEL_DICT] is
    [default_config.MODEL_DICT]; [rescale] stands for the percentile
    rescaling of [scale_img]; [cellpose_eval] is the segmentation model,
    which returns a label mask or raises; [upload_masks] is the upload of a
    nucleus and a cell mask for an image of a dataset, which stores them on
    the server or raises. *)
Record world := World {
  MODEL_DICT : list (string * string);
  rescale : ndarray float → ndarray float;
  cellpose_eval : model_call → result iarray;
  list_children : Z → list (string * Z);
  get_image : Z → result iarray;
  upload_masks : Z → Z → iarray → option iarray → result unit
}.

(** A computation that may raise and appends to the trace. *)
Definition run (A : Type) : Type := list event → result A * list event.

#[global] Instance run_ret : MRet run := λ A a tr, (Ok a, tr).
#[global] Instance run_bind : MBind run :=
  λ A B f m tr,
    match m tr with
    | (Ok a, tr') => f a tr'
    | (Raise e, tr') => (Raise e, tr')
    end.

Definition emit (ev : event) : run unit := λ tr, (Ok (), tr ++ [ev]).
Definition lift {A} (r : result A) : run A := λ tr, (r, tr).

(** [for t in ts: state = body(t, state)]. *)
Fixpoint for_each {S} (ts : list nat) (body : nat → S → run S) (s : S) : run S :=
  match ts with
  | [] => mret s
  | t :: ts' => s' ← body t s; for_each ts' body s'
  end.

(** [try: r  except IndexError: fallback]. *)
Definition except_IndexError {A} (r : result A) (fallback : A) : result A :=
  match r with
  | Raise IndexError => Ok fallback
  | _ => r
  end.

(** ** The [Image] class *)

(** The attributes of an [Image] that segmentation reads. *)
Record Image := {
  image_id : Z;
  dataset_id : Z;
  channels : list (string * Z);
  cell_line : string;
  img_dict : list (string * ndarray float)
}.

Definition scale_img (w : world) (img : ndarray float) : ndarray float :=
  rescale w img.

(** The diameter [_n_segmentation] stores in [self.nuc_diameter]. *)
Definition nuc_diameter (self : Image) : Z :=
  if contains "40X" (upper (cell_line self)) then 100%Z
  else if contains "20X" (upper (cell_line self)) then 25%Z
  else 10%Z.

Definition _get_models (w : world) (self : Image) : result string :=
  let cell_line := upper (remove_spaces (cell_line self)) in
  if contains "40X" cell_line then Ok "40x_Tub_H2B"%string
  else if contains "20X" cell_line then Ok "cyto"%string
  else match dict_get (MODEL_DICT w) cell_line with
       | Some m => Ok m
       | None => dict_lookup (MODEL_DICT w) "U2OS"
       end.

Definition first_axis {A} (a : ndarray A) : result nat :=
  match shape a with
  | [] => Raise IndexError
  | s :: _ => Ok s
  end.

(** [Image._n_segmentation]: one evaluation of the nuclei model per
    timepoint; an [IndexError] of the model is replaced by a mask of zeros
    of the shape of the image. *)
Definition _n_segmentation (w : world) (self : Image) : run iarray :=
  model ← lift (dict_lookup (MODEL_DICT w) "nuclei");
  img_array ← lift (dict_lookup (img_dict self) "DAPI");
  let segmentation_masks := zeros (shape img_array) uint32 in
  timepoints ← lift (first_axis img_array);
  for_each (seq 0 timepoints)
    (λ t segmentation_masks,
       img_t ← lift (get_item t img_array);
       let scaled_img_t := scale_img w img_t in
       let call := ModelCall model scaled_img_t (0, 0) (Some (nuc_diameter self)) in
       _ ← emit (ModelEval call);
       n_mask_array ← lift (except_IndexError (cellpose_eval w call)
                              (zeros (shape scaled_img_t) uint8));
       filtered ← lift (filter_segmentation n_mask_array);
       lift (set_item t filtered segmentation_masks))
    segmentation_masks.

(** [Image._c_segmentation]: one evaluation of the cell model per timepoint
    on the composite of the DAPI and Tub images; an [IndexError] of the
    model is replaced by zeros of the shape of the composite
    ([np.zeros_like(comb_image_t)]). *)
Definition _c_segmentation (w : world) (self : Image) : run iarray :=
  model ← lift (_get_models w self);
  dapi_array ← lift (dict_lookup (img_dict self) "DAPI");
  tub_array ← lift (dict_lookup (img_dict self) "Tub");
  dapi_timepoints ← lift (first_axis dapi_array);
  tub_timepoints ← lift (first_axis tub_array);
  if decide (dapi_timepoints = tub_timepoints)
  then
    let segmentation_masks := zeros (shape dapi_array) uint32 in
    for_each (seq 0 dapi_timepoints)
      (λ t segmentation_masks,
         dapi_t ← lift (get_item t dapi_array);
         tub_t ← lift (get_item t tub_array);
         stacked ← lift (dstack dapi_t tub_t);
         let comb_image_t := scale_img w stacked in
         let call := ModelCall model comb_image_t (2, 1) None in
         _ ← emit (ModelEval call);
         c_masks_array ← lift (except_IndexError (cellpose_eval w call)
                                 (astype uint8 (zeros (shape comb_image_t) uint8)));
         filtered ← lift (filter_segmentation c_masks_array);
         lift (set_item t filtered segmentation_masks))
      segmentation_masks
  else lift (Raise AssertionError).

Definition has_key {V} (d : list (string * V)) (k : string) : bool :=
  bool_decide (is_Some (dict_get d k)).

(** [masks[..., k]] of a stored mask image. *)
Definition channel_of (k : Z) (masks : iarray) : result iarray :=
  IArray (dtype masks) <$> take_last k (arr masks).

(** [Image._segmentation]: the masks stored under the name
    ["{image_id}_segmentation"] if the dataset has such a child (the first
    one), else freshly computed, compacted and uploaded masks; an upload
    that raises makes the operation raise. *)
Definition _segmentation (w : world) (self : Image)
    : run (iarray * option iarray * option iarray) :=
  let image_name := (str (image_id self) +:+ "_segmentation")%string in
  _ ← emit (ListChildren (dataset_id self));
  match list_find (λ child, fst child = image_name)
                  (list_children w (dataset_id self)) with
  | Some (_, (_, found_id)) =>
      _ ← emit (GetImage found_id);
      masks ← lift (get_image w found_id);
      if has_key (channels self) "Tub"
      then
        n_mask ← lift (channel_of 0 masks);
        c_mask ← lift (channel_of 1 masks);
        cyto_mask ← lift (_get_cyto n_mask c_mask);
        mret (n_mask, Some c_mask, Some cyto_mask)
      else
        n_mask ← lift (channel_of 0 masks);
        mret (n_mask, None, None)
  | None =>
      n_mask ← _n_segmentation w self;
      '(n_mask, c_mask, cyto_mask) ←
        (if has_key (channels self) "Tub"
         then
           c_mask ← _c_segmentation w self;
           stacked ← lift (stack n_mask c_mask);
           compacted ← lift (_compact_mask stacked);
           '(n_mask, c_mask) ← lift (unpack2 compacted);
           cyto_mask ← lift (_get_cyto n_mask c_mask);
           mret (n_mask, Some c_mask, Some cyto_mask)
         else
           n_mask ← lift (_compact_mask n_mask);
           mret (n_mask, None, None));
      _ ← emit (UploadMasks (dataset_id self) (image_id self) n_mask c_mask);
      _ ← lift (upload_masks w (dataset_id self) (image_id self) n_mask c_mask);
      mret (n_mask, c_mask, cyto_mask)
  end.

(** ** pandas tables *)

(** A cell holds an integer or a float; a missing value is the float NaN. *)
Inductive cell := CInt (z : Z) | CFloat (f : float).

Inductive col_dtype := DInt (w : int_dtype) | DFloat | DObject.

#[global] Instance col_dtype_eq_dec : EqDecision col_dtype.
Proof. solve_decision. Defined.

(** A table: the column names with their element types, and the rows. *)
Record DataFrame := DF {
  columns : list (string * col_dtype);
  rows : list (list cell)
}.

Definition is_integer_dtype (d : col_dtype) : bool :=
  match d with DInt _ => true | _ => false end.

(** ** [pd.merge(df1, df2, how="outer", on=on)], [dropna] and [astype]

    The join of pandas on tables with distinct column names: the keys of
    both tables in ascending order, for every key the pairs of its left and
    right rows, or its rows of one table completed by missing values; a
    column that receives a missing value is converted to float; a column
    name outside the key that both tables have gets the suffixes [_x] and
    [_y]. *)

Definition NaN : cell := CFloat PrimFloat.nan.

Definition isna (c : cell) : bool :=
  match c with
  | CInt _ => false
  | CFloat f => PrimFloat.is_nan f
  end.

(** The float64 nearest to an integer, and the integer part of a float. *)
Definition float_of_Z (z : Z) : float :=
  SF2Prim (binary_normalize prec emax z 0 false).

Definition Z_of_float (f : float) : option Z :=
  match Prim2SF f with
  | S754_zero _ => Some 0%Z
  | S754_finite s m e =>
      let a := if (0 <=? e)%Z then (Z.pos m * 2 ^ e)%Z
               else (Z.pos m / 2 ^ (- e))%Z in
      Some (if s then (- a)%Z else a)
  | _ => None
  end.

Definition to_float (c : cell) : float :=
  match c with
  | CInt z => float_of_Z z
  | CFloat f => f
  end.

(** Equality and order of key values in a join: missing values are equal to
    each other and sort last. *)
Definition cell_eqb (a b : cell) : bool :=
  match a, b with
  | CInt x, CInt y => (x =? y)%Z
  | _, _ =>
      let x := to_float a in
      let y := to_float b in
      PrimFloat.eqb x y || (PrimFloat.is_nan x && PrimFloat.is_nan y)
  end.

Definition cell_ltb (a b : cell) : bool :=
  match a, b with
  | CInt x, CInt y => (x <? y)%Z
  | _, _ =>
      let x := to_float a in
      let y := to_float b in
      PrimFloat.ltb x y || (negb (PrimFloat.is_nan x) && PrimFloat.is_nan y)
  end.

Fixpoint key_eqb (k1 k2 : list cell) : bool :=
  match k1, k2 with
  | [], [] => true
  | a :: k1', b :: k2' => cell_eqb a b && key_eqb k1' k2'
  | _, _ => false
  end.

Fixpoint key_ltb (k1 k2 : list cell) : bool :=
  match k1, k2 with
  | a :: k1', b :: k2' => cell_ltb a b || (cell_eqb a b && key_ltb k1' k2')
  | [], _ :: _ => true
  | _, _ => false
  end.

Fixpoint insert_key (k : list cell) (l : list (list cell)) : list (list cell) :=
  match l with
  | [] => [k]
  | k' :: l' => if key_ltb k' k then k' :: insert_key k l' else k :: l
  end.

Definition sort_keys (l : list (list cell)) : list (list cell) :=
  foldr insert_key [] l.

(** The distinct keys, each at its first occurrence. *)
Fixpoint distinct_keys (l : list (list cell)) : list (list cell) :=
  match l with
  | [] => []
  | k :: l' => k :: filter (λ k', key_eqb k k' = false) (distinct_keys l')
  end.

(** numpy's common type of two integer types. *)
Definition promote (a b : int_dtype) : int_dtype :=
  if decide (a = b) then a
  else if is_signed a && is_signed b then int64
  else if negb (is_signed a) && negb (is_signed b)
       then (if (bits a <? bits b)%Z then b else a)
  else
    let u := if is_signed a then b else a in
    if decide (u = uint32) then int64
    else if is_signed a then a else b.

Definition common_type (a b : col_dtype) : col_dtype :=
  match a, b with
  | DInt x, DInt y => DInt (promote x y)
  | DObject, _ | _, DObject => DObject
  | _, _ => DFloat
  end.

(** The type of a column into which missing values are written. *)
Definition upcast (d : col_dtype) : col_dtype :=
  match d with DInt _ => DFloat | _ => d end.

(** The representation of a value in a column of type [d]. *)
Definition coerce (d : col_dtype) (c : cell) : cell :=
  match d, c with
  | DFloat, CInt z => CFloat (float_of_Z z)
  | _, _ => c
  end.

Definition col_pos (cols : list (string * col_dtype)) (name : string) : option nat :=
  fst <$> list_find (λ c, c.1 = name) cols.

Definition key_positions (cols : list (string * col_dtype)) (on : list string)
    : result (list nat) :=
  mapM (λ name, match col_pos cols name with
                | Some i => Ok i
                | None => Raise KeyError
                end) on.

Definition key_of (pos : list nat) (row : list cell) : list cell :=
  (λ i, default NaN (row !! i)) <$> pos.

(** The entries of a row, or of a list of columns, outside the key. *)
Definition rest_of {A} (pos : list nat) (row : list A) : list A :=
  omap id (imap (λ i c, if decide (i ∈ pos) then None else Some c) row).

(** A row of the left table for a key that only the right table has: the
    key columns hold the key and the other columns are missing. *)
Definition fill_left (pos : list nat) (ncols : nat) (key : list cell) : list cell :=
  (λ i, match list_find (λ p, p = i) pos with
        | Some (j, _) => default NaN (key !! j)
        | None => NaN
        end) <$> seq 0 ncols.

Definition suffixed (others : list string) (sfx name : string) : string :=
  if decide (name ∈ others) then (name +:+ sfx)%string else name.

Section merge.
Context (left right : DataFrame) (lk rk : list nat).

Definition matches_left (k : list cell) : list (list cell) :=
  filter (λ l, key_eqb (key_of lk l) k = true) (rows left).
Definition matches_right (k : list cell) : list (list cell) :=
  filter (λ r, key_eqb (key_of rk r) k = true) (rows right).

(** The rows of the join for one key. *)
Definition group (k : list cell) : list (list cell) :=
  match matches_left k, matches_right k with
  | [], rs =>
      (λ r, fill_left lk (length (columns left)) (key_of rk r) ++ rest_of rk r)
        <$> rs
  | ls, [] =>
      (λ l, l ++ replicate (length (rest_of rk (columns right))) NaN) <$> ls
  | ls, rs => l ← ls; r ← rs; [l ++ rest_of rk r]
  end.

Definition join_keys : list (list cell) :=
  sort_keys (distinct_keys ((key_of lk <$> rows left) ++ (key_of rk <$> rows right))).

(** Some row of the left (right) table has no partner. *)
Definition left_only : bool :=
  List.existsb (λ l, match matches_right (key_of lk l) with [] => true | _ => false end)
    (rows left).
Definition right_only : bool :=
  List.existsb (λ r, match matches_left (key_of rk r) with [] => true | _ => false end)
    (rows right).

(** The types of a pair of key columns when the join starts: unless just
    one of the tables has no rows, a column of numbers that is paired with
    a column of objects is converted to objects. *)
Definition coerce_keys (l r : col_dtype) : col_dtype * col_dtype :=
  match rows left, rows right with
  | [], _ :: _ | _ :: _, [] => (l, r)
  | _, _ =>
      match l, r with
      | DObject, _ | _, DObject => (DObject, DObject)
      | _, _ => (l, r)
      end
  end.

(** The type of a key column of the join: that of the left column, unless
    the keys of right rows without a partner are written into it; then it
    is the common type of the two columns, and the type of the right column
    when no row of the join comes from the left table. *)
Definition key_dtype (l r : col_dtype) : col_dtype :=
  let '(l, r) := coerce_keys l r in
  if right_only
  then match rows left with [] => r | _ :: _ => common_type l r end
  else l.

Definition merged_columns : list (string * col_dtype) :=
  let lrest := (rest_of lk (columns left)).*1 in
  let rrest := (rest_of rk (columns right)).*1 in
  imap (λ i c,
          match list_find (λ p, p = i) lk with
          | Some (j, _) =>
              (c.1, key_dtype c.2
                      (default DObject (j' ← rk !! j; snd <$> columns right !! j')))
          | None =>
              (suffixed rrest "_x" c.1, if right_only then upcast c.2 else c.2)
          end) (columns left)
  ++ ((λ c, (suffixed lrest "_y" c.1, if left_only then upcast c.2 else c.2))
        <$> rest_of rk (columns right)).

Definition merged : DataFrame :=
  DF merged_columns
     ((λ row, zip_with coerce merged_columns.*2 row) <$> (join_keys ≫= group)).
End merge.

(** [pd.merge(left, right, how="outer", on=on)]: the names of [on] are
    looked up in both tables; the join takes the number of rows from the
    first key column, so that an empty list of names is refused. *)
Definition merge_outer (left right : DataFrame) (on : list string) : result DataFrame :=
  lk ← key_positions (columns left) on;
  rk ← key_positions (columns right) on;
  match lk with
  | [] => Raise IndexError
  | _ :: _ => Ok (merged left right lk rk)
  end.

(** [df.dropna(axis=0, how="any")]. *)
Definition dropna (df : DataFrame) : DataFrame :=
  DF (columns df) (filter (λ row, List.existsb isna row = false) (rows df)).

(** [astype] to an integer type; a missing or infinite value cannot be
    converted. *)
Definition astype_cell (w : int_dtype) (c : cell) : result cell :=
  match c with
  | CInt z => Ok (CInt (wrap w z))
  | CFloat f =>
      match Z_of_float f with
      | Some z => Ok (CInt (wrap w z))
      | None => Raise ValueError
      end
  end.

(** [df[c] = df[c].astype(w)] for the column at position [i]. *)
Definition astype_column (df : DataFrame) (i : nat) (w : int_dtype) : result DataFrame :=
  rows' ← mapM (λ row, match row !! i with
                       | Some c => c' ← astype_cell w c; Ok (<[i := c']> row)
                       | None => Ok row
                       end) (rows df);
  Ok (DF (alter (λ c, (c.1, DInt w)) i (columns df)) rows').

(** One round of the loops of [_outer_merge] that restore integer types. *)
Definition restore_column (df : DataFrame) (c : string * col_dtype) : result DataFrame :=
  match c.2 with
  | DInt w =>
      match list_find (λ c', c'.1 = c.1) (columns df) with
      | None => Raise KeyError
      | Some (i, c') =>
          if is_integer_dtype c'.2 then Ok df else astype_column df i w
      end
  | _ => Ok df
  end.

Definition restore (src df : DataFrame) : result DataFrame :=
  foldl (λ acc c, df ← acc; restore_column df c) (Ok df) (columns src).

(** ** [ImageProperties._outer_merge] *)

(** The join, without the rows that have a missing value, and with the
    integer columns of [df1], then of [df2], converted back where the join
    changed their type. *)
Definition _outer_merge (df1 df2 : DataFrame) (on : list string) : result DataFrame :=
  df ← dropna <$> merge_outer df1 df2 on;
  df ← restore df1 df;
  restore df2 df.

(** ** [ImageProperties._overlay_mask] *)

(** [a[m]] for a boolean array [m]: the elements of [a] where [m] is set,
    in C order; the shapes must agree. *)
Definition bool_index {A} (a : ndarray A) (m : ndarray bool) : result (list A) :=
  if decide (shape a = shape m)
  then Ok (fst <$> filter (λ p, snd p = true) (zip (data a) (data m)))
  else Raise IndexError.

(** [pd.DataFrame(list(d.items()), columns=["label", "Cyto_ID"])]: the
    columns of a table without rows have the [object] type. *)
Definition overlay_frame (items : list (Z * Z)) : DataFrame :=
  let dt := match items with [] => DObject | _ => DInt int64 end in
  DF [("label"%string, dt); ("Cyto_ID"%string, dt)]
     ((λ kv, [CInt (fst kv); CInt (snd kv)]) <$> items).

(** The dictionary [{list_n_masks[i]: list_masks[i] for i in range(...)}]. *)
Definition overlay_all (list_n_masks list_masks : list Z) : list (Z * Z) :=
  foldl (λ d kv, dict_set d (fst kv) (snd kv)) [] (zip list_n_masks list_masks).

(** The table that links nucleus labels to cell labels; without a cell mask
    the table of the pixels of the nucleus mask. *)
Definition _overlay_mask (n_mask : iarray) (c_mask : option iarray)
    : result DataFrame :=
  match c_mask with
  | None =>
      Ok (DF [("label"%string, DInt (dtype n_mask))]
             ((λ z, [CInt z]) <$> idata n_mask))
  | Some c_mask =>
      overlap ← broadcast2 andb (ne0 c_mask) (ne0 n_mask);
      list_n_masks ← bool_index (arr n_mask) overlap;
      list_masks ← bool_index (arr c_mask) overlap;
      (* np.stack needs the two selections to have one length *)
      if decide (length list_n_masks = length list_masks)
      then Ok (overlay_frame (overlay_all list_n_masks list_masks))
      else Raise ValueError
  end.

(** The pairs (nucleus label, cell label) of the pixels where both masks
    are set, in flatten order. *)
Definition overlap_pairs (n_mask c_mask : iarray) : list (Z * Z) :=
  filter (λ p, fst p ≠ 0%Z ∧ snd p ≠ 0%Z) (zip (idata n_mask) (idata c_mask)).

(** ** [ImageProperties._edit_properties] *)

(** The new names of the measured features: [{feature}_{channel}_{segment}]
    for the features after the first two of [featurelist], then
    [area_{segment}] under the key ["area"]. *)
Definition _edit_properties (channel segment : string) (featurelist : list string)
    : list (string * string) :=
  let feature_dict :=
    foldl (λ d feature,
             dict_set d feature (feature +:+ "_" +:+ channel +:+ "_" +:+ segment))
          [] (drop 2 featurelist) in
  dict_set feature_dict "area" ("area_" +:+ segment).

(** A value fits the type of its column. *)
Definition has_dtype (d : col_dtype) (c : cell) : Prop :=
  match d with
  | DInt _ => ∃ z, c = CInt z
  | DFloat => ∃ f, c = CFloat f
  | DObject => True
  end.

(** A table whose column names are distinct and whose rows hold one value
    of the right type per column. *)
Record wf_frame (df : DataFrame) : Prop := {
  wf_names : NoDup (columns df).*1;
  wf_rows : Forall (λ row, Forall2 has_dtype (columns df).*2 row) (rows df)
}.

(** No value of the table is missing. *)
Definition no_na (df : DataFrame) : Prop :=
  Forall (λ row, List.existsb isna row = false) (rows df).

(** The key values of the rows of a table; a key made of integers. *)
Definition keys_of (df : DataFrame) (pos : list nat) : list (list cell) :=
  key_of pos <$> rows df.

Definition int_key (k : list cell) : Prop := Forall (λ c, ∃ z, c = CInt z) k.

(** The value of a cytoplasm pixel as the specification words it: the cell
    label where the cell mask is set and the nucleus mask is not, else 0. *)
Definition cyto_pixel (nv cv : Z) : Z :=
  if decide (cv ≠ 0 ∧ nv = 0)%Z then cv else 0%Z.


(** ** Notions used in the statements *)

(** [compat src tgt]: every axis of [src] has the length of the axis of
    [tgt], or length 1. *)
Definition compat (src tgt : list nat) : Prop :=
  Forall2 (λ s t, s = t ∨ s = 1) src tgt.

(** [connected labels i j]: a chain of neighbouring pixels of one non-zero
    label leads from [i] to [j]; the two pixels lie in one object. *)
Definition connected (labels : ndarray Z) : relation nat :=
  rtc (λ i j, linked labels i j = true).

(** A set of pixels that contains the pixels linked to its members. *)
Definition closed (labels : ndarray Z) (X : gset nat) : Prop :=
  ∀ i j, i ∈ X → linked labels i j = true → j ∈ X.

(** Number of pixels with label [v]. *)
Definition area (x : list Z) (v : Z) : nat := length (filter (λ y, y = v) x).

(** The pixels [clear_border] leaves, then the verdict of the size filter
    on a pixel value. *)
Definition cleared_data (mask : iarray) : list Z :=
  imap (λ i v, if decide (i ∈ border_objects (arr mask) 6) then 0%Z else v)
       (idata mask).

Definition kept (mask : iarray) (v : Z) : bool :=
  negb (v =? 0)%Z && (10 <? area (cleared_data mask) v).

(** [keyed cols on pos]: [pos] holds the positions of the columns named by
    [on], which have an integer type. *)
Definition keyed (cols : list (string * col_dtype)) (on : list string)
    (pos : list nat) : Prop :=
  Forall2 (λ name i, ∃ w, cols !! i = Some (name, DInt w)) on pos.

(** Calls of the model and uploads in a trace. *)
Definition is_model_eval (ev : event) : bool :=
  match ev with ModelEval _ => true | _ => false end.

Definition is_upload (ev : event) : bool :=
  match ev with UploadMasks _ _ _ _ => true | _ => false end.

(** The image with another cell line. *)
Definition with_cell_line (s : string) (self : Image) : Image :=
  {| image_id := image_id self; dataset_id := dataset_id self;
     channels := channels self; cell_line := s; img_dict := img_dict self |}.

(** The child of the dataset that [_segmentation] takes for the stored
    masks, with its position: the first one named
    ["{image_id}_segmentation"]. *)
Definition stored_segmentation (w : world) (self : Image) : option (nat * (string * Z)) :=
  list_find (λ child, child.1 = (str (image_id self) +:+ "_segmentation")%string)
            (list_children w (dataset_id self)).

(** [emits Q m]: whatever its outcome, [m] appends to the trace, and the
    events it appends satisfy [Q]. *)
Definition emits {A} (Q : event → Prop) (m : run A) : Prop :=
  ∀ tr, ∃ es, (m tr).2 = tr ++ es ∧ Forall Q es.

(** The pixels of a filtered mask: the pixel of the mask times the verdict
    of the size filter on the value [clear_border] left there. *)
Definition filtered_data (mask : iarray) : list Z :=
  zip_with (λ z (t : bool), (z * Z.b2z t)%Z) (idata mask)
    (kept mask <$> cleared_data mask).

(** The first column called [name], the one [df[name]] denotes, has an
    integer type. *)
Definition int_column (df : DataFrame) (name : string) : Prop :=
  ∃ i w, columns df !! i = Some (name, DInt w)
    ∧ ∀ j c, j < i → columns df !! j = Some c → c.1 ≠ name.

(** ** Example data *)

(** A nucleus (label 1) lying across two cells (labels 2 and 3). *)
Definition nucleus_1x2 : iarray := IArray uint8 (NDArray [1; 2] [1; 1]%Z).
Definition cells_1x2 : iarray := IArray uint8 (NDArray [1; 2] [2; 3]%Z).

(** A 2x2 nucleus mask and cell mask. *)
Definition nucleus_2x2 : iarray := IArray uint8 (NDArray [2; 2] [1; 0; 0; 0]%Z).
Definition cells_2x2 : iarray := IArray uint8 (NDArray [2; 2] [7; 7; 0; 9]%Z).

(** A 32-bit mask whose largest label needs 16 bits. *)
Definition labels_u32 : iarray := IArray uint32 (NDArray [2; 2] [300; 0; 5; 7]%Z).

(** One timepoint, one z plane of 2x2 pixels, and a 2x2 correction field. *)
Definition plane_1x1x2x2 : ndarray float :=
  NDArray [1; 1; 2; 2] [2; 4; 6; 8]%float.
Definition field_2x2 : ndarray float := NDArray [2; 2] [2; 2; 4; 4]%float.
Definition field_1x1x2x2 : ndarray float :=
  NDArray [1; 1; 2; 2] [2; 2; 4; 4]%float.

(** Two timepoints of 6x6 pixels: the first all 0, the second all 1. *)
Definition stack_2x6x6 : ndarray float :=
  NDArray [2; 6; 6] (replicate 36 0%float ++ replicate 36 1%float).

(** A model that raises [IndexError] on an image that starts with a zero
    pixel and finds no object in the others. *)
Definition model_fails_on_dark (call : model_call) : result iarray :=
  match data (image call) with
  | p :: _ =>
      if PrimFloat.eqb p 0 then Raise IndexError
      else Ok (zeros (take 2 (shape (image call))) uint16)
  | [] => Raise IndexError
  end.

Definition world_dark : world :=
  World [("nuclei", "nuclei"); ("U2OS", "cyto")]%string
        (λ img, img) model_fails_on_dark (λ _, []) (λ _, Raise KeyError)
        (λ _ _ _ _, Ok ()).

Definition image_dapi_tub : Image :=
  {| image_id := 7; dataset_id := 1;
     channels := [("DAPI", 0%Z); ("Tub", 1%Z)]%string;
     cell_line := "U2OS";
     img_dict := [("DAPI", stack_2x6x6); ("Tub", stack_2x6x6)]%string |}.

(** A 15x23 mask: object 1 (11 pixels) in the interior, object 2 along the
    upper edge, object 3 (5 pixels) in the interior, object 4 reaching from
    the interior into the right border region. *)
Definition mask_15x23 : iarray :=
  IArray uint16 (NDArray [15; 23]
    ((λ i : nat,
        let r := i / 23 in
        let c := i mod 23 in
        if decide (r = 6 ∧ 6 ≤ c ≤ 16) then 1%Z
        else if decide (r = 0 ∧ c ≤ 11) then 2%Z
        else if decide (r = 8 ∧ 6 ≤ c ≤ 10) then 3%Z
        else if decide (r = 8 ∧ 12 ≤ c) then 4%Z
        else 0%Z) <$> seq 0 345)).

(** A 17x23 mask whose two labels both consist of two objects: label 2 of
    three pixels in the upper left corner and 11 pixels in the interior,
    label 1 of the 5 pixels [small_part] and of 11 pixels, all in the
    interior. *)
Definition mask_split : iarray :=
  IArray uint16 (NDArray [17; 23]
    ((λ i : nat,
        let r := i / 23 in
        let c := i mod 23 in
        if decide (r = 0 ∧ c ≤ 2) then 2%Z
        else if decide (r = 6 ∧ 6 ≤ c ≤ 16) then 2%Z
        else if decide (r = 8 ∧ 6 ≤ c ≤ 10) then 1%Z
        else if decide (r = 10 ∧ 6 ≤ c ≤ 16) then 1%Z
        else 0%Z) <$> seq 0 391)).

Definition small_part : list nat := seq (8 * 23 + 6) 5.

(** A stored mask image with a nucleus and a cell channel (TZYXC), and a
    server that holds it for image 7. *)
Definition stored_masks : iarray :=
  IArray uint8 (NDArray [1; 1; 2; 2; 2] [1; 5; 0; 5; 0; 0; 2; 6]%Z).

Definition world_stored : world :=
  World [("nuclei", "nuclei"); ("U2OS", "cyto")]%string
        (λ img, img) model_fails_on_dark
        (λ _, [("3_segmentation", 40%Z); ("7_segmentation", 41%Z)]%string)
        (λ id, if decide (id = 41%Z) then Ok stored_masks else Raise KeyError)
        (λ _ _ _ _, Ok ()).

(** A server that holds two images named for image 7. *)
Definition world_stored_twice : world :=
  World [("nuclei", "nuclei"); ("U2OS", "cyto")]%string
        (λ img, img) model_fails_on_dark
        (λ _, [("3_segmentation", 40%Z); ("7_segmentation", 41%Z);
               ("7_segmentation", 42%Z)]%string)
        (λ id, if decide (id = 41%Z) then Ok stored_masks
               else if decide (id = 42%Z) then Ok (zeros [1; 1; 2; 2; 2] uint8)
               else Raise KeyError)
        (λ _ _ _ _, Ok ()).

(** A server without stored masks and a model that finds no object. *)
Definition world_fresh : world :=
  World [("nuclei", "nuclei"); ("U2OS", "cyto")]%string
        (λ img, img)
        (λ call, Ok (zeros (take 2 (shape (image call))) uint16))
        (λ _, [("3_segmentation", 40%Z)]%string)
        (λ _, Raise KeyError)
        (λ _ _ _ _, Ok ()).

(** The same server and model, with an upload that is refused. *)
Definition world_upload_refused : world :=
  World [("nuclei", "nuclei"); ("U2OS", "cyto")]%string
        (λ img, img)
        (λ call, Ok (zeros (take 2 (shape (image call))) uint16))
        (λ _, [("3_segmentation", 40%Z)]%string)
        (λ _, Raise KeyError)
        (λ _ _ _ _, Raise ValueError).

(** Cell and cytoplasm measurements of the same three objects, and nucleus
    measurements with an overlay link to other labels. *)
Definition cell_table : DataFrame :=
  DF [("label", DInt int64); ("area_cell", DFloat); ("timepoint", DInt int64)]%string
     [[CInt 5; CFloat 50; CInt 0]; [CInt 6; CFloat 60; CInt 0];
      [CInt 5; CFloat 51; CInt 1]].

Definition cyto_table : DataFrame :=
  DF [("label", DInt int64); ("area_cyto", DFloat); ("timepoint", DInt int64)]%string
     [[CInt 5; CFloat 30; CInt 1]; [CInt 6; CFloat 40; CInt 0];
      [CInt 5; CFloat 31; CInt 0]].

(** The cell measurements with a missing area for object 6. *)
Definition cell_table_missing : DataFrame :=
  DF [("label", DInt int64); ("area_cell", DFloat); ("timepoint", DInt int64)]%string
     [[CInt 5; CFloat 50; CInt 0]; [CInt 6; NaN; CInt 0];
      [CInt 5; CFloat 51; CInt 1]].

Definition nucleus_table : DataFrame :=
  DF [("label", DInt int64); ("area_nucleus", DFloat); ("timepoint", DInt int64)]%string
     [[CInt 1; CFloat 20; CInt 0]; [CInt 2; CFloat 30; CInt 0]].

Definition overlay_table : DataFrame := overlay_frame [(3, 5); (4, 6)]%Z.

(** A feature list: the label, the area and two intensities. *)
Definition features_default : list string :=
  ["label"; "area"; "intensity_max"; "intensity_mean"]%string.

(** A model that fails with [ValueError] on every image. *)
Definition world_broken : world :=
  World [("nuclei", "nuclei"); ("U2OS", "cyto")]%string
        (λ img, img) (λ _, Raise ValueError) (λ _, []) (λ _, Raise KeyError)
        (λ _ _ _ _, Ok ()).

(** An image whose DAPI channel has two timepoints and whose Tub channel
    has one. *)
Definition stack_1x6x6 : ndarray float := NDArray [1; 6; 6] (replicate 36 1%float).

Definition image_mismatch : Image :=
  {| image_id := 7; dataset_id := 1;
     channels := [("DAPI", 0%Z); ("Tub", 1%Z)]%string;
     cell_line := "U2OS";
     img_dict := [("DAPI", stack_2x6x6); ("Tub", stack_1x6x6)]%string |}.

(** Object 1 of [mask_15x23] alone. *)
Definition filtered_15x23 : iarray :=
  IArray uint16 (NDArray [15; 23]
    ((λ i : nat, if decide (i / 23 = 6 ∧ 6 ≤ i mod 23 ≤ 16) then 1%Z else 0%Z)
       <$> seq 0 345)).

(** A cell mask that no pixel of [nucleus_2x2] lies in. *)
Definition cells_apart_2x2 : iarray := IArray uint8 (NDArray [2; 2] [0; 7; 0; 9]%Z).

(** An image with two z planes of one pixel, and an image of 2x2 pixels
    with one z plane and one channel (TZYXC). *)
Definition z_stack_1x2x1x1x1 : ndarray float :=
  NDArray [1; 2; 1; 1; 1] [1; 2]%float.

Definition plane_1x1x2x2x1 : ndarray float :=
  NDArray [1; 1; 2; 2; 1] [2; 4; 6; 8]%float.

(** A stored mask image with the nucleus channel only, on a server that
    holds it for image 7. *)
Definition single_channel_masks : iarray :=
  IArray uint8 (NDArray [1; 1; 2; 2; 1] [1; 0; 0; 2]%Z).

Definition world_single_channel : world :=
  World [("nuclei", "nuclei"); ("U2OS", "cyto")]%string
        (λ img, img) model_fails_on_dark
        (λ _, [("7_segmentation", 41%Z)]%string)
        (λ _, Ok single_channel_masks)
        (λ _ _ _ _, Ok ()).

(** * Properties *)

(** ** Arrays and broadcasting *)

Lemma join_chunks {A} (k n : nat) (d : list A) :
  length d = n * k → mjoin (chunks k n d) = d.
Proof.
  revert d. induction n as [|n IH]; intros d Hd; simpl in *.
  - by destruct d.
  - rewrite IH, ?take_drop; [done|]. rewrite length_drop. lia.
Qed.

Lemma chunks_length {A} (k n : nat) (d : list A) :
  length d = n * k → Forall (λ c, length c = k) (chunks k n d).
Proof.
  revert d. induction n as [|n IH]; intros d Hd; simpl in *; constructor.
  - rewrite length_take. lia.
  - apply IH. rewrite length_drop. lia.
Qed.

Lemma expand_data_same {A} (sh : list nat) (d : list A) :
  length d = size_of sh → expand_data sh sh d = d.
Proof.
  revert d. induction sh as [|s sh IH]; intros d Hd; simpl in *; [done|].
  rewrite decide_True by done.
  rewrite <- (join_chunks (size_of sh) s d) at 2 by done.
  f_equal. apply list_eq. intros i. rewrite list_lookup_fmap.
  destruct (chunks (size_of sh) s d !! i) as [c|] eqn:Hc; simpl; [|done].
  f_equal. apply IH.
  eapply (proj1 (Forall_lookup _ _) (chunks_length _ _ _ Hd)); eauto.
Qed.

Lemma broadcast_rev_same (s : list nat) : broadcast_rev s s = Some s.
Proof.
  induction s as [|a s IH]; simpl; [done|].
  rewrite decide_True by done. by rewrite IH.
Qed.

Lemma broadcast_shapes_same (s : list nat) : broadcast_shapes s s = Some s.
Proof.
  unfold broadcast_shapes. rewrite broadcast_rev_same. simpl.
  by rewrite reverse_involutive.
Qed.

Lemma pad_shape_same (sh : list nat) : pad_shape (length sh) sh = sh.
Proof. unfold pad_shape. by rewrite Nat.sub_diag. Qed.

(** On arrays of one shape broadcasting is the plain element-wise map. *)
Lemma broadcast2_same {A B C} (f : A → B → C) (a : ndarray A) (b : ndarray B) :
  wf_array a → wf_array b → shape a = shape b →
  broadcast2 f a b = Ok (NDArray (shape a) (zip_with f (data a) (data b))).
Proof.
  intros Ha Hb Hs. unfold broadcast2. rewrite <- Hs, broadcast_shapes_same.
  rewrite pad_shape_same, !expand_data_same; try done.
  red in Hb. by rewrite Hs.
Qed.

Lemma length_join_const {A} (k : nat) (ls : list (list A)) :
  Forall (λ l, length l = k) ls → length (mjoin ls) = length ls * k.
Proof.
  induction 1 as [|l ls Hl _ IH]; simpl; [done|].
  rewrite length_app, IH, Hl. lia.
Qed.

Lemma chunks_count {A} (k n : nat) (d : list A) : length (chunks k n d) = n.
Proof. revert d. induction n as [|n IH]; intros d; simpl; [done|]. by rewrite IH. Qed.

Lemma expand_data_length {A} (src tgt : list nat) (d : list A) :
  compat src tgt → length d = size_of src →
  length (expand_data src tgt d) = size_of tgt.
Proof.
  intros Hc. revert d.
  induction Hc as [|s t src tgt Hst Hc IH]; intros d Hd; simpl in *; [done|].
  destruct (decide (s = t)) as [->|Hne].
  - rewrite (length_join_const (size_of tgt)).
    + by rewrite length_fmap, chunks_count.
    + apply Forall_fmap, (Forall_impl _ _ _ (chunks_length _ _ _ Hd)).
      intros c Hlen. simpl. by apply IH.
  - destruct Hst as [?| ->]; [done|].
    rewrite (length_join_const (size_of tgt)).
    + by rewrite length_replicate.
    + apply Forall_replicate. apply IH. lia.
Qed.

Lemma expand_data_fmap {A B} (f : A → B) (src tgt : list nat) (d : list A) :
  expand_data src tgt (f <$> d) = f <$> expand_data src tgt d.
Proof.
  revert tgt d. induction src as [|s src IH]; intros [|t tgt] d; simpl; try done.
  destruct (decide (s = t)) as [->|Hne].
  - generalize (size_of src). intros k. revert d.
    induction t as [|t IHt]; intros d; simpl; [done|].
    rewrite fmap_app, <- IHt, <- IH, fmap_take, fmap_drop. done.
  - rewrite IH. clear Hne. induction t as [|t IHt]; simpl; [done|].
    by rewrite fmap_app, IHt.
Qed.

Lemma size_of_pad (n : nat) (sh : list nat) : size_of (pad_shape n sh) = size_of sh.
Proof.
  unfold pad_shape, size_of.
  induction (n - length sh) as [|k IH]; simpl; [done|]. rewrite IH. lia.
Qed.

Lemma broadcast_rev_compat (ra rb rs : list nat) :
  broadcast_rev ra rb = Some rs →
  compat (ra ++ replicate (length rs - length ra) 1) rs
  ∧ compat (rb ++ replicate (length rs - length rb) 1) rs.
Proof.
  revert rb rs. induction ra as [|a ra IH]; intros rb rs H.
  - destruct rb; simplify_eq/=.
    + split; constructor.
    + rewrite Nat.sub_diag. simpl. rewrite app_nil_r. split.
      * constructor; [by right|]. clear. induction rb; constructor; auto.
      * constructor; [by left|]. clear. induction rb; constructor; auto.
  - destruct rb as [|b rb]; simplify_eq/=.
    + rewrite Nat.sub_diag. simpl. rewrite app_nil_r. split.
      * constructor; [by left|]. clear. induction ra; constructor; auto.
      * constructor; [by right|]. clear. induction ra; constructor; auto.
    + repeat case_decide; simplify_eq;
        destruct (broadcast_rev ra rb) as [rs'|] eqn:E; simplify_eq/=;
        destruct (IH _ _ E) as [Hca Hcb];
        split; constructor; auto.
Qed.

Lemma compat_reverse (src tgt : list nat) :
  compat src tgt → compat (reverse src) (reverse tgt).
Proof.
  induction 1 as [|s t src tgt Hst _ IH]; [constructor|].
  rewrite !reverse_cons. apply Forall2_app; [done|]. constructor; [done|constructor].
Qed.

Lemma broadcast_shapes_compat (a b sh : list nat) :
  broadcast_shapes a b = Some sh →
  compat (pad_shape (length sh) a) sh ∧ compat (pad_shape (length sh) b) sh.
Proof.
  unfold broadcast_shapes, pad_shape. intros H.
  destruct (broadcast_rev (reverse a) (reverse b)) as [rs|] eqn:E; simplify_eq/=.
  destruct (broadcast_rev_compat _ _ _ E) as [H1 H2].
  apply compat_reverse in H1, H2.
  rewrite reverse_app, reverse_replicate, reverse_involutive, length_reverse in H1, H2.
  by rewrite length_reverse.
Qed.

Lemma broadcast_rev_absorb (ra rb rs : list nat) :
  broadcast_rev ra rb = Some rs →
  broadcast_rev ra rs = Some rs ∧ broadcast_rev rs rb = Some rs.
Proof.
  revert rb rs. induction ra as [|a ra IH]; intros rb rs H.
  - destruct rb; simplify_eq/=; [done|]. split; [done|].
    by rewrite decide_True, broadcast_rev_same.
  - destruct rb as [|b rb]; simplify_eq/=.
    + by rewrite decide_True, broadcast_rev_same.
    + repeat case_decide; simplify_eq;
        destruct (broadcast_rev ra rb) as [rs'|] eqn:E; simplify_eq/=;
        destruct (IH _ _ E) as [Hca Hcb];
        repeat (case_decide; simplify_eq/=); try done;
        by rewrite ?Hca, ?Hcb.
Qed.

Lemma broadcast_shapes_absorb (a b sh : list nat) :
  broadcast_shapes a b = Some sh →
  broadcast_shapes a sh = Some sh ∧ broadcast_shapes sh b = Some sh.
Proof.
  unfold broadcast_shapes. intros H.
  destruct (broadcast_rev (reverse a) (reverse b)) as [rs|] eqn:E; simplify_eq/=.
  destruct (broadcast_rev_absorb _ _ _ E) as [H1 H2].
  by rewrite !reverse_involutive, H1, H2.
Qed.

(** The result of a broadcast operation has as many elements as its shape. *)
Lemma broadcast2_wf {A B C} (f : A → B → C) a b r :
  wf_array a → wf_array b → broadcast2 f a b = Ok r → wf_array r.
Proof.
  unfold broadcast2, wf_array. intros Ha Hb H.
  destruct (broadcast_shapes (shape a) (shape b)) as [sh|] eqn:E; simplify_eq/=.
  destruct (broadcast_shapes_compat _ _ _ E) as [H1 H2].
  rewrite length_zip_with, !expand_data_length; rewrite ?size_of_pad; try done; lia.
Qed.

(** ** Cytoplasm derivation *)

Lemma cyto_zip (N C : list Z) :
  zip_with (λ z (t : bool), (z * Z.b2z t)%Z) C
    (zip_with andb ((λ z, negb (z =? 0)%Z) <$> C)
       (negb <$> zip_with andb ((λ z, negb (z =? 0)%Z) <$> C)
                   ((λ z, negb (z =? 0)%Z) <$> N)))
  = zip_with cyto_pixel N C.
Proof.
  revert N. induction C as [|cv C IH]; intros [|nv N]; simpl; try done.
  rewrite IH. f_equal. unfold cyto_pixel.
  destruct (Z.eqb_spec cv 0), (Z.eqb_spec nv 0); case_decide; simpl; lia.
Qed.

(** [_get_cyto] in closed form: both masks are broadcast to the common
    shape and combined pixel by pixel. *)
Lemma get_cyto_closed (n c : iarray) :
  wf_array (arr n) → wf_array (arr c) →
  _get_cyto n c =
    match broadcast_shapes (ishape c) (ishape n) with
    | None => Raise ValueError
    | Some sh =>
        Ok (IArray (dtype c) (NDArray sh
              (zip_with cyto_pixel
                 (expand_data (pad_shape (length sh) (ishape n)) sh (idata n))
                 (expand_data (pad_shape (length sh) (ishape c)) sh (idata c)))))
    end.
Proof.
  intros Hn Hc. unfold _get_cyto, mul_bool, ishape, idata.
  unfold broadcast2 at 3. simpl.
  destruct (broadcast_shapes (shape (arr c)) (shape (arr n))) as [sh|] eqn:E;
    simpl; [|done].
  destruct (broadcast_shapes_compat _ _ _ E) as [Hcc Hcn].
  destruct (broadcast_shapes_absorb _ _ _ E) as [Hab _].
  assert (Hlen : ∀ {A B} (f : Z → A) (g : Z → B) (h : A → B → bool),
    length (zip_with h
      (expand_data (pad_shape (length sh) (shape (arr c))) sh (f <$> data (arr c)))
      (expand_data (pad_shape (length sh) (shape (arr n))) sh (g <$> data (arr n))))
    = size_of sh).
  { intros. rewrite length_zip_with, !expand_data_length;
      rewrite ?size_of_pad, ?length_fmap; try done; lia. }
  unfold broadcast2; simpl. rewrite Hab; simpl.
  rewrite pad_shape_same.
  rewrite (expand_data_same sh) by (by rewrite length_fmap, Hlen).
  rewrite Hab; simpl. rewrite pad_shape_same.
  rewrite (expand_data_same sh).
  2:{ rewrite length_zip_with, length_fmap, Hlen, expand_data_length;
        rewrite ?size_of_pad, ?length_fmap; try done; lia. }
  rewrite !expand_data_fmap, cyto_zip. done.
Qed.

Lemma cyto_pixel_idem (N C : list Z) :
  zip_with cyto_pixel N (zip_with cyto_pixel N C) = zip_with cyto_pixel N C.
Proof.
  revert C. induction N as [|nv N IH]; intros [|cv C]; simpl; try done.
  rewrite IH. f_equal. unfold cyto_pixel. repeat case_decide; lia.
Qed.

(** On masks of one shape [_get_cyto] succeeds and works pixel by pixel. *)
Lemma get_cyto_same_shape (n c : iarray) :
  wf_array (arr n) → wf_array (arr c) → ishape n = ishape c →
  _get_cyto n c
  = Ok (IArray (dtype c)
          (NDArray (ishape c) (zip_with cyto_pixel (idata n) (idata c)))).
Proof.
  intros Hn Hc Hs. rewrite get_cyto_closed by done.
  rewrite Hs, broadcast_shapes_same, pad_shape_same.
  unfold ishape, idata, wf_array in *.
  by rewrite !expand_data_same by congruence.
Qed.

(** C4: on masks of one shape the cytoplasm mask is, pixel by pixel, the
    cell label where the cell mask is non-zero and the nucleus mask is zero,
    and 0 elsewhere; the call succeeds, and the result is all zero when no
    cell pixel lies outside the nuclei. *)
Theorem get_cyto_pixelwise (n c : iarray) :
  wf_array (arr n) → wf_array (arr c) → ishape n = ishape c →
  ∃ r, _get_cyto n c = Ok r
    ∧ ishape r = ishape c ∧ dtype r = dtype c
    ∧ length (idata r) = length (idata c)
    ∧ (∀ i nv cv, idata n !! i = Some nv → idata c !! i = Some cv →
         idata r !! i = Some (if decide (cv ≠ 0 ∧ nv = 0)%Z then cv else 0%Z))
    ∧ ((∀ i nv cv, idata n !! i = Some nv → idata c !! i = Some cv →
          cv = 0%Z ∨ nv ≠ 0%Z) →
       idata r = replicate (length (idata c)) 0%Z).
Proof.
  intros Hn Hc Hs. rewrite get_cyto_same_shape by done.
  unfold ishape, idata, wf_array in *.
  assert (Hl : length (data (arr n)) = length (data (arr c))) by congruence.
  eexists; split; [done|]. simpl.
  split_and!; try done.
  - rewrite length_zip_with. lia.
  - intros i nv cv Hi Hj. rewrite lookup_zip_with, Hi, Hj. done.
  - intros Hz. apply list_eq. intros i.
    rewrite lookup_zip_with.
    destruct (data (arr n) !! i) as [nv|] eqn:Hi; simpl.
    + destruct (data (arr c) !! i) as [cv|] eqn:Hj; simpl.
      * symmetry. apply lookup_replicate. split; [|by eapply lookup_lt_Some].
        unfold cyto_pixel. case_decide; [|done].
        destruct (Hz _ _ _ Hi Hj); lia.
      * symmetry. apply lookup_ge_None. rewrite length_replicate.
        by apply lookup_ge_None.
    + symmetry. apply lookup_ge_None. rewrite length_replicate, <- Hl.
      by apply lookup_ge_None.
Qed.

(** C5: deriving the cytoplasm again, with the first cytoplasm mask in the
    place of the cell mask, returns the first cytoplasm mask. *)
Theorem get_cyto_idempotent (n c r : iarray) :
  wf_array (arr n) → wf_array (arr c) →
  _get_cyto n c = Ok r → _get_cyto n r = Ok r.
Proof.
  intros Hn Hc H. rewrite get_cyto_closed in H by done.
  destruct (broadcast_shapes (ishape c) (ishape n)) as [sh|] eqn:E; [|done].
  destruct (broadcast_shapes_compat _ _ _ E) as [Hcc Hcn].
  destruct (broadcast_shapes_absorb _ _ _ E) as [_ Hab].
  set (d := zip_with cyto_pixel
              (expand_data (pad_shape (length sh) (ishape n)) sh (idata n))
              (expand_data (pad_shape (length sh) (ishape c)) sh (idata c))) in H.
  assert (Hd : length d = size_of sh).
  { unfold d. rewrite length_zip_with, !expand_data_length;
      rewrite ?size_of_pad; try done; lia. }
  injection H as <-.
  rewrite get_cyto_closed by done.
  change (ishape (IArray (dtype c) (NDArray sh d))) with sh.
  change (idata (IArray (dtype c) (NDArray sh d))) with d.
  rewrite Hab, pad_shape_same, (expand_data_same sh) by done.
  unfold d. by rewrite cyto_pixel_idem.
Qed.

(** ** Compaction of label masks *)

Lemma foldl_max_spec (x : Z) (l : list Z) :
  foldl Z.max x l ∈ x :: l ∧ Forall (λ z, (z ≤ foldl Z.max x l)%Z) (x :: l).
Proof.
  revert x. induction l as [|y l IH]; intros x; simpl.
  - split; [set_solver|]. repeat constructor. lia.
  - destruct (IH (Z.max x y)) as [Hin Hle]. split.
    + apply elem_of_cons in Hin as [Hin|Hin]; [|set_solver].
      rewrite Hin. destruct (Z.max_spec x y) as [[_ ->]|[_ ->]]; set_solver.
    + inversion Hle as [|? ? Hxy Hl]; subst.
      repeat constructor; [lia|lia|done].
Qed.

Lemma np_max_spec (mask : iarray) (m : Z) :
  np_max mask = Ok m →
  m ∈ idata mask ∧ Forall (λ z, (z ≤ m)%Z) (idata mask).
Proof.
  unfold np_max. destruct (idata mask) as [|x l]; [done|].
  intros [= <-]. apply foldl_max_spec.
Qed.

Lemma wrap_small (dt : int_dtype) (z : Z) :
  is_signed dt = false → (0 ≤ z < 2 ^ bits dt)%Z → wrap dt z = z.
Proof. intros Hs Hz. unfold wrap. rewrite Hs. by apply Z.mod_small. Qed.

(** C3: compaction keeps the shape and every pixel value, and the element
    type of the result is decided by the maximum [m] of the mask alone:
    [uint8] below 2^8, [uint16] from 2^8 below 2^16, and the mask is
    returned as it is from 2^16 on. *)
Theorem compact_mask_spec (mask : iarray) :
  idata mask ≠ [] → Forall (λ z, (0 ≤ z)%Z) (idata mask) →
  ∃ m r, np_max mask = Ok m
    ∧ m ∈ idata mask ∧ Forall (λ z, (z ≤ m)%Z) (idata mask)
    ∧ _compact_mask mask = Ok r
    ∧ ishape r = ishape mask ∧ idata r = idata mask
    ∧ ((m < 256)%Z → dtype r = uint8)
    ∧ ((256 ≤ m < 65536)%Z → dtype r = uint16)
    ∧ ((65536 ≤ m)%Z → r = mask).
Proof.
  intros Hne Hpos.
  destruct (np_max mask) as [m|] eqn:Hm.
  2:{ unfold np_max in Hm. by destruct (idata mask). }
  destruct (np_max_spec _ _ Hm) as [Hin Hle].
  exists m. unfold _compact_mask. rewrite Hm. simpl.
  assert (Hkeep : ∀ dt, is_signed dt = false → (m < 2 ^ bits dt)%Z →
            idata (astype dt mask) = idata mask).
  { intros dt Hs Hlt. unfold idata, astype in *. simpl.
    rewrite <- (list_fmap_id (data (arr mask))) at 2.
    apply list_fmap_ext. intros i z Hz. apply wrap_small; [done|].
    apply list_elem_of_lookup_2 in Hz.
    rewrite Forall_forall in Hpos, Hle. specialize (Hpos _ Hz).
    specialize (Hle _ Hz). simpl in *. lia. }
  destruct (Z.ltb_spec m (2 ^ 8)) as [H8|H8].
  - exists (astype uint8 mask). split_and!; try done; try lia.
    by apply Hkeep.
  - destruct (Z.ltb_spec m (2 ^ 16)) as [H16|H16].
    + exists (astype uint16 mask). split_and!; try done; try lia.
      by apply Hkeep.
    + exists mask. split_and!; try done; lia.
Qed.

(** ** The nucleus-to-cell link *)

Section dict.
Context {K V : Type} `{EqDecision K}.
Implicit Types (d : list (K * V)) (k : K) (v : V).

Lemma dict_get_set d k v k' :
  dict_get (dict_set d k v) k' = if decide (k' = k) then Some v else dict_get d k'.
Proof.
  induction d as [|[k0 v0] d IH]; csimpl.
  - done.
  - destruct (decide (k = k0)) as [->|Hne]; csimpl.
    + repeat case_decide; congruence.
    + rewrite IH. repeat case_decide; congruence.
Qed.

Lemma dict_set_keys d k v :
  (dict_set d k v).*1 = if decide (k ∈ d.*1) then d.*1 else d.*1 ++ [k].
Proof.
  induction d as [|[k0 v0] d IH]; csimpl.
  - done.
  - destruct (decide (k = k0)) as [->|Hne]; csimpl.
    + rewrite decide_True by set_solver. done.
    + rewrite IH. destruct (decide (k ∈ d.*1)).
      * rewrite decide_True by set_solver. done.
      * rewrite decide_False by set_solver. done.
Qed.

Lemma dict_set_NoDup d k v : NoDup d.*1 → NoDup (dict_set d k v).*1.
Proof.
  intros Hd. rewrite dict_set_keys. case_decide; [done|].
  apply NoDup_app. split_and!; [done|set_solver|apply NoDup_singleton].
Qed.

Lemma dict_get_None d k : dict_get d k = None ↔ k ∉ d.*1.
Proof.
  induction d as [|[k0 v0] d IH]; csimpl.
  - set_solver.
  - case_decide; [set_solver|]. rewrite IH. set_solver.
Qed.

(** After a run of assignments the value of a key is the one assigned
    last. *)
Lemma foldl_dict_set (l : list (K * V)) d k :
  dict_get (foldl (λ d kv, dict_set d kv.1 kv.2) d l) k
  = match last (filter (λ p, p.1 = k) l) with
    | Some p => Some p.2
    | None => dict_get d k
    end.
Proof.
  revert d. induction l as [|[k0 v0] l IH]; intros d; csimpl; [done|].
  rewrite IH, dict_get_set. rewrite filter_cons. simpl.
  destruct (decide (k0 = k)) as [->|Hne].
  - rewrite decide_True by done.
    destruct (filter (λ p, p.1 = k) l) as [|p l'] eqn:E; csimpl; [done|].
    rewrite last_cons. by destruct (last l').
  - rewrite decide_False by done. done.
Qed.

Lemma foldl_dict_set_NoDup (l : list (K * V)) d :
  NoDup d.*1 → NoDup (foldl (λ d kv, dict_set d kv.1 kv.2) d l).*1.
Proof.
  revert d. induction l as [|[k0 v0] l IH]; intros d Hd; csimpl; [done|].
  by apply IH, dict_set_NoDup.
Qed.
End dict.

Lemma bool_index_zip (n c : list Z) (m : list bool) :
  length n = length c → length c = length m →
  zip (filter (λ p, p.2 = true) (zip n m)).*1 (filter (λ p, p.2 = true) (zip c m)).*1
  = (λ t, (t.1.1, t.1.2)) <$> filter (λ t, t.2 = true) (zip (zip n c) m).
Proof.
  revert c m. induction n as [|x n IH]; intros [|y c] [|b m] Hn Hc;
    simplify_eq/=; [done|].
  rewrite !filter_cons. destruct b; csimpl.
  - f_equal. by apply IH.
  - by apply IH.
Qed.

Lemma overlap_filter (n c : list Z) :
  (λ t : Z * Z * bool, (t.1.1, t.1.2)) <$>
    filter (λ t, t.2 = true)
      (zip (zip n c)
         (zip_with andb ((λ z, negb (z =? 0)%Z) <$> c) ((λ z, negb (z =? 0)%Z) <$> n)))
  = filter (λ p, p.1 ≠ 0%Z ∧ p.2 ≠ 0%Z) (zip n c).
Proof.
  revert c. induction n as [|x n IH]; intros [|y c]; simpl; try done.
  rewrite !filter_cons. simpl.
  destruct (Z.eqb_spec x 0), (Z.eqb_spec y 0); simpl;
    repeat case_decide; try done; try lia; rewrite ?fmap_cons, IH; done.
Qed.

Lemma np_map_wf {A B} (f : A → B) (a : ndarray A) :
  wf_array a → wf_array (np_map f a).
Proof. unfold wf_array, np_map. simpl. by rewrite length_fmap. Qed.

(** C2 (as amended): the link holds one row per nucleus label that has an
    overlapping pixel and none for the others; the cell label of a nucleus
    is the one of its last overlapping pixel in flatten order. *)
Theorem overlay_mask_last_wins (n c : iarray) :
  wf_array (arr n) → wf_array (arr c) → ishape n = ishape c →
  ∃ items, _overlay_mask n (Some c) = Ok (overlay_frame items)
    ∧ NoDup items.*1
    ∧ (∀ label, label ∈ items.*1 ↔ label ∈ (overlap_pairs n c).*1)
    ∧ (∀ label, dict_get items label
         = snd <$> last (filter (λ p, p.1 = label) (overlap_pairs n c))).
Proof.
  intros Hn Hc Hs. unfold _overlay_mask, ishape in *.
  rewrite broadcast2_same by (by try apply np_map_wf). simpl.
  unfold wf_array in *. unfold bool_index. simpl. rewrite !decide_True by done. simpl.
  set (m := zip_with andb _ _).
  assert (Hl : length (data (arr n)) = length (data (arr c))) by congruence.
  assert (Hm : length (data (arr c)) = length m).
  { unfold m. rewrite length_zip_with, !length_fmap. lia. }
  assert (Hz := bool_index_zip _ _ _ Hl Hm).
  assert (Hlen : length (filter (λ p, p.2 = true) (zip (data (arr n)) m)).*1
               = length (filter (λ p, p.2 = true) (zip (data (arr c)) m)).*1).
  { clear Hz. revert Hl Hm. generalize (data (arr n)) (data (arr c)) m. clear.
    induction l as [|x l IH]; intros [|y l'] [|b m] ? ?; simplify_eq/=; [done|].
    rewrite !filter_cons. destruct b; csimpl; auto. }
  rewrite decide_True by done.
  eexists. split; [done|]. unfold overlay_all. rewrite Hz.
  unfold m. rewrite overlap_filter. fold (overlap_pairs n c).
  assert (Hget : ∀ label,
    dict_get (foldl (λ d kv, dict_set d kv.1 kv.2) [] (overlap_pairs n c)) label
    = snd <$> last (filter (λ p, p.1 = label) (overlap_pairs n c))).
  { intros label. rewrite foldl_dict_set. simpl.
    by destruct (last _). }
  split_and!; [by apply foldl_dict_set_NoDup, NoDup_nil| |done].
  intros label. set (d := foldl _ _ _) in *. split.
  - intros Hin. destruct (dict_get d label) as [v|] eqn:Hg.
    + rewrite Hget in Hg.
      destruct (last (filter (λ p, p.1 = label) (overlap_pairs n c)))
        as [[k v']|] eqn:El; simplify_eq/=.
      apply last_Some_elem_of, list_elem_of_filter in El as [Hk El].
      simpl in Hk; subst k. apply list_elem_of_fmap. by exists (label, v).
    + by apply dict_get_None in Hg.
  - intros Hin. destruct (decide (label ∈ d.*1)) as [|Hno]; [done|].
    apply dict_get_None in Hno. rewrite Hget in Hno.
    apply list_elem_of_fmap in Hin as ([k v] & -> & Hp).
    assert (Hf : (k, v) ∈ filter (λ p, p.1 = k) (overlap_pairs n c)).
    { apply list_elem_of_filter. done. }
    simpl in Hno.
    destruct (filter (λ p, p.1 = k) (overlap_pairs n c)) as [|p l] eqn:E.
    + by apply elem_of_nil in Hf.
    + rewrite last_cons in Hno. by destruct (last l).
Qed.

(** C2 as stated fails: the first overlapping pixel of nucleus 1 lies in
    cell 2, and the link gives cell 3. *)
Lemma overlay_mask_first_pixel_loses :
  _overlay_mask nucleus_1x2 (Some cells_1x2) = Ok (overlay_frame [(1, 3)%Z])
  ∧ head (filter (λ p, p.1 = 1%Z) (overlap_pairs nucleus_1x2 cells_1x2))
    = Some (1, 2)%Z
  ∧ dict_get [(1, 3)%Z] 1%Z ≠ Some 2%Z.
Proof. split_and!; [vm_compute; reflexivity..|discriminate]. Qed.

Lemma overlay_mask_last_wins_witness :
  ∃ items, _overlay_mask nucleus_1x2 (Some cells_1x2) = Ok (overlay_frame items)
    ∧ NoDup items.*1
    ∧ (∀ label, label ∈ items.*1 ↔ label ∈ (overlap_pairs nucleus_1x2 cells_1x2).*1)
    ∧ (∀ label, dict_get items label
         = snd <$> last (filter (λ p, p.1 = label)
                           (overlap_pairs nucleus_1x2 cells_1x2))).
Proof. apply (overlay_mask_last_wins nucleus_1x2 cells_1x2); reflexivity. Defined.

Lemma get_cyto_pixelwise_witness :
  ∃ r, _get_cyto nucleus_2x2 cells_2x2 = Ok r
    ∧ ishape r = ishape cells_2x2 ∧ dtype r = dtype cells_2x2
    ∧ length (idata r) = length (idata cells_2x2)
    ∧ (∀ i nv cv, idata nucleus_2x2 !! i = Some nv → idata cells_2x2 !! i = Some cv →
         idata r !! i = Some (if decide (cv ≠ 0 ∧ nv = 0)%Z then cv else 0%Z))
    ∧ ((∀ i nv cv, idata nucleus_2x2 !! i = Some nv → idata cells_2x2 !! i = Some cv →
          cv = 0%Z ∨ nv ≠ 0%Z) →
       idata r = replicate (length (idata cells_2x2)) 0%Z).
Proof. apply (get_cyto_pixelwise nucleus_2x2 cells_2x2); reflexivity. Defined.

Lemma get_cyto_idempotent_witness :
  let r := IArray uint8 (NDArray [2; 2] [0; 7; 0; 9]%Z) in
  _get_cyto nucleus_2x2 r = Ok r.
Proof.
  apply (get_cyto_idempotent nucleus_2x2 cells_2x2); reflexivity.
Defined.

Lemma compact_mask_spec_witness :
  ∃ m r, np_max labels_u32 = Ok m
    ∧ m ∈ idata labels_u32 ∧ Forall (λ z, (z ≤ m)%Z) (idata labels_u32)
    ∧ _compact_mask labels_u32 = Ok r
    ∧ ishape r = ishape labels_u32 ∧ idata r = idata labels_u32
    ∧ ((m < 256)%Z → dtype r = uint8)
    ∧ ((256 ≤ m < 65536)%Z → dtype r = uint16)
    ∧ ((65536 ≤ m)%Z → r = labels_u32).
Proof.
  apply (compact_mask_spec labels_u32); [discriminate|].
  repeat constructor; vm_compute; discriminate.
Defined.

(** The compaction of [labels_u32]: the same labels in 16 bits. *)
Lemma compact_mask_labels_u32 :
  _compact_mask labels_u32 = Ok (IArray uint16 (NDArray [2; 2] [300; 0; 5; 7]%Z)).
Proof. vm_compute. reflexivity. Qed.

(** ** Flatfield correction *)

Lemma squeeze_axis1_Ok {A} (a r : ndarray A) :
  squeeze_axis1 a = Ok r ↔
  shape a !! 1 = Some 1 ∧ r = NDArray (delete 1 (shape a)) (data a).
Proof.
  unfold squeeze_axis1.
  destruct (shape a) as [|s0 [|[|[|s1]] rest]]; simpl; naive_solver.
Qed.

Lemma squeeze_axis1_Raise {A} (a : ndarray A) e :
  squeeze_axis1 a = Raise e → e = ValueError.
Proof.
  unfold squeeze_axis1.
  destruct (shape a) as [|s0 [|[|[|s1]] rest]]; simpl; naive_solver.
Qed.

(** C8 (as amended): the corrected channel is the quotient of the plane by
    the field, element by element after numpy's broadcasting, with the z
    axis removed.  The call fails, always with [ValueError], exactly when
    the two shapes do not broadcast or the z axis of the quotient is not of
    length 1; for a field of the shape of the plane the quotient is taken
    between the elements at the same position. *)
Theorem flatfield_divide_spec (plane field : ndarray float) :
  wf_array plane → wf_array field →
  (∀ r, flatfield_divide plane field = Ok r ↔
     ∃ sh, broadcast_shapes (shape plane) (shape field) = Some sh
       ∧ sh !! 1 = Some 1
       ∧ r = NDArray (delete 1 sh)
               (zip_with PrimFloat.div
                  (expand_data (pad_shape (length sh) (shape plane)) sh (data plane))
                  (expand_data (pad_shape (length sh) (shape field)) sh (data field))))
  ∧ (∀ e, flatfield_divide plane field = Raise e → e = ValueError)
  ∧ (shape plane = shape field → shape plane !! 1 = Some 1 →
     flatfield_divide plane field
     = Ok (NDArray (delete 1 (shape plane))
             (zip_with PrimFloat.div (data plane) (data field)))).
Proof.
  intros Hp Hf. unfold flatfield_divide. split_and!.
  - intros r. unfold broadcast2.
    destruct (broadcast_shapes (shape plane) (shape field)) as [sh|]; simpl.
    + rewrite squeeze_axis1_Ok. simpl. naive_solver.
    + naive_solver.
  - intros e. unfold broadcast2.
    destruct (broadcast_shapes (shape plane) (shape field)) as [sh|]; simpl.
    + apply squeeze_axis1_Raise.
    + congruence.
  - intros Hs H1. rewrite broadcast2_same by done. simpl.
    set (q := NDArray _ _). by apply (squeeze_axis1_Ok q).
Qed.

(** [_get_img_dict] applies that correction to every channel: the entry
    of a channel is the quotient of its plane by its field. *)
Lemma get_img_dict_spec (array : ndarray float) (channels : list (string * Z))
    (ffd : list (string * ndarray float)) (d : list (string * ndarray float)) :
  NoDup channels.*1 → _get_img_dict array channels ffd = Ok d →
  ∀ ch idx, (ch, idx) ∈ channels →
    ∃ plane field img,
      take_last idx array = Ok plane ∧ dict_lookup ffd ch = Ok field
      ∧ flatfield_divide plane field = Ok img ∧ dict_get d ch = Some img.
Proof.
  unfold _get_img_dict. revert d.
  induction channels as [|[ch0 idx0] channels IH] using rev_ind;
    intros d Hnd Hd ch idx Hin; [by apply elem_of_nil in Hin|].
  rewrite foldl_app in Hd. simpl in Hd.
  rewrite fmap_app in Hnd. apply NoDup_app in Hnd as (Hnd & Hfresh & _).
  destruct (foldl _ (Ok []) channels) as [d0|] eqn:Hd0; [|done]. simpl in Hd.
  destruct (take_last idx0 array) as [plane0|] eqn:Hp; [|done]. simpl in Hd.
  destruct (dict_lookup ffd ch0) as [field0|] eqn:Hf; [|done]. simpl in Hd.
  destruct (flatfield_divide plane0 field0) as [img0|] eqn:Hi; [|done].
  simpl in Hd. injection Hd as <-.
  apply elem_of_app in Hin as [Hin|Hin].
  - destruct (IH d0 Hnd eq_refl ch idx Hin) as (plane & field & img & ? & ? & ? & Hg).
    exists plane, field, img. split_and!; [done..|].
    rewrite dict_get_set, decide_False; [done|].
    intros ->. apply (Hfresh ch0); [|set_solver].
    apply list_elem_of_fmap. by exists (ch0, idx).
  - apply list_elem_of_singleton in Hin. simplify_eq.
    exists plane0, field0, img0. split_and!; [done..|].
    by rewrite dict_get_set, decide_True.
Qed.

(** C8 as stated fails: a field whose shape differs from the shape of the
    image is accepted, and divided into every plane. *)
Lemma flatfield_divide_other_shape :
  shape field_2x2 ≠ shape plane_1x1x2x2
  ∧ flatfield_divide plane_1x1x2x2 field_2x2
    = Ok (NDArray [1; 2; 2] [1; 2; 1.5; 2]%float).
Proof. split; [discriminate|]. vm_compute. reflexivity. Qed.

Lemma flatfield_divide_spec_witness :
  flatfield_divide plane_1x1x2x2 field_1x1x2x2
  = Ok (NDArray (delete 1 (shape plane_1x1x2x2))
          (zip_with PrimFloat.div (data plane_1x1x2x2) (data field_1x1x2x2))).
Proof.
  apply (flatfield_divide_spec plane_1x1x2x2 field_1x1x2x2); reflexivity.
Defined.

(** ** Flood fill and objects *)

Section flood.
Context (labels : ndarray Z).
Let n := length (data labels).
Let U : gset nat := list_to_set (seq 0 n).

Lemma linked_lt i j : linked labels i j = true → i < n ∧ j < n.
Proof.
  unfold linked.
  destruct (data labels !! i) eqn:Hi; [|done].
  destruct (data labels !! j) eqn:Hj; [|done].
  intros _. split; by eapply lookup_lt_Some.
Qed.

Lemma elem_of_grow X j :
  j ∈ grow labels X ↔ j ∈ X ∨ ∃ i, i ∈ X ∧ linked labels i j = true.
Proof.
  unfold grow. rewrite elem_of_union, elem_of_list_to_set, list_elem_of_filter.
  rewrite elem_of_seq, List.existsb_exists.
  split; (intros [?|H]; [by left|right]).
  - destruct H as [(i & Hi & ?) _]. exists i. split; [|done].
    by apply elem_of_elements, list_elem_of_In.
  - destruct H as (i & Hi & Hl). split.
    + exists i. split; [|done]. by apply list_elem_of_In, elem_of_elements.
    + apply linked_lt in Hl. lia.
Qed.

Lemma grow_subseteq X : X ⊆ grow labels X.
Proof. intros j ?. apply elem_of_grow. by left. Qed.

Lemma grow_bounded X : X ⊆ U → grow labels X ⊆ U.
Proof.
  intros HX j [?|(i & _ & Hl)]%elem_of_grow; [by apply HX|].
  apply elem_of_list_to_set, elem_of_seq. apply linked_lt in Hl. lia.
Qed.

Lemma grow_fixed X : grow labels X = X → closed labels X.
Proof. intros HX i j Hi Hl. rewrite <- HX. apply elem_of_grow. eauto. Qed.

Lemma flood_subseteq fuel X : X ⊆ flood fuel labels X.
Proof.
  revert X. induction fuel as [|fuel IH]; intros X; simpl; [done|].
  case_decide; [done|]. etrans; [apply grow_subseteq|apply IH].
Qed.

(** With as much fuel as there are pixels outside [X] the flood fill
    reaches its fixed point. *)
Lemma flood_closed fuel X :
  X ⊆ U → size U ≤ fuel + size X → closed labels (flood fuel labels X).
Proof.
  revert X. induction fuel as [|fuel IH]; intros X HX Hsz; simpl.
  - assert (X = U) as ->.
    { apply set_subseteq_size_eq; [done|lia]. }
    intros i j _ Hl. apply elem_of_list_to_set, elem_of_seq.
    apply linked_lt in Hl. lia.
  - case_decide as Hfix; [by apply grow_fixed|].
    apply IH; [by apply grow_bounded|].
    assert (X ⊂ grow labels X) as Hlt%subset_size; [|lia].
    split; [apply grow_subseteq|]. intros Hsub. apply Hfix.
    apply set_eq. intros j. split; [apply Hsub|apply grow_subseteq].
Qed.

Lemma closed_connected X i j :
  closed labels X → i ∈ X → connected labels i j → j ∈ X.
Proof. intros HX Hi Hc. induction Hc as [|i k j Hl _ IH]; eauto. Qed.

(** Every pixel connected to a non-background pixel of the border region
    belongs to [border_objects]. *)
Lemma border_objects_complete ext q p :
  in_border ext (shape labels) q = true → is_object labels q = true →
  connected labels q p → p ∈ border_objects labels ext.
Proof.
  intros Hb Ho Hc. unfold border_objects. fold n.
  set (seeds := list_to_set _ : gset nat).
  assert (Hsub : seeds ⊆ U).
  { intros i [_ ?]%elem_of_list_to_set%list_elem_of_filter.
    by apply elem_of_list_to_set. }
  eapply closed_connected; [|apply flood_subseteq|done].
  - apply flood_closed; [done|].
    unfold U. rewrite size_list_to_set, length_seq by apply NoDup_seq. lia.
  - apply elem_of_list_to_set, list_elem_of_filter. split.
    + by rewrite Hb, Ho.
    + apply elem_of_seq. unfold is_object in Ho.
      destruct (data labels !! q) eqn:Hq; [|done].
      apply lookup_lt_Some in Hq. fold n in Hq. lia.
Qed.
End flood.

(** ** Post-filtering of a segmentation *)

Lemma mapM_result_fmap {A B} (f : A → result B) (g : A → B) (l : list A) :
  Forall (λ x, f x = Ok (g x)) l → mapM f l = Ok (g <$> l).
Proof.
  induction 1 as [|x l Hx _ IH]; simpl; [done|].
  rewrite Hx. simpl. rewrite IH. done.
Qed.

Lemma fancy_index_Ok {A} (table : list A) (idx : ndarray Z) (g : Z → A) :
  Forall (λ z, (0 ≤ z)%Z ∧ table !! Z.to_nat z = Some (g z)) (data idx) →
  fancy_index table idx = Ok (NDArray (shape idx) (g <$> data idx)).
Proof.
  intros H. unfold fancy_index. erewrite mapM_result_fmap; [done|].
  eapply Forall_impl; [exact H|]. intros z [Hz Hg]. simpl.
  rewrite decide_True by done. by rewrite Hg.
Qed.

Lemma existsb_false {A} (f : A → bool) (l : list A) :
  Forall (λ x, f x = false) l → List.existsb f l = false.
Proof. induction 1 as [|x l Hx _ IH]; simpl; [done|]. by rewrite Hx, IH. Qed.

Lemma bincount_Ok (x : list Z) :
  x ≠ [] → Forall (λ z, (0 ≤ z)%Z) x →
  ∃ M, bincount x = Ok ((λ v, area x (Z.of_nat v)) <$> seq 0 (S M))
     ∧ Forall (λ z, Z.to_nat z ≤ M) x.
Proof.
  intros Hne Hpos. unfold bincount.
  rewrite existsb_false.
  2:{ eapply Forall_impl; [exact Hpos|]. intros z Hz. simpl.
      by apply Z.ltb_ge. }
  destruct x as [|z x']; [done|].
  exists (Z.to_nat (foldl Z.max z x')). split; [done|].
  destruct (foldl_max_spec z x') as [_ Hle].
  eapply Forall_impl; [exact Hle|]. intros y Hy. simpl in Hy. lia.
Qed.

Lemma size_of_pos (sh : list nat) : Forall (λ s, 5 < s) sh → 0 < size_of sh.
Proof.
  unfold size_of. induction 1 as [|s sh Hs _ IH]; simpl; [lia|nia].
Qed.

(** [filter_segmentation] in closed form: it succeeds on a mask of one to
    three axes that are longer than the buffer, and multiplies every pixel
    by the verdict on the value [clear_border] left there. *)
Lemma filter_segmentation_closed (mask : iarray) :
  wf_array (arr mask) → 1 ≤ length (ishape mask) ≤ 3 →
  Forall (λ s, 5 < s) (ishape mask) →
  Forall (λ z, (0 ≤ z)%Z) (idata mask) →
  filter_segmentation mask
  = Ok (IArray (dtype mask)
          (NDArray (ishape mask)
             (zip_with (λ z (t : bool), (z * Z.b2z t)%Z) (idata mask)
                (kept mask <$> cleared_data mask)))).
Proof.
  intros Hwf Hnd Hsh Hpos. unfold filter_segmentation, clear_border.
  rewrite existsb_false.
  2:{ eapply Forall_impl; [exact Hsh|]. intros s Hs. simpl.
      by apply Nat.leb_gt. }
  rewrite (proj2 (Nat.leb_le 1 _)), (proj2 (Nat.leb_le _ 3)) by lia.
  simpl. fold (cleared_data mask). unfold idata at 1. simpl.
  assert (Hlen : length (cleared_data mask) = length (idata mask)).
  { unfold cleared_data. by rewrite length_imap. }
  assert (Hcpos : Forall (λ z, (0 ≤ z)%Z) (cleared_data mask)).
  { apply Forall_lookup. intros i z Hz. unfold cleared_data in Hz.
    rewrite list_lookup_imap in Hz.
    destruct (idata mask !! i) as [v|] eqn:Hv; simplify_eq/=.
    case_decide; [done|]. eapply (proj1 (Forall_lookup _ _)); eauto. }
  destruct (bincount_Ok (cleared_data mask)) as (M & -> & HM); [|done|].
  { intros Hnil. rewrite Hnil in Hlen. simpl in Hlen.
    unfold wf_array, idata, ishape in *. pose proof (size_of_pos _ Hsh). lia. }
  simpl.
  rewrite (fancy_index_Ok _
             (NDArray (ishape mask) (cleared_data mask)) (kept mask)).
  2:{ simpl. apply Forall_lookup. intros i z Hz. split.
      { eapply (proj1 (Forall_lookup _ _) Hcpos); eauto. }
      assert (Z.to_nat z ≤ M) as Hle
        by (eapply (proj1 (Forall_lookup _ _) HM); eauto).
      assert (0 ≤ z)%Z as Hz0
        by (eapply (proj1 (Forall_lookup _ _) Hcpos); eauto).
      unfold kept. destruct (Z.to_nat z) as [|k] eqn:Hk; simpl.
      - assert (z = 0%Z) as -> by lia. done.
      - rewrite list_lookup_fmap, list_lookup_fmap.
        rewrite (proj2 (lookup_seq 1 M k (S k))) by lia. simpl.
        destruct (Z.eqb_spec z 0); [lia|]. simpl.
        do 3 f_equal. lia. }
  simpl. unfold mul_bool.
  rewrite broadcast2_same; [done|done| |done].
  unfold wf_array in *. simpl. rewrite length_fmap, Hlen. done.
Qed.

Lemma idata_mk dt sh d : idata (IArray dt (NDArray sh d)) = d.
Proof. done. Qed.

Lemma area_le (l l' : list Z) (label : Z) :
  Forall2 (λ v c, c = v ∨ c = 0%Z) l l' → label ≠ 0%Z →
  area l' label ≤ area l label.
Proof.
  unfold area. induction 1 as [|v c l l' Hvc _ IH]; intros Hl; [done|].
  rewrite !filter_cons. specialize (IH Hl).
  destruct Hvc as [->| ->]; repeat case_decide; simpl; lia.
Qed.

Lemma cleared_data_Forall2 (mask : iarray) :
  Forall2 (λ v c, c = v ∨ c = 0%Z) (idata mask) (cleared_data mask).
Proof.
  apply Forall2_same_length_lookup_2.
  - unfold cleared_data. by rewrite length_imap.
  - intros i v c Hv Hc. unfold cleared_data in Hc.
    rewrite list_lookup_imap, Hv in Hc. simplify_eq/=. case_decide; auto.
Qed.

Lemma connected_lt (labels : ndarray Z) (q p : nat) :
  q < length (data labels) → connected labels q p → p < length (data labels).
Proof.
  intros Hq Hc. induction Hc as [|i k j Hl _ IH]; [done|].
  apply IH. by apply linked_lt in Hl as [_ ?].
Qed.

(** C6 (as amended): on a mask of non-negative labels with one to three
    axes, each longer than 5 pixels, filtering succeeds and keeps the
    shape; a label with at most 10 pixels does not occur in the filtered
    mask, wherever it lies; a pixel of a connected object that reaches into
    the border region (the outer 6 rows and columns, which contain the
    5-pixel margin) is cleared, whatever the size of the object; so a label
    whose pixels form one connected object reaching into the border region
    does not occur in the filtered mask. *)
Theorem filter_segmentation_removes (mask : iarray) :
  wf_array (arr mask) → 1 ≤ length (ishape mask) ≤ 3 →
  Forall (λ s, 5 < s) (ishape mask) →
  Forall (λ z, (0 ≤ z)%Z) (idata mask) →
  ∃ r, filter_segmentation mask = Ok r
    ∧ ishape r = ishape mask
    ∧ (∀ label, label ≠ 0%Z → area (idata mask) label ≤ 10 → label ∉ idata r)
    ∧ (∀ q p, in_border 6 (ishape mask) q = true →
         is_object (arr mask) q = true → connected (arr mask) q p →
         idata r !! p = Some 0%Z)
    ∧ (∀ label q, label ≠ 0%Z → idata mask !! q = Some label →
         in_border 6 (ishape mask) q = true →
         (∀ p, idata mask !! p = Some label → connected (arr mask) q p) →
         label ∉ idata r).
Proof.
  intros Hwf Hnd Hsh Hpos. rewrite filter_segmentation_closed by done.
  eexists. split; [done|]. split; [done|].
  rewrite idata_mk.
  set (rd := zip_with _ _ _).
  assert (Hrd : ∀ i x, rd !! i = Some x →
            ∃ v c, idata mask !! i = Some v ∧ cleared_data mask !! i = Some c
                 ∧ x = (v * Z.b2z (kept mask c))%Z).
  { intros i x Hx. unfold rd in Hx. apply lookup_zip_with_Some in Hx
      as (v & t & -> & Hv & Ht).
    rewrite list_lookup_fmap in Ht.
    destruct (cleared_data mask !! i) as [c|] eqn:Hc; simplify_eq/=. eauto. }
  assert (Hborder : ∀ q p, in_border 6 (ishape mask) q = true →
            is_object (arr mask) q = true → connected (arr mask) q p →
            rd !! p = Some 0%Z).
  { intros q p Hb Ho Hc.
    assert (Hp : p < length (idata mask)).
    { eapply connected_lt; [|done]. unfold is_object in Ho.
      destruct (data (arr mask) !! q) eqn:Hq; [|done].
      by eapply lookup_lt_Some. }
    apply lookup_lt_is_Some in Hp as [v Hv].
    unfold rd. rewrite lookup_zip_with, Hv. simpl.
    rewrite list_lookup_fmap. unfold cleared_data.
    rewrite list_lookup_imap, Hv. simpl.
    rewrite decide_True by (eapply border_objects_complete; eauto).
    unfold kept. simpl. f_equal. lia. }
  split_and!; [|done|].
  - intros label Hl Harea [i Hi]%list_elem_of_lookup.
    destruct (Hrd _ _ Hi) as (v & c & Hv & Hc & Hx).
    unfold kept in Hx.
    destruct (Z.eqb_spec c 0); simpl in Hx; [lia|].
    destruct (Nat.ltb_spec 10 (area (cleared_data mask) c)) as [Hgt|];
      simpl in Hx; [|lia].
    assert (c = v) as ->.
    { pose proof (cleared_data_Forall2 mask) as HF.
      destruct (Forall2_lookup_lr _ _ _ _ _ _ HF Hv Hc); [done|lia]. }
    assert (v = label) as -> by lia.
    pose proof (area_le _ _ label (cleared_data_Forall2 mask) Hl). lia.
  - intros label q Hl Hq Hb Hall [i Hi]%list_elem_of_lookup.
    destruct (Hrd _ _ Hi) as (v & c & Hv & Hc & Hx).
    assert (v = label) as ->.
    { destruct (kept mask c); simpl in Hx; lia. }
    rewrite (Hborder q i) in Hi; [congruence|done| |by apply Hall].
    unfold is_object. unfold idata in Hq. rewrite Hq.
    by destruct (Z.eqb_spec label 0).
Qed.

(** ** The segmentation operation *)

Lemma run_bind_Ok {A B} (m : run A) (f : A → run B) tr b tr' :
  (m ≫= f) tr = (Ok b, tr') →
  ∃ a tr1, m tr = (Ok a, tr1) ∧ f a tr1 = (Ok b, tr').
Proof.
  unfold mbind, run_bind. destruct (m tr) as [[a|e] tr1]; [eauto|done].
Qed.

Lemma lift_Ok {A} (r : result A) tr a tr' :
  lift r tr = (Ok a, tr') → r = Ok a ∧ tr' = tr.
Proof. unfold lift. by intros [= -> ->]. Qed.

Lemma emit_Ok ev tr u tr' : emit ev tr = (Ok u, tr') → tr' = tr ++ [ev].
Proof. unfold emit. by intros [= <-]. Qed.

Lemma mret_Ok {A} (a b : A) tr tr' :
  (mret a : run A) tr = (Ok b, tr') → a = b ∧ tr' = tr.
Proof. unfold mret, run_ret. by intros [= -> ->]. Qed.

(** Decompose a successful run into its steps. *)
Ltac run_inv H :=
  repeat match type of H with
  | (_ ≫= _) _ = (Ok _, _) =>
      let a := fresh "a" in let tr := fresh "tr" in let H1 := fresh "Hstep" in
      apply run_bind_Ok in H as (a & tr & H1 & H);
      first [ apply lift_Ok in H1 as [H1 ->]
            | apply emit_Ok in H1 as ->
            | idtac ]
  | mret _ _ = (Ok _, _) => apply mret_Ok in H as [H ->]
  | lift _ _ = (Ok _, _) => apply lift_Ok in H as [H ->]
  | (let '(_, _) := ?p in _) _ = (Ok _, _) => is_var p; destruct p
  end.

(** C10: whenever the segmentation operation returns, the cytoplasm mask
    is [None] exactly when the cell mask is, and both are [None] exactly
    when the channels have no ["Tub"] entry; this holds for stored masks
    and for freshly computed ones. *)
Theorem segmentation_cyto_iff_cell (w : world) (self : Image) tr n c cyto tr' :
  _segmentation w self tr = (Ok (n, c, cyto), tr') →
  (cyto = None ↔ c = None)
  ∧ (c = None ↔ has_key (channels self) "Tub" = false).
Proof.
  unfold _segmentation. intros H.
  apply run_bind_Ok in H as (? & tr1 & _ & H).
  destruct (list_find _ _) as [[i [name found_id]]|].
  - apply run_bind_Ok in H as (? & tr2 & _ & H).
    apply run_bind_Ok in H as (masks & tr3 & _ & H).
    destruct (has_key (channels self) "Tub"); run_inv H; by simplify_eq.
  - apply run_bind_Ok in H as (n0 & tr2 & _ & H).
    apply run_bind_Ok in H as ([[n1 c1] cy1] & tr3 & Hm & H).
    run_inv H. simplify_eq.
    destruct (has_key (channels self) "Tub").
    + apply run_bind_Ok in Hm as (c0 & tr4 & _ & Hm).
      run_inv Hm. by simplify_eq.
    + run_inv Hm. by simplify_eq.
Qed.





(** ** Model failures during segmentation *)

(** Nucleus segmentation: the failure at timepoint 0 gives an all-zero
    mask, and timepoint 1 is still evaluated. *)
Lemma n_segmentation_model_failure :
  let out := _n_segmentation world_dark image_dapi_tub [] in
  out.1 = Ok (zeros [2; 6; 6] uint32)
  ∧ length (filter (λ ev, is_model_eval ev = true) out.2) = 2.
Proof. vm_compute. done. Qed.

(** C7 fails for the cell segmentation: the same failure at timepoint 0
    ends the operation with [ValueError], after one evaluation. *)
Lemma c_segmentation_model_failure :
  let out := _c_segmentation world_dark image_dapi_tub [] in
  out.1 = Raise ValueError
  ∧ length (filter (λ ev, is_model_eval ev = true) out.2) = 1.
Proof. vm_compute. done. Qed.

Lemma zip_with_zero (n : nat) (bs : list bool) :
  n ≤ length bs →
  zip_with (λ z (t : bool), (z * Z.b2z t)%Z) (replicate n 0%Z) bs = replicate n 0%Z.
Proof.
  revert bs. induction n as [|n IH]; intros [|b bs] Hn; simpl in *;
    try done; try lia.
  rewrite IH by lia. done.
Qed.

(** Filtering leaves an all-zero mask as it is. *)
Lemma filter_segmentation_zeros (sh : list nat) (dt : int_dtype) :
  1 ≤ length sh ≤ 3 → Forall (λ s, 5 < s) sh →
  filter_segmentation (zeros sh dt) = Ok (zeros sh dt).
Proof.
  intros Hnd Hsh. rewrite filter_segmentation_closed.
  - unfold zeros, ishape, idata. simpl. rewrite zip_with_zero; [done|].
    rewrite length_fmap. unfold cleared_data, idata. simpl.
    by rewrite length_imap, length_replicate.
  - unfold wf_array, zeros. simpl. by rewrite length_replicate.
  - done.
  - done.
  - unfold zeros, idata. simpl. by apply Forall_replicate.
Qed.

Lemma broadcast_to_same {A} (a : ndarray A) :
  wf_array a → broadcast_to (shape a) a = Ok (data a).
Proof.
  intros Hwf. unfold broadcast_to. rewrite Nat.sub_diag. simpl.
  rewrite broadcast_shapes_same, decide_True by done.
  by rewrite pad_shape_same, expand_data_same.
Qed.

(** Writing zeros into a block of an all-zero array changes nothing. *)
Lemma set_item_zeros (t s : nat) (sh : list nat) (dt dt' : int_dtype) :
  t < s → set_item t (zeros sh dt') (zeros (s :: sh) dt) = Ok (zeros (s :: sh) dt).
Proof.
  intros Ht. unfold set_item. simpl. rewrite decide_True by done.
  pose proof (broadcast_to_same (NDArray sh (replicate (size_of sh) 0%Z))) as Hb.
  simpl in Hb. rewrite Hb by (unfold wf_array; simpl; by rewrite length_replicate).
  simpl. unfold zeros, idata. simpl. do 3 f_equal.
  change (foldr Nat.mul 1 sh) with (size_of sh).
  change (size_of (s :: sh)) with (s * size_of sh).
  rewrite take_replicate, drop_replicate, fmap_replicate.
  assert (wrap dt 0 = 0%Z) as -> by (by destruct dt).
  rewrite <- !replicate_add. f_equal. nia.
Qed.

(** Nucleus segmentation with a model that always raises [IndexError]: every
    timepoint is evaluated and the result is the all-zero mask. *)
Lemma n_segmentation_IndexError_zeros (w : world) (self : Image) tr
    model dapi (T Y X : nat) :
  dict_lookup (MODEL_DICT w) "nuclei" = Ok model →
  dict_lookup (img_dict self) "DAPI" = Ok dapi →
  shape dapi = [T; Y; X] → 5 < Y → 5 < X →
  (∀ img, shape (rescale w img) = shape img) →
  (∀ call, cellpose_eval w call = Raise IndexError) →
  ∃ tr', _n_segmentation w self tr = (Ok (zeros [T; Y; X] uint32), tr')
    ∧ length (filter (λ ev, is_model_eval ev = true) tr')
      = length (filter (λ ev, is_model_eval ev = true) tr) + T.
Proof.
  intros Hm Hd Hsh HY HX Hre Hev. unfold _n_segmentation.
  unfold mbind at 1, run_bind, lift. rewrite Hm.
  unfold mbind at 1, run_bind. rewrite Hd.
  unfold first_axis. rewrite Hsh.
  unfold mbind at 1, run_bind.
  set (body := λ (t : nat) (segmentation_masks : iarray), _).
  assert (Hloop : ∀ ts tr0, Forall (λ t, t < T) ts →
    ∃ tr', for_each ts body (zeros [T; Y; X] uint32) tr0
             = (Ok (zeros [T; Y; X] uint32), tr')
      ∧ length (filter (λ ev, is_model_eval ev = true) tr')
        = length (filter (λ ev, is_model_eval ev = true) tr0) + length ts).
  { induction ts as [|t ts IH]; intros tr0 Hts.
    - exists tr0. split; [done|]. simpl. lia.
    - apply Forall_cons in Hts as [Ht Hts]. simpl.
      unfold mbind at 1, run_bind.
      assert (∃ call, body t (zeros [T; Y; X] uint32) tr0
                = (Ok (zeros [T; Y; X] uint32), tr0 ++ [ModelEval call]))
        as (call & ->).
      { unfold body, mbind, run_bind, lift, emit, get_item. rewrite Hsh.
        rewrite decide_True by done. simpl.
        rewrite Hev. simpl. unfold scale_img. rewrite Hre. simpl.
        rewrite filter_segmentation_zeros;
          [|simpl; lia|repeat constructor; done].
        rewrite set_item_zeros by done. eauto. }
      destruct (IH (tr0 ++ [ModelEval call]) Hts) as (tr' & -> & Hlen).
      exists tr'. split; [done|]. rewrite Hlen, filter_app, length_app.
      simpl. lia. }
  destruct (Hloop (seq 0 T) tr) as (tr' & Hrun & Hlen).
  { apply Forall_forall. intros t Ht%elem_of_seq. lia. }
  exists tr'. rewrite length_seq in Hlen. by rewrite Hrun.
Qed.

(** The fallback mask of the cell segmentation has the shape of the
    two-channel composite, which [clear_border] rejects. *)
Lemma c_segmentation_IndexError_raises (w : world) (self : Image) tr
    model dapi tub (T Y X : nat) :
  _get_models w self = Ok model →
  dict_lookup (img_dict self) "DAPI" = Ok dapi →
  dict_lookup (img_dict self) "Tub" = Ok tub →
  shape dapi = [S T; Y; X] → shape tub = [S T; Y; X] →
  (∀ img, shape (rescale w img) = shape img) →
  (∀ call, cellpose_eval w call = Raise IndexError) →
  ∃ tr', _c_segmentation w self tr = (Raise ValueError, tr').
Proof.
  intros Hm Hd Ht Hsd Hst Hre Hev. unfold _c_segmentation.
  unfold mbind at 1, run_bind, lift. rewrite Hm.
  unfold mbind at 1, run_bind. rewrite Hd.
  unfold mbind at 1, run_bind. rewrite Ht.
  unfold first_axis. rewrite Hsd, Hst.
  unfold mbind at 1, run_bind. unfold mbind at 1, run_bind.
  rewrite decide_True by done. simpl.
  unfold mbind, run_bind, lift, emit, get_item. rewrite Hsd, Hst.
  rewrite !decide_True by lia. simpl.
  unfold dstack. simpl. rewrite decide_True by done. simpl.
  rewrite Hev. simpl. unfold scale_img. rewrite Hre. simpl.
  unfold filter_segmentation, clear_border, ishape. simpl.
  rewrite !orb_true_r. simpl. eauto.
Qed.

(** ** Outer-join reconciliation *)

Lemma key_eqb_eq (k1 k2 : list cell) :
  int_key k1 → int_key k2 → key_eqb k1 k2 = true ↔ k1 = k2.
Proof.
  intros H1. revert k2. induction H1 as [|c k1 [z ->] _ IH]; intros k2 H2.
  - destruct k2; simpl; naive_solver.
  - destruct H2 as [|c' k2 [z' ->] H2]; simpl; [naive_solver|].
    rewrite andb_true_iff, IH, Z.eqb_eq by done. naive_solver.
Qed.

Lemma key_eqb_refl (k : list cell) : int_key k → key_eqb k k = true.
Proof. intros. by apply key_eqb_eq. Qed.

Lemma insert_key_Permutation (k : list cell) (l : list (list cell)) :
  insert_key k l ≡ₚ k :: l.
Proof.
  induction l as [|k' l IH]; simpl; [done|].
  case_match; [|done]. rewrite IH. apply Permutation_swap.
Qed.

Lemma sort_keys_Permutation (l : list (list cell)) : sort_keys l ≡ₚ l.
Proof.
  unfold sort_keys. induction l as [|k l IH]; simpl; [done|].
  by rewrite insert_key_Permutation, IH.
Qed.

Lemma distinct_keys_subseteq (l : list (list cell)) k :
  k ∈ distinct_keys l → k ∈ l.
Proof.
  revert k. induction l as [|k' l IH]; intros k; simpl; [done|].
  rewrite !elem_of_cons, list_elem_of_filter. naive_solver.
Qed.

Lemma distinct_keys_elem_of (l : list (list cell)) k :
  Forall int_key l → k ∈ l → k ∈ distinct_keys l.
Proof.
  induction 1 as [|k' l Hk' Hl IH]; simpl; [done|].
  rewrite !elem_of_cons, list_elem_of_filter. intros [->|Hin]; [by left|].
  destruct (key_eqb k' k) eqn:E; [|naive_solver].
  left. symmetry. apply key_eqb_eq; [done| |done].
  by eapply (proj1 (Forall_forall _ _) Hl).
Qed.

Lemma distinct_keys_NoDup (l : list (list cell)) :
  Forall int_key l → NoDup (distinct_keys l).
Proof.
  induction 1 as [|k l Hk Hl IH]; simpl; [constructor|].
  constructor; [|by apply NoDup_filter].
  intros [Hne _]%list_elem_of_filter.
  by rewrite key_eqb_refl in Hne.
Qed.

Lemma join_keys_elem_of left right lk rk k :
  k ∈ join_keys left right lk rk → k ∈ keys_of left lk ∨ k ∈ keys_of right rk.
Proof.
  unfold join_keys. rewrite sort_keys_Permutation.
  intros Hk%distinct_keys_subseteq. by apply elem_of_app in Hk.
Qed.

Lemma mapM_result_Forall2 {A B} (f : A → result B) (l : list A) (k : list B) :
  Forall2 (λ x y, f x = Ok y) l k → mapM f l = Ok k.
Proof.
  induction 1 as [|x y l k Hx _ IH]; simpl; [done|].
  rewrite Hx. simpl. rewrite IH. done.
Qed.

Lemma mapM_result_cons {A B} (f : A → result B) (x : A) (l : list A) :
  mapM f (x :: l) = y ← f x; k ← mapM f l; mret (y :: k).
Proof. done. Qed.

Lemma lookup_unique_name (cols : list (string * col_dtype)) i j name d d' :
  NoDup cols.*1 → cols !! i = Some (name, d) → cols !! j = Some (name, d') →
  i = j ∧ d = d'.
Proof.
  intros Hnd Hi Hj.
  assert (i = j) as ->.
  { eapply NoDup_lookup; [exact Hnd| |];
      rewrite list_lookup_fmap; [rewrite Hi|rewrite Hj]; done. }
  split; [done|]. congruence.
Qed.

Lemma key_positions_Ok (cols : list (string * col_dtype)) (on : list string) :
  NoDup cols.*1 →
  Forall (λ name, ∃ w, (name, DInt w) ∈ cols) on →
  ∃ pos, key_positions cols on = Ok pos ∧ keyed cols on pos.
Proof.
  intros Hnd Hon. unfold key_positions, keyed.
  induction Hon as [|name on [w Hin] _ (pos & Hpos & IH)].
  - exists []. split; [done|constructor].
  - rewrite mapM_result_cons, Hpos. unfold col_pos.
    destruct (list_find (λ c, c.1 = name) cols) as [[i [name' d]]|] eqn:Hfind.
    + apply list_find_Some in Hfind as (Hi & Hname & _).
      simpl in Hname. subst name'. simpl.
      exists (i :: pos). split; [done|]. constructor; [|done].
      apply list_elem_of_lookup in Hin as [j Hj].
      destruct (lookup_unique_name _ _ _ _ _ _ Hnd Hi Hj) as [_ ->]. eauto.
    + apply list_find_None in Hfind. rewrite Forall_forall in Hfind.
      by destruct (Hfind _ Hin).
Qed.

Lemma keyed_elem_of cols on pos i :
  keyed cols on pos → i ∈ pos →
  ∃ name w, name ∈ on ∧ cols !! i = Some (name, DInt w).
Proof.
  induction 1 as [|name j on pos [w Hj] _ IH]; [by intros ?%elem_of_nil|].
  rewrite elem_of_cons. intros [->|Hi].
  - exists name, w. split; [left|done].
  - destruct (IH Hi) as (n & w' & ? & ?). exists n, w'. split; [by right|done].
Qed.

Lemma keyed_on cols on pos name :
  keyed cols on pos → name ∈ on →
  ∃ i w, i ∈ pos ∧ cols !! i = Some (name, DInt w).
Proof.
  induction 1 as [|n j on pos [w Hj] _ IH]; [by intros ?%elem_of_nil|].
  rewrite elem_of_cons. intros [->|Hn].
  - exists j, w. split; [left|done].
  - destruct (IH Hn) as (i & w' & ? & ?). exists i, w'. split; [by right|done].
Qed.

Lemma keyed_name cols on pos name i d :
  NoDup cols.*1 → keyed cols on pos → name ∈ on →
  cols !! i = Some (name, d) → i ∈ pos.
Proof.
  intros Hnd Hk Hname Hi.
  induction Hk as [|n j on pos [w Hj] _ IH]; [by apply elem_of_nil in Hname|].
  apply elem_of_cons in Hname as [->|Hname].
  - destruct (lookup_unique_name _ _ _ _ _ _ Hnd Hi Hj) as [-> _]. left.
  - right. by apply IH.
Qed.

(** The key of a well-typed row consists of integers. *)
Lemma key_of_int (cols : list (string * col_dtype)) on pos (row : list cell) :
  keyed cols on pos → Forall2 has_dtype cols.*2 row → int_key (key_of pos row).
Proof.
  intros Hk Hrow. unfold int_key, key_of. apply Forall_fmap, Forall_forall.
  intros i Hi. destruct (keyed_elem_of _ _ _ _ Hk Hi) as (name & w & _ & Hc).
  assert (cols.*2 !! i = Some (DInt w)) as Hd
    by (by rewrite list_lookup_fmap, Hc).
  destruct (Forall2_lookup_l _ _ _ _ _ Hrow Hd) as (c & Hc' & Hty).
  simpl. rewrite Hc'. exact Hty.
Qed.

Section rest_of.
Context {A : Type}.

Lemma rest_of_aux_elem_of (g : nat → bool) (l : list A) x :
  x ∈ omap id (imap (λ i c, if g i then None else Some c) l)
  ↔ ∃ i, g i = false ∧ l !! i = Some x.
Proof.
  revert g. induction l as [|y l IH]; intros g; simpl.
  - split; [by intros ?%elem_of_nil|by intros (? & ? & ?)].
  - specialize (IH (g ∘ S)). unfold compose in IH.
    destruct (g 0) eqn:E0; simpl; rewrite ?elem_of_cons, IH.
    + split.
      * intros (i & ? & ?). by exists (S i).
      * intros ([|i] & ? & ?); [congruence|]. by exists i.
    + split.
      * intros [->|(i & ? & ?)]; [by exists 0|by exists (S i)].
      * intros ([|i] & ? & ?); simplify_eq/=; [by left|right; by exists i].
Qed.

Lemma rest_of_aux_length {B} (g : nat → bool) (l : list A) (l' : list B) :
  length l = length l' →
  length (omap id (imap (λ i c, if g i then None else Some c) l))
  = length (omap id (imap (λ i c, if g i then None else Some c) l')).
Proof.
  revert g l'. induction l as [|y l IH]; intros g [|y' l'] Hl;
    simplify_eq/=; [done|].
  specialize (IH (g ∘ S) l' Hl). unfold compose in IH.
  destruct (g 0); simpl; unfold compose; simpl; by rewrite IH.
Qed.

Lemma rest_of_aux_fmap {B} (f : A → B) (g : nat → bool) (l : list A) :
  omap id (imap (λ i c, if g i then None else Some c) (f <$> l))
  = f <$> omap id (imap (λ i c, if g i then None else Some c) l).
Proof.
  revert g. induction l as [|y l IH]; intros g; csimpl; [done|].
  specialize (IH (g ∘ S)). unfold compose in IH.
  destruct (g 0); csimpl; unfold compose; csimpl; by rewrite IH.
Qed.

Lemma rest_of_aux_NoDup (g : nat → bool) (l : list A) :
  NoDup l → NoDup (omap id (imap (λ i c, if g i then None else Some c) l)).
Proof.
  intros Hl. revert g. induction Hl as [|y l Hy Hl IH]; intros g; simpl;
    [constructor|].
  specialize (IH (g ∘ S)). unfold compose in *.
  destruct (g 0); simpl; [done|]. constructor; [|done].
  intros (i & _ & Hi)%rest_of_aux_elem_of.
  apply Hy. by eapply list_elem_of_lookup_2.
Qed.
End rest_of.

Lemma rest_of_alt {A} (pos : list nat) (l : list A) :
  rest_of pos l
  = omap id (imap (λ i c, if bool_decide (i ∈ pos) then None else Some c) l).
Proof.
  unfold rest_of. f_equal. apply imap_ext. intros i x _.
  by destruct (decide (i ∈ pos)); [rewrite bool_decide_true|rewrite bool_decide_false].
Qed.

Lemma elem_of_rest_of {A} (pos : list nat) (l : list A) x :
  x ∈ rest_of pos l ↔ ∃ i, (i ∉ pos) ∧ l !! i = Some x.
Proof.
  rewrite rest_of_alt, rest_of_aux_elem_of.
  by setoid_rewrite bool_decide_eq_false.
Qed.

Lemma rest_of_NoDup {A} (pos : list nat) (l : list A) :
  NoDup l → NoDup (rest_of pos l).
Proof. rewrite rest_of_alt. apply rest_of_aux_NoDup. Qed.

Lemma length_rest_of {A B} (pos : list nat) (l : list A) (l' : list B) :
  length l = length l' → length (rest_of pos l) = length (rest_of pos l').
Proof. intros. rewrite !rest_of_alt. by apply rest_of_aux_length. Qed.

Lemma rest_of_fmap {A B} (f : A → B) (pos : list nat) (l : list A) :
  rest_of pos (f <$> l) = f <$> rest_of pos l.
Proof. rewrite !rest_of_alt. apply rest_of_aux_fmap. Qed.

Lemma existsb_isna_coerce (dts : list col_dtype) (row : list cell) (i : nat) :
  i < length dts → row !! i = Some NaN →
  List.existsb isna (zip_with coerce dts row) = true.
Proof.
  intros Hi Hrow. apply List.existsb_exists. exists NaN. split; [|done].
  apply list_elem_of_In, list_elem_of_lookup. exists i.
  apply lookup_lt_is_Some in Hi as [d Hd].
  rewrite lookup_zip_with, Hd, Hrow. simpl. by destruct d.
Qed.

(** A join that returns a table has found the names of [on], of which
    there is at least one, in both tables. *)
Lemma merge_outer_Ok (left right : DataFrame) (on : list string) (m : DataFrame) :
  merge_outer left right on = Ok m →
  ∃ lk rk, key_positions (columns left) on = Ok lk
    ∧ key_positions (columns right) on = Ok rk
    ∧ lk ≠ [] ∧ m = merged left right lk rk.
Proof.
  unfold merge_outer.
  destruct (key_positions (columns left) on) as [lk|]; simpl; [|done].
  destruct (key_positions (columns right) on) as [rk|]; simpl; [|done].
  destruct lk as [|p lk]; [done|]. intros [= <-]. by exists (p :: lk), rk.
Qed.

Lemma key_dtype_int left right lk rk (w w' : int_dtype) :
  ∃ w'', key_dtype left right lk rk (DInt w) (DInt w') = DInt w''.
Proof.
  unfold key_dtype, coerce_keys.
  destruct (rows left), (rows right), (right_only left right lk rk); simpl; eauto.
Qed.

Lemma length_merged_columns left right lk rk :
  length (merged_columns left right lk rk)
  = length (columns left) + length (rest_of rk (columns right)).
Proof.
  unfold merged_columns. by rewrite length_app, length_imap, length_fmap.
Qed.

Lemma fill_left_lookup (pos : list nat) (ncols : nat) (key : list cell) (i : nat) :
  i < ncols → i ∉ pos → fill_left pos ncols key !! i = Some NaN.
Proof.
  intros Hi Hpos. unfold fill_left. rewrite list_lookup_fmap.
  rewrite (proj2 (lookup_seq 0 ncols i i)) by done. simpl.
  destruct (list_find (λ p, p = i) pos) as [[j p]|] eqn:E; [|done].
  apply list_find_Some in E as (Hj & -> & _).
  destruct Hpos. by eapply list_elem_of_lookup_2.
Qed.

Section outer_merge.
Context (df1 df2 : DataFrame) (on : list string) (lk rk : list nat).
Hypothesis Hwf1 : wf_frame df1.
Hypothesis Hwf2 : wf_frame df2.
Hypothesis Hlk : keyed (columns df1) on lk.
Hypothesis Hrk : keyed (columns df2) on rk.
Hypothesis Hshared : ∀ name,
  name ∈ (columns df1).*1 → name ∈ (columns df2).*1 → name ∈ on.

Lemma row_length1 row : row ∈ rows df1 → length row = length (columns df1).
Proof.
  intros Hrow. destruct Hwf1 as [_ Hrows]. rewrite Forall_forall in Hrows.
  apply Hrows, Forall2_length in Hrow. by rewrite length_fmap in Hrow.
Qed.

Lemma row_length2 row : row ∈ rows df2 → length row = length (columns df2).
Proof.
  intros Hrow. destruct Hwf2 as [_ Hrows]. rewrite Forall_forall in Hrows.
  apply Hrows, Forall2_length in Hrow. by rewrite length_fmap in Hrow.
Qed.

Lemma keys1_int k : k ∈ keys_of df1 lk → int_key k.
Proof.
  intros (row & -> & Hrow)%list_elem_of_fmap.
  destruct Hwf1 as [_ Hrows]. rewrite Forall_forall in Hrows.
  eapply key_of_int; eauto.
Qed.

Lemma keys2_int k : k ∈ keys_of df2 rk → int_key k.
Proof.
  intros (row & -> & Hrow)%list_elem_of_fmap.
  destruct Hwf2 as [_ Hrows]. rewrite Forall_forall in Hrows.
  eapply key_of_int; eauto.
Qed.

(** With disjoint key sets every row of the join lacks the columns of one
    side. *)
Lemma merged_all_na :
  (∀ k, k ∈ keys_of df1 lk → k ∉ keys_of df2 rk) →
  (∃ name, name ∈ (columns df1).*1 ∧ name ∉ on) →
  (∃ name, name ∈ (columns df2).*1 ∧ name ∉ on) →
  Forall (λ row, List.existsb isna row = true) (rows (merged df1 df2 lk rk)).
Proof.
  intros Hdisj (n1 & Hn1 & Hn1on) (n2 & Hn2 & Hn2on).
  unfold merged. simpl. apply Forall_fmap, Forall_forall. intros row Hrow.
  simpl. apply list_elem_of_bind in Hrow as (k & Hrow & Hk).
  apply join_keys_elem_of in Hk.
  assert (∃ i, i < length (columns df1) ∧ i ∉ lk) as (i1 & Hi1 & Hi1k).
  { apply list_elem_of_fmap in Hn1 as ([n d] & -> & Hin).
    apply list_elem_of_lookup in Hin as [i Hi]. exists i. split.
    - by eapply lookup_lt_Some.
    - intros Hik. destruct (keyed_elem_of _ _ _ _ Hlk Hik) as (n' & w & ? & Hi').
      simpl in *. congruence. }
  assert (0 < length (rest_of rk (columns df2))) as Hrest.
  { apply list_elem_of_fmap in Hn2 as ([n d] & -> & Hin).
    apply list_elem_of_lookup in Hin as [i Hi].
    assert ((n, d) ∈ rest_of rk (columns df2)) as Hr.
    { apply elem_of_rest_of. exists i. split; [|done].
      intros Hik. destruct (keyed_elem_of _ _ _ _ Hrk Hik) as (n' & w & ? & Hi').
      simpl in *. congruence. }
    destruct (rest_of rk (columns df2)); [by apply elem_of_nil in Hr|simpl; lia]. }
  assert (Hlen := length_merged_columns df1 df2 lk rk).
  unfold group in Hrow.
  destruct (matches_left df1 lk k) as [|l ls] eqn:El.
  - apply list_elem_of_fmap in Hrow as (r & -> & _).
    apply (existsb_isna_coerce _ _ i1); [rewrite length_fmap; lia|].
    rewrite lookup_app_l by (unfold fill_left; by rewrite length_fmap, length_seq).
    by apply fill_left_lookup.
  - destruct (matches_right df2 rk k) as [|r rs] eqn:Er.
    + apply list_elem_of_fmap in Hrow as (l' & -> & Hl').
      assert (l' ∈ rows df1) as Hl'in.
      { rewrite <- El in Hl'. by apply list_elem_of_filter in Hl' as [_ ?]. }
      apply (existsb_isna_coerce _ _ (length (columns df1)));
        [rewrite length_fmap; lia|].
      rewrite lookup_app_r by (rewrite row_length1 by done; lia).
      rewrite row_length1, Nat.sub_diag by done.
      apply lookup_replicate. split; [done|lia].
    + exfalso.
      assert (l ∈ matches_left df1 lk k) as Hl by (rewrite El; left).
      assert (r ∈ matches_right df2 rk k) as Hr by (rewrite Er; left).
      apply list_elem_of_filter in Hl as [Hlk' Hlin].
      apply list_elem_of_filter in Hr as [Hrk' Hrin].
      assert (key_of lk l ∈ keys_of df1 lk) as Hk1
        by (apply list_elem_of_fmap; eauto).
      assert (key_of rk r ∈ keys_of df2 rk) as Hk2
        by (apply list_elem_of_fmap; eauto).
      assert (int_key k) by (destruct Hk; auto using keys1_int, keys2_int).
      apply key_eqb_eq in Hlk'; [|by apply keys1_int|done].
      apply key_eqb_eq in Hrk'; [|by apply keys2_int|done].
      apply (Hdisj (key_of lk l)); [done|]. congruence.
Qed.

Lemma keyed_both i j :
  list_find (λ p, p = i) lk = Some (j, i) →
  ∃ name w w' i', columns df1 !! i = Some (name, DInt w)
    ∧ rk !! j = Some i' ∧ columns df2 !! i' = Some (name, DInt w').
Proof.
  intros (Hj & _ & _)%list_find_Some.
  destruct (Forall2_lookup_r _ _ _ _ _ Hlk Hj) as (name & Hname & w & Hw).
  destruct (Forall2_lookup_l _ _ _ _ _ Hrk Hname) as (i' & Hi' & w' & Hw').
  eauto 10.
Qed.

Lemma not_key1 i : list_find (λ p, p = i) lk = None → i ∉ lk.
Proof. intros Hf%list_find_None. rewrite Forall_forall in Hf. naive_solver. Qed.

(** A column of the join has the name of the column it comes from; when
    every row has a partner it has its type as well, up to the width of
    an integer key. *)
Lemma merged_columns_spec :
  Forall2 (λ c m, m.1 = c.1
             ∧ (left_only df1 df2 lk rk = false →
                right_only df1 df2 lk rk = false →
                m.2 = c.2 ∨ ∃ w w', c.2 = DInt w ∧ m.2 = DInt w'))
    (columns df1 ++ rest_of rk (columns df2))
    (merged_columns df1 df2 lk rk).
Proof.
  destruct Hwf1 as [Hnd1 _], Hwf2 as [Hnd2 _].
  unfold merged_columns. apply Forall2_app.
  - apply Forall2_same_length_lookup_2; [by rewrite length_imap|].
    intros i c m Hc Hm. rewrite list_lookup_imap, Hc in Hm. simplify_eq/=.
    destruct (list_find (λ p, p = i) lk) as [[j p]|] eqn:Hf.
    + assert (p = i) as -> by (by apply list_find_Some in Hf as (_ & ? & _)).
      destruct (keyed_both _ _ Hf) as (name & w & w' & i' & Hi & Hj & Hi').
      simplify_eq/=. split; [done|]. intros _ _. right.
      rewrite Hj. simpl. rewrite Hi'. simpl.
      destruct (key_dtype_int df1 df2 lk rk w w') as [w'' ->]. eauto.
    + apply not_key1 in Hf. simpl. split.
      * unfold suffixed. rewrite decide_False; [done|].
        intros ([n d] & Hn & Hin)%list_elem_of_fmap. simpl in Hn.
        apply elem_of_rest_of in Hin as (j & Hj & Hcj).
        apply Hj.
        eapply (keyed_name (columns df2)); [done|exact Hrk| |exact Hcj].
        apply Hshared.
        -- apply list_elem_of_fmap. exists c. split; [done|].
           by eapply list_elem_of_lookup_2.
        -- apply list_elem_of_fmap. exists (n, d). split; [done|].
           by eapply list_elem_of_lookup_2.
      * intros _ ->. by left.
  - apply Forall2_fmap_r, Forall_Forall2_diag, Forall_forall.
    intros [n d] Hin. simpl. split.
    + unfold suffixed. rewrite decide_False; [done|].
      intros ([n' d'] & Hn & Hin')%list_elem_of_fmap. simpl in Hn. subst n'.
      apply elem_of_rest_of in Hin as (j & Hj & Hcj).
      apply elem_of_rest_of in Hin' as (i & Hi & Hci).
      apply Hj. eapply (keyed_name (columns df2)); [done|exact Hrk| |exact Hcj].
      assert (n ∈ on) as Hon.
      { apply Hshared; apply list_elem_of_fmap.
        - exists (n, d'). split; [done|]. by eapply list_elem_of_lookup_2.
        - exists (n, d). split; [done|]. by eapply list_elem_of_lookup_2. }
      done.
    + intros -> _. by left.
Qed.

Lemma merged_names :
  (merged_columns df1 df2 lk rk).*1
  = (columns df1).*1 ++ (rest_of rk (columns df2)).*1.
Proof.
  rewrite <- fmap_app. symmetry. apply list_eq_Forall2.
  apply Forall2_fmap, (Forall2_impl _ _ _ _ merged_columns_spec).
  by intros c m [-> _].
Qed.

Lemma merged_names_NoDup : NoDup (merged_columns df1 df2 lk rk).*1.
Proof.
  destruct Hwf1 as [Hnd1 _], Hwf2 as [Hnd2 _].
  rewrite merged_names. apply NoDup_app. split_and!; [done| |].
  - intros n Hn1 ([n' d] & -> & Hin)%list_elem_of_fmap. simpl in *.
    apply elem_of_rest_of in Hin as (j & Hj & Hcj).
    apply Hj. eapply (keyed_name (columns df2)); [done|exact Hrk| |exact Hcj].
    apply Hshared; [done|]. apply list_elem_of_fmap. exists (n', d).
    split; [done|]. by eapply list_elem_of_lookup_2.
  - rewrite <- rest_of_fmap. by apply rest_of_NoDup.
Qed.

(** Every name of the two tables is the name of a column of the join. *)
Lemma merged_names_elem_of name :
  name ∈ (columns df1).*1 ∨ name ∈ (columns df2).*1 →
  name ∈ (merged_columns df1 df2 lk rk).*1.
Proof.
  destruct Hwf1 as [Hnd1 _], Hwf2 as [Hnd2 _].
  rewrite merged_names, elem_of_app. intros [?|Hn]; [by left|].
  apply list_elem_of_fmap in Hn as ([n d] & -> & Hin). simpl.
  apply list_elem_of_lookup in Hin as [j Hj].
  destruct (decide (j ∈ rk)) as [Hk|Hk].
  - left. destruct (keyed_elem_of _ _ _ _ Hrk Hk) as (n' & w & Hon & Hj').
    simplify_eq.
    destruct (keyed_on _ _ _ _ Hlk Hon) as (i & w0 & _ & Hi).
    apply list_elem_of_fmap. exists (n, DInt w0). split; [done|].
    by eapply list_elem_of_lookup_2.
  - right. apply list_elem_of_fmap. exists (n, d). split; [done|].
    apply elem_of_rest_of. eauto.
Qed.
End outer_merge.

Lemma restore_step (cols : list (string * col_dtype)) (c : string * col_dtype)
    (df : DataFrame) :
  foldl (λ acc c, df ← acc; restore_column df c) (Ok df) (c :: cols)
  = foldl (λ acc c, df ← acc; restore_column df c) (restore_column df c) cols.
Proof. done. Qed.

Lemma restore_Raise (cols : list (string * col_dtype)) e :
  foldl (λ acc c, df ← acc; restore_column df c) (Raise e) cols = Raise e.
Proof. induction cols as [|c cols IH]; simpl; [done|]. exact IH. Qed.

Lemma alter_dtype_names (cols : list (string * col_dtype)) i d :
  (alter (λ c, (c.1, d)) i cols).*1 = cols.*1.
Proof.
  apply list_eq. intros j. rewrite !list_lookup_fmap, list_lookup_alter.
  case_decide; [subst|done]. by destruct (cols !! j).
Qed.

Lemma filter_none {A} (P : A → Prop) `{∀ x, Decision (P x)} (l : list A) :
  Forall (λ x, ¬ P x) l → filter P l = [].
Proof.
  induction 1 as [|x l Hx _ IH]; [done|].
  by rewrite filter_cons, decide_False, IH.
Qed.

Lemma filter_all {A} (P : A → Prop) `{∀ x, Decision (P x)} (l : list A) :
  Forall P l → filter P l = l.
Proof.
  induction 1 as [|x l Hx _ IH]; [done|].
  by rewrite filter_cons, decide_True, IH.
Qed.

(** On a table without rows the restoring loop changes types only. *)
Lemma restore_empty (cols : list (string * col_dtype)) (df : DataFrame) :
  rows df = [] →
  (∀ c w, (c, DInt w) ∈ cols → c ∈ (columns df).*1) →
  ∃ df', foldl (λ acc c, df ← acc; restore_column df c) (Ok df) cols = Ok df'
    ∧ rows df' = [] ∧ (columns df').*1 = (columns df).*1.
Proof.
  revert df. induction cols as [|[c d] cols IH]; intros df Hrows Hnames.
  - exists df. by simpl.
  - rewrite restore_step.
    assert (∃ df1, restore_column df (c, d) = Ok df1 ∧ rows df1 = []
                   ∧ (columns df1).*1 = (columns df).*1) as (df1 & -> & Hr & Hn).
    { unfold restore_column. simpl. destruct d as [w| |]; [|by eauto..].
      destruct (list_find (λ c', c'.1 = c) (columns df)) as [[i c']|] eqn:Hf.
      - destruct (is_integer_dtype c'.2); [by eauto|].
        unfold astype_column. rewrite Hrows. simpl.
        eexists. split; [done|]. simpl. split; [done|].
        apply alter_dtype_names.
      - apply list_find_None in Hf. rewrite Forall_forall in Hf.
        assert (c ∈ (columns df).*1) as ([c0 d0] & -> & Hin)%list_elem_of_fmap
          by (apply (Hnames c w); left).
        by destruct (Hf _ Hin). }
    destruct (IH df1 Hr) as (df' & Hdf' & ? & Hn').
    { intros c0 w0 Hin. rewrite Hn. apply (Hnames c0 w0). by right. }
    exists df'. split; [done|]. split; [done|]. congruence.
Qed.

(** The restoring loop leaves a table as it is when the columns to restore
    have an integer type already. *)
Lemma restore_id (cols : list (string * col_dtype)) (df : DataFrame) :
  NoDup (columns df).*1 →
  (∀ c w, (c, DInt w) ∈ cols → ∃ w', (c, DInt w') ∈ columns df) →
  foldl (λ acc c, df ← acc; restore_column df c) (Ok df) cols = Ok df.
Proof.
  intros Hnd. induction cols as [|[c d] cols IH]; intros Hint; [done|].
  rewrite restore_step.
  assert (restore_column df (c, d) = Ok df) as ->.
  { unfold restore_column. simpl. destruct d as [w| |]; [|done..].
    destruct (Hint c w) as [w' Hin]; [left|].
    destruct (list_find (λ c', c'.1 = c) (columns df)) as [[i [c' d']]|] eqn:Hf.
    - apply list_find_Some in Hf as (Hi & Hc & _). simpl in Hc. subst c'.
      apply list_elem_of_lookup in Hin as [j Hj].
      destruct (lookup_unique_name _ _ _ _ _ _ Hnd Hi Hj) as [_ ->]. done.
    - apply list_find_None in Hf. rewrite Forall_forall in Hf.
      by destruct (Hf _ Hin). }
  apply IH. intros c0 w0 Hin. apply (Hint c0 w0). by right.
Qed.

Lemma unique_match {A} (key : A → list cell) (rs : list A) (k : list cell) :
  NoDup (key <$> rs) → Forall int_key (key <$> rs) → int_key k →
  k ∈ key <$> rs →
  ∃ r, filter (λ r, key_eqb (key r) k = true) rs = [r] ∧ key r = k ∧ r ∈ rs.
Proof.
  intros Hnd Hint Hk.
  induction rs as [|a rs IH]; csimpl in *; [by intros ?%elem_of_nil|].
  apply NoDup_cons in Hnd as [Ha Hnd]. apply Forall_cons in Hint as [Hia Hint].
  rewrite filter_cons. intros Hin.
  destruct (key_eqb (key a) k) eqn:E.
  - apply key_eqb_eq in E; [|done..]. subst k.
    rewrite decide_True by done. exists a. split_and!; [|done|left].
    f_equal. apply filter_none. apply Forall_forall. intros r Hr Hm. simpl in Hm.
    apply key_eqb_eq in Hm; [|by eapply (proj1 (Forall_forall _ _) Hint),
                                 list_elem_of_fmap_2|done].
    apply Ha. rewrite <- Hm. by apply list_elem_of_fmap_2.
  - rewrite decide_False by done.
    apply elem_of_cons in Hin as [->|Hin].
    { by rewrite key_eqb_refl in E. }
    destruct (IH Hnd Hint Hin) as (r & ? & ? & ?).
    exists r. split_and!; [done..|by right].
Qed.

Lemma zip_with_coerce_id (dts : list col_dtype) (row : list cell) :
  Forall2 (λ d c, coerce d c = c) dts row → zip_with coerce dts row = row.
Proof. induction 1 as [|d c dts row Hdc _ IH]; simpl; [done|]. by rewrite Hdc, IH. Qed.

Lemma Forall2_compose {A B C} (R : A → B → Prop) (Q : A → C → Prop)
    (T : B → C → Prop) (l : list A) (m : list B) (r : list C) :
  (∀ x y z, R x y → Q x z → T y z) →
  Forall2 R l m → Forall2 Q l r → Forall2 T m r.
Proof.
  intros HT HR. revert r. induction HR as [|x y l m Hxy _ IH]; intros r HQ.
  - inversion HQ. constructor.
  - inversion HQ as [|? z ? r' Hxz HQ']; subst. constructor; eauto.
Qed.

Lemma rest_of_aux_Forall2 {A B} (P : A → B → Prop) (g : nat → bool)
    (l : list A) (l' : list B) :
  Forall2 P l l' →
  Forall2 P (omap id (imap (λ i c, if g i then None else Some c) l))
            (omap id (imap (λ i c, if g i then None else Some c) l')).
Proof.
  intros HP. revert g.
  induction HP as [|x y l l' Hxy _ IH]; intros g; simpl; [constructor|].
  specialize (IH (g ∘ S)). unfold compose in *.
  destruct (g 0); simpl; unfold compose; simpl;
    [exact IH|constructor; [done|exact IH]].
Qed.

Lemma rest_of_Forall2 {A B} (P : A → B → Prop) (pos : list nat)
    (l : list A) (l' : list B) :
  Forall2 P l l' → Forall2 P (rest_of pos l) (rest_of pos l').
Proof. rewrite !rest_of_alt. apply rest_of_aux_Forall2. Qed.

Lemma existsb_isna_rest_of (pos : list nat) (row : list cell) :
  List.existsb isna row = false → List.existsb isna (rest_of pos row) = false.
Proof.
  intros Hrow. apply existsb_false, Forall_forall.
  intros c (i & _ & Hi)%elem_of_rest_of.
  destruct (isna c) eqn:E; [|done].
  rewrite <- Hrow. symmetry. apply List.existsb_exists. exists c.
  split; [|done]. by eapply list_elem_of_In, list_elem_of_lookup_2.
Qed.

Lemma Forall2_snd_l {A B C} (P : B → C → Prop) (l : list (A * B)) (k : list C) :
  Forall2 P l.*2 k → Forall2 (λ x y, P x.2 y) l k.
Proof.
  revert k. induction l as [|x l IH]; intros k H; inversion H; subst;
    constructor; auto.
Qed.

Lemma length_bind_single {A B} (f : A → list B) (l : list A) :
  Forall (λ x, length (f x) = 1) l → length (l ≫= f) = length l.
Proof.
  induction 1 as [|x l Hx _ IH]; csimpl; [done|].
  rewrite length_app, Hx, IH. done.
Qed.

Section outer_merge_matched.
Context (df1 df2 : DataFrame) (on : list string) (lk rk : list nat).
Hypothesis Hwf1 : wf_frame df1.
Hypothesis Hwf2 : wf_frame df2.
Hypothesis Hlk : keyed (columns df1) on lk.
Hypothesis Hrk : keyed (columns df2) on rk.
Hypothesis Hshared : ∀ name,
  name ∈ (columns df1).*1 → name ∈ (columns df2).*1 → name ∈ on.
Hypothesis Hnd1 : NoDup (keys_of df1 lk).
Hypothesis Hnd2 : NoDup (keys_of df2 rk).
Hypothesis Hsame : ∀ k, k ∈ keys_of df1 lk ↔ k ∈ keys_of df2 rk.
Hypothesis Hna1 : no_na df1.
Hypothesis Hna2 : no_na df2.

Lemma keys1_Forall : Forall int_key (keys_of df1 lk).
Proof. apply Forall_forall, (keys1_int df1 on lk Hwf1 Hlk). Qed.

Lemma keys2_Forall : Forall int_key (keys_of df2 rk).
Proof. apply Forall_forall, (keys2_int df2 on rk Hwf2 Hrk). Qed.

Lemma match_right k :
  k ∈ keys_of df1 lk →
  ∃ r, matches_right df2 rk k = [r] ∧ key_of rk r = k ∧ r ∈ rows df2.
Proof.
  intros Hk. apply unique_match; [done|apply keys2_Forall| |by apply Hsame].
  by apply (keys1_int df1 on lk Hwf1 Hlk).
Qed.

Lemma match_left k :
  k ∈ keys_of df1 lk →
  ∃ l, matches_left df1 lk k = [l] ∧ key_of lk l = k ∧ l ∈ rows df1.
Proof.
  intros Hk. apply unique_match; [done|apply keys1_Forall| |done].
  by apply (keys1_int df1 on lk Hwf1 Hlk).
Qed.

Lemma left_only_false : left_only df1 df2 lk rk = false.
Proof.
  apply existsb_false, Forall_forall. intros l Hl.
  destruct (match_right (key_of lk l)) as (r & -> & _); [|done].
  by apply list_elem_of_fmap_2.
Qed.

Lemma right_only_false : right_only df1 df2 lk rk = false.
Proof.
  apply existsb_false, Forall_forall. intros r Hr.
  destruct (match_left (key_of rk r)) as (l & -> & _); [|done].
  apply Hsame. by apply list_elem_of_fmap_2.
Qed.

Lemma group_single k :
  k ∈ keys_of df1 lk →
  ∃ l r, group df1 df2 lk rk k = [l ++ rest_of rk r]
    ∧ l ∈ rows df1 ∧ r ∈ rows df2.
Proof.
  intros Hk. unfold group.
  destruct (match_left k Hk) as (l & -> & _ & Hl).
  destruct (match_right k Hk) as (r & -> & _ & Hr).
  exists l, r. by csimpl.
Qed.

(** A joined row holds the values of its two rows unchanged. *)
Lemma merged_row_coerce l r :
  l ∈ rows df1 → r ∈ rows df2 →
  zip_with coerce (merged_columns df1 df2 lk rk).*2 (l ++ rest_of rk r)
  = l ++ rest_of rk r.
Proof.
  intros Hl Hr. apply zip_with_coerce_id.
  destruct Hwf1 as [_ Hrows1], Hwf2 as [_ Hrows2].
  rewrite Forall_forall in Hrows1, Hrows2.
  apply Forall2_fmap_l.
  eapply (Forall2_compose _ (λ c v, has_dtype c.2 v));
    [|apply (merged_columns_spec df1 df2 on lk rk); done|].
  - intros c m v [_ Hm] Hv. unfold compose.
    destruct (Hm left_only_false right_only_false) as [->|(w & w' & Hc & ->)].
    + destruct (c.2); simpl in *; [by destruct Hv as [z ->]| |done].
      by destruct Hv as [f ->].
    + rewrite Hc in Hv. by destruct Hv as [z ->].
  - apply Forall2_app.
    + apply Forall2_snd_l. by apply Hrows1.
    + apply Forall2_snd_l. rewrite <- rest_of_fmap.
      apply rest_of_Forall2. by apply Hrows2.
Qed.

Lemma join_keys_length :
  length (join_keys df1 df2 lk rk) = length (rows df1).
Proof.
  unfold join_keys. rewrite sort_keys_Permutation.
  fold (keys_of df1 lk) (keys_of df2 rk).
  assert (Hall : Forall int_key (keys_of df1 lk ++ keys_of df2 rk))
    by (apply Forall_app; split; [apply keys1_Forall|apply keys2_Forall]).
  rewrite (NoDup_Permutation (distinct_keys _) (keys_of df1 lk));
    [by unfold keys_of; rewrite length_fmap|by apply distinct_keys_NoDup|done|].
  intros k. split.
  - intros Hk%distinct_keys_subseteq. apply elem_of_app in Hk as [?|?]; [done|].
    by apply Hsame.
  - intros Hk. apply distinct_keys_elem_of; [done|]. apply elem_of_app. by left.
Qed.

(** With the same keys on both sides, each once, the join has one complete
    row per row of the left table. *)
Lemma merged_matched :
  rows (dropna (merged df1 df2 lk rk)) = rows (merged df1 df2 lk rk)
  ∧ length (rows (merged df1 df2 lk rk)) = length (rows df1).
Proof.
  assert (Hkeys : ∀ k, k ∈ join_keys df1 df2 lk rk → k ∈ keys_of df1 lk).
  { intros k [?|?]%join_keys_elem_of; [done|by apply Hsame]. }
  split.
  - unfold dropna, merged. simpl. apply filter_all, Forall_fmap, Forall_forall.
    intros row (k & Hrow & Hk)%list_elem_of_bind. simpl.
    destruct (group_single k (Hkeys k Hk)) as (l & r & Hg & Hl & Hr).
    rewrite Hg in Hrow. apply list_elem_of_singleton in Hrow as ->.
    rewrite merged_row_coerce by done.
    rewrite List.existsb_app.
    rewrite (proj1 (Forall_forall _ _) Hna1 l Hl).
    by rewrite existsb_isna_rest_of
      by apply (proj1 (Forall_forall _ _) Hna2 r Hr).
  - unfold merged. simpl. rewrite length_fmap, length_bind_single.
    + apply join_keys_length.
    + apply Forall_forall. intros k Hk.
      by destruct (group_single k (Hkeys k Hk)) as (l & r & -> & _).
Qed.

(** The integer columns of both tables are integer columns of the join. *)
Lemma merged_integer name w :
  (name, DInt w) ∈ columns df1 ∨ (name, DInt w) ∈ columns df2 →
  ∃ w', (name, DInt w') ∈ merged_columns df1 df2 lk rk.
Proof.
  pose proof (merged_columns_spec df1 df2 on lk rk Hwf1 Hwf2 Hlk Hrk Hshared)
    as Hspec.
  assert (Hfrom : ∀ c, c ∈ columns df1 ++ rest_of rk (columns df2) →
            c.2 = DInt w → ∃ w', (c.1, DInt w') ∈ merged_columns df1 df2 lk rk).
  { intros c [i Hi]%list_elem_of_lookup Hc.
    destruct (Forall2_lookup_l _ _ _ _ _ Hspec Hi) as ([n d] & Hm & Hn & Hd).
    simpl in *. subst n.
    destruct (Hd left_only_false right_only_false) as [->|(w1 & w' & _ & ->)].
    - exists w. rewrite <- Hc. by eapply list_elem_of_lookup_2.
    - exists w'. by eapply list_elem_of_lookup_2. }
  intros [Hin|Hin].
  - apply (Hfrom (name, DInt w)); [|done]. apply elem_of_app. by left.
  - apply list_elem_of_lookup in Hin as [j Hj].
    destruct (decide (j ∈ rk)) as [Hk|Hk].
    + destruct (keyed_elem_of _ _ _ _ Hrk Hk) as (n' & w0 & Hon & Hj').
      simplify_eq.
      destruct (keyed_on _ _ _ _ Hlk Hon) as (i & w1 & _ & Hi).
      destruct (Forall2_lookup_l _ _ _ _ _ Hspec
                  (lookup_app_l_Some _ _ _ _ Hi))
        as ([n d] & Hm & Hn & Hd).
      simpl in *. subst n.
      destruct (Hd left_only_false right_only_false) as [->|(? & w' & _ & ->)];
        eexists; by eapply list_elem_of_lookup_2.
    + apply (Hfrom (name, DInt w)); [|done]. apply elem_of_app. right.
      apply elem_of_rest_of. eauto.
Qed.
End outer_merge_matched.

Lemma dropna_id (df : DataFrame) : rows (dropna df) = rows df → dropna df = df.
Proof. destruct df as [cols rs]. unfold dropna. simpl. by intros ->. Qed.

(** C1 (as amended): for two well-formed tables joined on a non-empty list
    of integer key columns which share no other column: when no key of one
    table is a key of the other and each table has a column outside the
    key, the result has no rows; when each key occurs once in each table,
    the two tables have the same keys and no value of either table is
    missing, the result has as many rows as each input and every integer
    column of either input is an integer column of the result. *)
Theorem outer_merge_reconciles (df1 df2 : DataFrame) (on : list string) :
  wf_frame df1 → wf_frame df2 → on ≠ [] →
  Forall (λ name, ∃ w, (name, DInt w) ∈ columns df1) on →
  Forall (λ name, ∃ w, (name, DInt w) ∈ columns df2) on →
  (∀ name, name ∈ (columns df1).*1 → name ∈ (columns df2).*1 → name ∈ on) →
  ∃ lk rk,
    key_positions (columns df1) on = Ok lk
    ∧ key_positions (columns df2) on = Ok rk
    ∧ ((∀ k, k ∈ keys_of df1 lk → k ∉ keys_of df2 rk) →
       (∃ name, name ∈ (columns df1).*1 ∧ name ∉ on) →
       (∃ name, name ∈ (columns df2).*1 ∧ name ∉ on) →
       ∃ df, _outer_merge df1 df2 on = Ok df ∧ rows df = [])
    ∧ (NoDup (keys_of df1 lk) → NoDup (keys_of df2 rk) →
       (∀ k, k ∈ keys_of df1 lk ↔ k ∈ keys_of df2 rk) →
       no_na df1 → no_na df2 →
       ∃ df, _outer_merge df1 df2 on = Ok df
         ∧ length (rows df) = length (rows df1)
         ∧ length (rows df) = length (rows df2)
         ∧ ∀ name w,
             (name, DInt w) ∈ columns df1 ∨ (name, DInt w) ∈ columns df2 →
             ∃ w', (name, DInt w') ∈ columns df).
Proof.
  intros Hwf1 Hwf2 Hne Hon1 Hon2 Hshared.
  destruct (key_positions_Ok _ _ (wf_names _ Hwf1) Hon1) as (lk & Hlk & Hk1).
  destruct (key_positions_Ok _ _ (wf_names _ Hwf2) Hon2) as (rk & Hrk & Hk2).
  exists lk, rk. split; [done|]. split; [done|].
  assert (merge_outer df1 df2 on = Ok (merged df1 df2 lk rk)) as Hjoin.
  { unfold merge_outer. rewrite Hlk, Hrk. simpl.
    destruct lk; [|done]. by apply Forall2_nil_inv_r in Hk1. }
  unfold _outer_merge, restore. rewrite Hjoin. simpl.
  split.
  - intros Hdisj Hc1 Hc2.
    assert (Hrows : rows (dropna (merged df1 df2 lk rk)) = []).
    { unfold dropna. simpl. apply filter_none.
      eapply Forall_impl;
        [by apply (merged_all_na df1 df2 on lk rk Hwf1 Hwf2 Hk1 Hk2)|].
      intros row Hrow. simpl in *. congruence. }
    destruct (restore_empty (columns df1) _ Hrows) as (df' & -> & Hr' & Hn').
    { intros c w Hin. simpl.
      apply (merged_names_elem_of df1 df2 on lk rk); try done.
      left. apply list_elem_of_fmap. by exists (c, DInt w). }
    simpl.
    destruct (restore_empty (columns df2) _ Hr') as (df'' & -> & Hr'' & _).
    { intros c w Hin. rewrite Hn'. simpl.
      apply (merged_names_elem_of df1 df2 on lk rk); try done.
      right. apply list_elem_of_fmap. by exists (c, DInt w). }
    eauto.
  - intros Hnd1 Hnd2 Hsame Hna1 Hna2.
    destruct (merged_matched df1 df2 on lk rk) as [Hdrop Hlen]; try done.
    assert (dropna (merged df1 df2 lk rk) = merged df1 df2 lk rk) as ->.
    { by apply dropna_id. }
    assert (Hint := merged_integer df1 df2 on lk rk Hwf1 Hwf2 Hk1 Hk2 Hshared
                      Hnd1 Hnd2 Hsame).
    assert (Hnd := merged_names_NoDup df1 df2 on lk rk Hwf1 Hwf2 Hk1 Hk2 Hshared).
    rewrite restore_id; [|done|by intros c w ?; apply (Hint c w); left].
    simpl.
    rewrite restore_id; [|done|by intros c w ?; apply (Hint c w); right].
    eexists. split; [done|]. split_and!; [done| |done].
    rewrite Hlen. unfold keys_of in *.
    rewrite <- (length_fmap (key_of lk) (rows df1)).
    rewrite <- (length_fmap (key_of rk) (rows df2)).
    apply Permutation_length, NoDup_Permutation; done.
Qed.

(** ** Instances *)
Lemma filter_segmentation_removes_witness :
  ∃ r, filter_segmentation mask_15x23 = Ok r
    ∧ ishape r = ishape mask_15x23
    ∧ (∀ label, label ≠ 0%Z → area (idata mask_15x23) label ≤ 10 →
         label ∉ idata r)
    ∧ (∀ q p, in_border 6 (ishape mask_15x23) q = true →
         is_object (arr mask_15x23) q = true → connected (arr mask_15x23) q p →
         idata r !! p = Some 0%Z)
    ∧ (∀ label q, label ≠ 0%Z → idata mask_15x23 !! q = Some label →
         in_border 6 (ishape mask_15x23) q = true →
         (∀ p, idata mask_15x23 !! p = Some label →
            connected (arr mask_15x23) q p) →
         label ∉ idata r).
Proof.
  apply (filter_segmentation_removes mask_15x23).
  - reflexivity.
  - simpl. lia.
  - repeat constructor; lia.
  - apply (bool_decide_unpack _). vm_compute. exact I.
Defined.

(** C6 as stated fails on labels that consist of several objects.  Label 2
    has a pixel in the corner of the image, within the 5-pixel margin, and
    is not absent: its 11 pixels in the interior stay.  The pixels
    [small_part] are an object of 5 pixels, linked to no other pixel, and
    stay, because their label has 16 pixels. *)
Lemma filter_segmentation_split_labels :
  ∃ r, filter_segmentation mask_split = Ok r
    ∧ (idata mask_split !! 0 = Some 2%Z
       ∧ in_border 5 (ishape mask_split) 0 = true
       ∧ 2%Z ∈ idata r)
    ∧ (length small_part = 5
       ∧ Forall (λ i, idata mask_split !! i = Some 1%Z) small_part
       ∧ (∀ i j, i ∈ small_part → linked (arr mask_split) i j = true →
            j ∈ small_part)
       ∧ Forall (λ i, idata r !! i = Some 1%Z) small_part).
Proof.
  eexists. split; [vm_compute; reflexivity|]. split.
  - split_and!; [reflexivity..|].
    apply list_elem_of_lookup. by exists (6 * 23 + 6).
  - split_and!; [reflexivity| | |].
    + apply (bool_decide_unpack _). vm_compute. exact I.
    + intros i j Hi Hl.
      assert (Htable :
        List.forallb
          (λ i, List.forallb
                  (λ j, implb (linked (arr mask_split) i j)
                              (bool_decide (j ∈ small_part)))
                  (seq 0 391))
          small_part = true) by (vm_compute; reflexivity).
      rewrite List.forallb_forall in Htable.
      specialize (Htable i (proj1 (list_elem_of_In _ _) Hi)).
      rewrite List.forallb_forall in Htable.
      assert (j < 391) as Hj by (by apply linked_lt in Hl as [_ ?]).
      assert (j ∈ seq 0 391) as Hin by (apply elem_of_seq; lia).
      pose proof (Htable j (proj1 (list_elem_of_In _ _) Hin)) as Hij.
      rewrite Hl in Hij. by apply bool_decide_eq_true in Hij.
    + apply (bool_decide_unpack _). vm_compute. exact I.
Qed.

(** What the filter leaves of [mask_15x23]: object 1 alone. *)
Lemma filter_segmentation_mask_15x23 :
  idata <$> filter_segmentation mask_15x23
  = Ok ((λ i : nat, if decide (i / 23 = 6 ∧ 6 ≤ i mod 23 ≤ 16) then 1%Z else 0%Z)
          <$> seq 0 345).
Proof. vm_compute. reflexivity. Qed.


(** The run on the stored masks: the three masks and the two calls. *)
Lemma segmentation_stored_run :
  _segmentation world_stored image_dapi_tub []
  = (Ok (IArray uint8 (NDArray [1; 1; 2; 2] [1; 0; 0; 2]%Z),
         Some (IArray uint8 (NDArray [1; 1; 2; 2] [5; 5; 0; 6]%Z)),
         Some (IArray uint8 (NDArray [1; 1; 2; 2] [0; 5; 0; 0]%Z))),
     [ListChildren 1; GetImage 41]).
Proof. vm_compute. reflexivity. Qed.

Lemma segmentation_cyto_iff_cell_witness :
  ∃ n c cyto tr',
    _segmentation world_stored image_dapi_tub [] = (Ok (n, c, cyto), tr')
    ∧ (cyto = None ↔ c = None)
    ∧ (c = None ↔ has_key (channels image_dapi_tub) "Tub" = false).
Proof.
  eexists _, _, _, _. split; [exact segmentation_stored_run|].
  apply (segmentation_cyto_iff_cell world_stored image_dapi_tub [] _ _ _ _
           segmentation_stored_run).
Defined.

(** The fresh computation: the model is evaluated for both compartments at
    both timepoints, the masks are compacted to 8 bits and uploaded once. *)
Lemma segmentation_fresh_run :
  let out := _segmentation world_fresh image_dapi_tub [] in
  out.1 = Ok (zeros [2; 6; 6] uint8, Some (zeros [2; 6; 6] uint8),
              Some (zeros [2; 6; 6] uint8))
  ∧ length (filter (λ ev, is_model_eval ev = true) out.2) = 4
  ∧ filter (λ ev, is_upload ev = true) out.2
    = [UploadMasks 1 7 (zeros [2; 6; 6] uint8) (Some (zeros [2; 6; 6] uint8))].
Proof. vm_compute. done. Qed.

(** The same computation on a server that refuses the upload: the
    operation ends with the exception of the upload, after the upload was
    called with the compacted masks. *)
Lemma segmentation_upload_refused :
  let out := _segmentation world_upload_refused image_dapi_tub [] in
  out.1 = Raise ValueError
  ∧ length (filter (λ ev, is_model_eval ev = true) out.2) = 4
  ∧ last out.2
    = Some (UploadMasks 1 7 (zeros [2; 6; 6] uint8) (Some (zeros [2; 6; 6] uint8))).
Proof. vm_compute. done. Qed.

Lemma outer_merge_cell_cyto :
  _outer_merge cell_table cyto_table ["label"; "timepoint"]%string
  = Ok (DF [("label", DInt int64); ("area_cell", DFloat);
            ("timepoint", DInt int64); ("area_cyto", DFloat)]%string
           [[CInt 5; CFloat 50; CInt 0; CFloat 31];
            [CInt 5; CFloat 51; CInt 1; CFloat 30];
            [CInt 6; CFloat 60; CInt 0; CFloat 40]]).
Proof. vm_compute. reflexivity. Qed.

Lemma outer_merge_nucleus_overlay :
  _outer_merge nucleus_table overlay_table ["label"]%string
  = Ok (DF [("label", DInt int64); ("area_nucleus", DFloat);
            ("timepoint", DInt int64); ("Cyto_ID", DInt int64)]%string []).
Proof. vm_compute. reflexivity. Qed.

(** Without any overlapping pixel the overlay table has no rows and columns
    of type [object]; the join keeps the integer type of the [label] column
    of the nucleus table, and two rows without a [Cyto_ID]. *)
Lemma merge_outer_empty_overlay :
  merge_outer nucleus_table (overlay_frame []) ["label"]%string
  = Ok (DF [("label", DInt int64); ("area_nucleus", DFloat);
            ("timepoint", DInt int64); ("Cyto_ID", DObject)]%string
           [[CInt 1; CFloat 20; CInt 0; NaN]; [CInt 2; CFloat 30; CInt 0; NaN]]).
Proof. vm_compute. reflexivity. Qed.

(** The result then has no rows. *)
Lemma outer_merge_empty_overlay :
  _outer_merge nucleus_table (overlay_frame []) ["label"]%string
  = Ok (DF [("label", DInt int64); ("area_nucleus", DFloat);
            ("timepoint", DInt int64); ("Cyto_ID", DObject)]%string []).
Proof. vm_compute. reflexivity. Qed.

(** A join on no column at all is refused. *)
Lemma outer_merge_no_key :
  ∃ e, _outer_merge cell_table cyto_table [] = Raise e.
Proof. by eexists. Qed.

Lemma wf_frame_intro (df : DataFrame) :
  NoDup (columns df).*1 →
  Forall (λ row, Forall2 has_dtype (columns df).*2 row) (rows df) →
  wf_frame df.
Proof. by split. Qed.

Ltac frame_ok :=
  apply wf_frame_intro;
  [ apply (bool_decide_unpack _); vm_compute; exact I
  | repeat constructor; simpl; eauto ].

Ltac keys_ok :=
  repeat constructor; eexists; apply list_elem_of_lookup;
  first [ by exists 0 | by exists 1 | by exists 2 ].

Lemma outer_merge_reconciles_witness :
  (∃ df, _outer_merge nucleus_table overlay_table ["label"]%string = Ok df
     ∧ rows df = [])
  ∧ (∃ df, _outer_merge cell_table cyto_table ["label"; "timepoint"]%string = Ok df
       ∧ length (rows df) = length (rows cell_table)
       ∧ length (rows df) = length (rows cyto_table)
       ∧ ∀ name w,
           (name, DInt w) ∈ columns cell_table
           ∨ (name, DInt w) ∈ columns cyto_table →
           ∃ w', (name, DInt w') ∈ columns df).
Proof.
  split.
  - destruct (outer_merge_reconciles nucleus_table overlay_table ["label"]%string)
      as (lk & rk & Hlk & Hrk & Hdisjoint & _).
    + frame_ok.
    + frame_ok.
    + done.
    + keys_ok.
    + keys_ok.
    + intros name Hn1 Hn2. vm_compute in Hn1, Hn2. set_solver.
    + vm_compute in Hlk, Hrk. injection Hlk as <-. injection Hrk as <-.
      apply Hdisjoint.
      * intros k Hk1 Hk2. vm_compute in Hk1, Hk2. set_solver.
      * exists "area_nucleus"%string. vm_compute. set_solver.
      * exists "Cyto_ID"%string. vm_compute. set_solver.
  - destruct (outer_merge_reconciles cell_table cyto_table
                ["label"; "timepoint"]%string)
      as (lk & rk & Hlk & Hrk & _ & Hmatched).
    + frame_ok.
    + frame_ok.
    + done.
    + keys_ok.
    + keys_ok.
    + intros name Hn1 Hn2. vm_compute in Hn1, Hn2. set_solver.
    + vm_compute in Hlk, Hrk. injection Hlk as <-. injection Hrk as <-.
      apply Hmatched.
      * vm_compute. repeat (constructor; [set_solver|]). constructor.
      * vm_compute. repeat (constructor; [set_solver|]). constructor.
      * intros k. vm_compute. set_solver.
      * repeat constructor.
      * repeat constructor.
Defined.

(** C1 as stated fails for a table with a missing measurement.  The two
    tables are well formed and have the same three keys, each once, on the
    integer columns [label] and [timepoint], and share no other column; the
    area of object 6 is missing in the first table.  The result has two
    rows where each input has three: the row of object 6 is dropped. *)
Lemma outer_merge_drops_missing_input :
  wf_frame cell_table_missing ∧ wf_frame cyto_table
  ∧ key_positions (columns cell_table_missing) ["label"; "timepoint"]%string
    = Ok [0; 2]
  ∧ key_positions (columns cyto_table) ["label"; "timepoint"]%string = Ok [0; 2]
  ∧ NoDup (keys_of cell_table_missing [0; 2]) ∧ NoDup (keys_of cyto_table [0; 2])
  ∧ (∀ k, k ∈ keys_of cell_table_missing [0; 2] ↔ k ∈ keys_of cyto_table [0; 2])
  ∧ _outer_merge cell_table_missing cyto_table ["label"; "timepoint"]%string
    = Ok (DF [("label", DInt int64); ("area_cell", DFloat);
              ("timepoint", DInt int64); ("area_cyto", DFloat)]%string
             [[CInt 5; CFloat 50; CInt 0; CFloat 31];
              [CInt 5; CFloat 51; CInt 1; CFloat 30]])
  ∧ length (rows cell_table_missing) = 3 ∧ length (rows cyto_table) = 3.
Proof.
  split_and!.
  - frame_ok.
  - frame_ok.
  - reflexivity.
  - reflexivity.
  - vm_compute. repeat (constructor; [set_solver|]). constructor.
  - vm_compute. repeat (constructor; [set_solver|]). constructor.
  - intros k. vm_compute. set_solver.
  - vm_compute. reflexivity.
  - reflexivity.
  - reflexivity.
Qed.

(** * Further properties of the pipeline *)

(** ** Strings *)

Lemma append_cons (c : ascii) (s t : string) :
  String c s +:+ t = String c (s +:+ t).
Proof. done. Qed.

Lemma append_length (s t : string) :
  String.length (s +:+ t) = String.length s + String.length t.
Proof.
  induction s as [|c s IH]; [done|]. rewrite append_cons. simpl. by rewrite IH.
Qed.

Lemma append_assoc (s t u : string) : (s +:+ t) +:+ u = s +:+ t +:+ u.
Proof. induction s as [|c s IH]; [done|]. by rewrite !append_cons, IH. Qed.

Lemma append_inj_r (s1 s2 t : string) : s1 +:+ t = s2 +:+ t → s1 = s2.
Proof.
  revert s2. induction s1 as [|c s1 IH]; intros [|c' s2] H.
  - done.
  - apply (f_equal String.length) in H.
    rewrite !append_length in H. simpl in H. lia.
  - apply (f_equal String.length) in H.
    rewrite !append_length in H. simpl in H. lia.
  - rewrite !append_cons in H. injection H as -> H. f_equal. by apply IH.
Qed.

Lemma upper_ascii_space (c : ascii) :
  Ascii.eqb (upper_ascii c) " " = Ascii.eqb c " ".
Proof. by destruct c as [[] [] [] [] [] [] [] []]. Qed.

Lemma upper_ascii_idem (c : ascii) : upper_ascii (upper_ascii c) = upper_ascii c.
Proof. by destruct c as [[] [] [] [] [] [] [] []]. Qed.

Lemma upper_idem (s : string) : upper (upper s) = upper s.
Proof. induction s as [|c s IH]; simpl; [done|]. by rewrite upper_ascii_idem, IH. Qed.

Lemma upper_remove_spaces (s : string) :
  upper (remove_spaces s) = remove_spaces (upper s).
Proof.
  induction s as [|c s IH]; simpl; [done|].
  rewrite upper_ascii_space. destruct (Ascii.eqb c " "); simpl; by rewrite IH.
Qed.

Lemma remove_spaces_idem (s : string) :
  remove_spaces (remove_spaces s) = remove_spaces s.
Proof.
  induction s as [|c s IH]; simpl; [done|].
  destruct (Ascii.eqb c " ") eqn:E; simpl; [done|]. by rewrite E, IH.
Qed.

(** Removing the spaces and converting to upper case is a projection. *)
Lemma normalise_idem (s : string) :
  upper (remove_spaces (upper (remove_spaces s))) = upper (remove_spaces s).
Proof.
  by rewrite <- (upper_remove_spaces (remove_spaces s)), remove_spaces_idem, upper_idem.
Qed.

Lemma prefix_nil (s : string) : String.prefix "" s = true.
Proof. by destruct s. Qed.

Lemma contains_cons (n : string) (c : ascii) (s : string) :
  contains n s = true → contains n (String c s) = true.
Proof. intros H. simpl. rewrite H. apply orb_true_r. Qed.

Lemma prefix_contains (n s : string) :
  String.prefix n s = true → contains n s = true.
Proof. intros H. destruct s; simpl in *; by rewrite H. Qed.

Lemma prefix_remove_spaces (n s : string) :
  contains " " n = false → String.prefix n s = true →
  String.prefix n (remove_spaces s) = true.
Proof.
  revert s. induction n as [|a n IH]; intros s Hn Hp; [apply prefix_nil|].
  destruct s as [|b s]; [done|]. simpl in Hn, Hp.
  destruct (ascii_dec a b) as [<-|]; [|done].
  apply orb_false_elim in Hn as [Hn1 Hn2].
  destruct (ascii_dec " " a) as [<-|Hsp]; [by rewrite prefix_nil in Hn1|].
  simpl. destruct (Ascii.eqb_spec a " ") as [->|_]; [done|].
  simpl. destruct (ascii_dec a a); [|done]. by apply IH.
Qed.

(** A needle without spaces that occurs in a string occurs in it after its
    spaces are removed. *)
Lemma contains_remove_spaces (n s : string) :
  contains " " n = false → contains n s = true →
  contains n (remove_spaces s) = true.
Proof.
  intros Hn. induction s as [|b s IH]; intros Hc.
  - done.
  - change (contains n (String b s))
      with (String.prefix n (String b s) || contains n s) in Hc.
    apply orb_true_iff in Hc as [Hp|Hc].
    + by apply prefix_contains, prefix_remove_spaces.
    + simpl. destruct (Ascii.eqb b " "); [by apply IH|].
      by apply contains_cons, IH.
Qed.

(** ** Renaming of the measured features *)

Lemma foldl_dict_set_map {K V} `{EqDecision K} (f : K → V) (l : list K) d k :
  dict_get (foldl (λ d x, dict_set d x (f x)) d l) k
  = if decide (k ∈ l) then Some (f k) else dict_get d k.
Proof.
  revert d. induction l as [|x l IH]; intros d.
  - case_decide; [set_solver|done].
  - change (foldl ?g d (x :: l)) with (foldl g (g d x) l).
    rewrite IH, dict_get_set.
    repeat case_decide; set_solver.
Qed.

Lemma edit_properties_get (channel segment : string)
    (featurelist : list string) (feature : string) :
  dict_get (_edit_properties channel segment featurelist) feature
  = if decide (feature = "area"%string) then Some ("area_" +:+ segment)%string
    else if decide (feature ∈ drop 2 featurelist)
         then Some (feature +:+ "_" +:+ channel +:+ "_" +:+ segment)%string
         else None.
Proof.
  unfold _edit_properties. rewrite dict_get_set.
  case_decide; [done|]. by rewrite foldl_dict_set_map.
Qed.

(** X1: in the renaming dictionary of [_edit_properties] the key ["area"]
    always maps to [area_{segment}], whatever the channel and the feature
    list; every other feature after the first two of the list maps to
    [{feature}_{channel}_{segment}]; no other feature is a key, so the first
    two features are left alone unless they occur again later; and no key
    occurs twice. *)
Theorem edit_properties_lookup (channel segment : string) (featurelist : list string) :
  dict_get (_edit_properties channel segment featurelist) "area"
    = Some ("area_" +:+ segment)%string
  ∧ (∀ feature, feature ≠ "area"%string → feature ∈ drop 2 featurelist →
       dict_get (_edit_properties channel segment featurelist) feature
       = Some (feature +:+ "_" +:+ channel +:+ "_" +:+ segment)%string)
  ∧ (∀ feature, feature ≠ "area"%string → feature ∉ drop 2 featurelist →
       dict_get (_edit_properties channel segment featurelist) feature = None)
  ∧ NoDup (_edit_properties channel segment featurelist).*1.
Proof.
  split_and!.
  - by rewrite edit_properties_get.
  - intros feature Hne Hin. by rewrite edit_properties_get, decide_False, decide_True.
  - intros feature Hne Hin. by rewrite edit_properties_get, !decide_False.
  - unfold _edit_properties. apply dict_set_NoDup.
    generalize (drop 2 featurelist). intros l.
    assert (∀ d : list (string * string), NoDup d.*1 →
      NoDup (foldl (λ d feature,
               dict_set d feature
                 (feature +:+ "_" +:+ channel +:+ "_" +:+ segment)%string) d l).*1)
      as H; [|apply H; constructor].
    induction l as [|x l IH]; intros d Hd; simpl; [done|].
    by apply IH, dict_set_NoDup.
Qed.

Lemma no_underscore_in_area (f c : string) : (f +:+ "_" +:+ c)%string ≠ "area"%string.
Proof.
  destruct f as [|a1 [|a2 [|a3 [|a4 [|a5 f]]]]]; simpl; discriminate.
Qed.

(** X2: the renaming is injective: two different features never receive
    the same new name, so renaming cannot merge two columns. *)
Theorem edit_properties_injective (channel segment : string)
    (featurelist : list string) (f g name_f name_g : string) :
  f ≠ g →
  dict_get (_edit_properties channel segment featurelist) f = Some name_f →
  dict_get (_edit_properties channel segment featurelist) g = Some name_g →
  name_f ≠ name_g.
Proof.
  rewrite !edit_properties_get.
  assert (Harea : ∀ h, (h +:+ "_" +:+ channel +:+ "_" +:+ segment)%string
                       ≠ ("area_" +:+ segment)%string).
  { intros h Hh. apply (no_underscore_in_area h channel).
    apply (append_inj_r _ _ ("_" +:+ segment)%string).
    by rewrite !append_assoc. }
  intros Hfg Hf Hg <-.
  repeat case_decide; simplify_eq; try done.
  all: try (by eapply Harea).
  all: try (by symmetry in Hg; eapply Harea).
  apply Hfg. by eapply append_inj_r.
Qed.

(** ** Choice of the Cellpose model *)

(** X3: [_get_models] fails exactly when the normalised cell line names no
    magnification, is no key of [MODEL_DICT], and [MODEL_DICT] has no
    ["U2OS"] entry to fall back on; the failure is a [KeyError].  A model it
    returns is one of the two magnification models or a value of
    [MODEL_DICT]. *)
Theorem get_models_outcome (w : world) (self : Image) :
  let key := upper (remove_spaces (cell_line self)) in
  (_get_models w self = Raise KeyError ↔
     contains "40X" key = false ∧ contains "20X" key = false
     ∧ dict_get (MODEL_DICT w) key = None
     ∧ dict_get (MODEL_DICT w) "U2OS"%string = None)
  ∧ (∀ e, _get_models w self = Raise e → e = KeyError)
  ∧ (∀ m, _get_models w self = Ok m →
       m = "40x_Tub_H2B"%string ∨ m = "cyto"%string ∨ m ∈ (MODEL_DICT w).*2).
Proof.
  intros key. unfold _get_models. fold key.
  assert (Hval : ∀ k m, dict_get (MODEL_DICT w) k = Some m → m ∈ (MODEL_DICT w).*2).
  { intros k m. induction (MODEL_DICT w) as [|[k' v'] d IH]; csimpl; [done|].
    case_decide; [intros [= ->]; left|right; auto]. }
  unfold dict_lookup.
  destruct (contains "40X" key), (contains "20X" key),
    (dict_get (MODEL_DICT w) key) as [m0|] eqn:Ek,
    (dict_get (MODEL_DICT w) "U2OS"%string) as [m1|] eqn:Eu;
    split_and!; try naive_solver.
Qed.

(** X4: the model does not depend on the case of the letters of the cell
    line nor on its spaces: converting the cell line to upper case, removing
    its spaces, or both, leaves the answer of [_get_models] unchanged. *)
Theorem get_models_normalised (w : world) (self : Image) :
  _get_models w (with_cell_line (upper (cell_line self)) self) = _get_models w self
  ∧ _get_models w (with_cell_line (remove_spaces (cell_line self)) self)
    = _get_models w self
  ∧ _get_models w (with_cell_line (upper (remove_spaces (cell_line self))) self)
    = _get_models w self.
Proof.
  unfold _get_models, with_cell_line. simpl.
  rewrite normalise_idem, remove_spaces_idem.
  rewrite (upper_remove_spaces (upper _)), upper_idem, <- upper_remove_spaces.
  done.
Qed.

(** X5: the nucleus diameter and the cell model read the magnification
    from the cell line in two ways: [_n_segmentation] looks for ["40X"] in
    the upper-case cell line, [_get_models] removes the spaces first.  A
    diameter of 100 implies the 40x model and a diameter of 25 the 40x or the
    20x model; the converse fails: for the cell line ["U2OS 40 X"] the
    diameter is the default 10 while the cell model is the 40x one. *)
Theorem magnification_consistent (w : world) (self : Image) :
  (nuc_diameter self = 100%Z → _get_models w self = Ok "40x_Tub_H2B"%string)
  ∧ (nuc_diameter self = 25%Z →
     _get_models w self = Ok "40x_Tub_H2B"%string
     ∨ _get_models w self = Ok "cyto"%string)
  ∧ nuc_diameter (with_cell_line "U2OS 40 X" self) = 10%Z
  ∧ _get_models w (with_cell_line "U2OS 40 X" self) = Ok "40x_Tub_H2B"%string.
Proof.
  unfold nuc_diameter, _get_models. split_and!; [| |done..].
  - destruct (contains "40X" (upper (cell_line self))) eqn:E40.
    + intros _. rewrite upper_remove_spaces, contains_remove_spaces; done.
    + by destruct (contains "20X" (upper (cell_line self))).
  - destruct (contains "40X" (upper (cell_line self))) eqn:E40; [done|].
    destruct (contains "20X" (upper (cell_line self))) eqn:E20; [|done].
    intros _. rewrite upper_remove_spaces.
    rewrite (contains_remove_spaces "20X") by done.
    destruct (contains "40X" (remove_spaces _)); auto.
Qed.

(** ** Model evaluations per timepoint *)

Lemma emits_bind {A B} (Q : event → Prop) (m : run A) (f : A → run B) :
  emits Q m → (∀ a, emits Q (f a)) → emits Q (m ≫= f).
Proof.
  intros Hm Hf tr. unfold mbind, run_bind.
  destruct (Hm tr) as (es & Htr & Hes).
  destruct (m tr) as [[a|e] tr1]; simpl in *; subst.
  - destruct (Hf a (tr ++ es)) as (es' & -> & Hes').
    exists (es ++ es'). rewrite app_assoc. split; [done|]. by apply Forall_app.
  - by exists es.
Qed.

Lemma emits_lift {A} (Q : event → Prop) (r : result A) : emits Q (lift r).
Proof. intros tr. exists []. by rewrite app_nil_r. Qed.

Lemma emits_ret {A} (Q : event → Prop) (a : A) : emits Q (mret a : run A).
Proof. intros tr. exists []. by rewrite app_nil_r. Qed.

Lemma emits_emit (Q : event → Prop) (ev : event) : Q ev → emits Q (emit ev).
Proof. intros Hev tr. exists [ev]. split; [done|]. by constructor. Qed.

Lemma emits_for_each {S} (Q : event → Prop) (ts : list nat)
    (body : nat → S → run S) (s : S) :
  (∀ t s, emits Q (body t s)) → emits Q (for_each ts body s).
Proof.
  intros Hb. revert s. induction ts as [|t ts IH]; intros s; simpl.
  - apply emits_ret.
  - apply emits_bind; [apply Hb|apply IH].
Qed.

Lemma emits_weaken {A} (Q Q' : event → Prop) (m : run A) :
  (∀ ev, Q ev → Q' ev) → emits Q m → emits Q' m.
Proof.
  intros HQ Hm tr. destruct (Hm tr) as (es & ? & ?). exists es.
  split; [done|]. by eapply Forall_impl.
Qed.

Lemma emits_inv {A} (Q : event → Prop) (m : run A) tr res tr' :
  emits Q m → m tr = (res, tr') → ∃ es, tr' = tr ++ es ∧ Forall Q es.
Proof. intros Hm H. destruct (Hm tr) as (es & Htr & Hes). rewrite H in Htr. eauto. Qed.

Ltac emits_tac :=
  repeat first
    [ assumption
    | match goal with
      | |- emits _ (let '(_, _) := ?p in _) => destruct p
      end
    | apply emits_lift | apply emits_ret
    | apply emits_emit; done
    | apply emits_for_each; intros
    | apply emits_bind; [|intros] ].

(** The two segmentation loops record evaluations of the model and
    nothing else. *)
Lemma n_segmentation_emits (w : world) (self : Image) :
  emits (λ ev, is_model_eval ev = true) (_n_segmentation w self).
Proof. unfold _n_segmentation. emits_tac. Qed.

Lemma c_segmentation_emits (w : world) (self : Image) :
  emits (λ ev, is_model_eval ev = true) (_c_segmentation w self).
Proof. unfold _c_segmentation. emits_tac. case_decide; emits_tac. Qed.

Lemma run_bind_inv {A B} (m : run A) (f : A → run B) tr res tr' :
  (m ≫= f) tr = (res, tr') →
  (∃ a tr1, m tr = (Ok a, tr1) ∧ f a tr1 = (res, tr'))
  ∨ (∃ e, m tr = (Raise e, tr') ∧ res = Raise e).
Proof.
  unfold mbind, run_bind. destruct (m tr) as [[a|e] tr1]; [eauto|].
  intros [= <- <-]. eauto.
Qed.

(** A loop whose body keeps [P] and records one event [h x], where
    [g t = Ok x], per round. *)
Lemma for_each_Ok {S A} (P : S → Prop) (g : nat → result A) (h : A → event)
    (ts : list nat) (body : nat → S → run S) s tr s' tr' :
  (∀ t s tr s' tr', P s → body t s tr = (Ok s', tr') →
     P s' ∧ ∃ x, g t = Ok x ∧ tr' = tr ++ [h x]) →
  P s → for_each ts body s tr = (Ok s', tr') →
  P s' ∧ ∃ xs, mapM g ts = Ok xs ∧ tr' = tr ++ (h <$> xs).
Proof.
  intros Hb. revert s tr. induction ts as [|t ts IH]; intros s tr Hs H; simpl in H.
  - apply mret_Ok in H as [<- ->]. split; [done|]. exists []. by rewrite app_nil_r.
  - apply run_bind_Ok in H as (s1 & tr1 & H1 & H).
    destruct (Hb _ _ _ _ _ Hs H1) as (Hs1 & x & Hx & ->).
    destruct (IH _ _ Hs1 H) as (Hs' & xs & Hxs & ->).
    split; [done|]. exists (x :: xs). rewrite mapM_result_cons, Hx, Hxs.
    split; [done|]. by rewrite <- app_assoc.
Qed.

Lemma set_item_Ok (t : nat) (v a r : iarray) :
  set_item t v a = Ok r → dtype r = dtype a ∧ ishape r = ishape a.
Proof.
  unfold set_item. destruct (ishape a) as [|s sh] eqn:E; [done|].
  case_decide; [|done].
  destruct (broadcast_to sh (arr v)); simpl; [|done]. by intros [= <-].
Qed.

Lemma mapM_result_length {A B} (f : A → result B) (l : list A) (k : list B) :
  mapM f l = Ok k → length k = length l.
Proof.
  revert k. induction l as [|x l IH]; intros k; [by intros [= <-]|].
  rewrite mapM_result_cons. destruct (f x); [|done].
  destruct (mapM f l) as [k'|]; [|done]. intros [= <-]. simpl. by rewrite (IH k').
Qed.

Lemma n_segmentation_Ok (w : world) (self : Image) tr masks tr' :
  _n_segmentation w self tr = (Ok masks, tr') →
  ∃ model img_array timepoints imgs,
    dict_lookup (MODEL_DICT w) "nuclei" = Ok model
    ∧ dict_lookup (img_dict self) "DAPI" = Ok img_array
    ∧ first_axis img_array = Ok timepoints
    ∧ mapM (λ t, get_item t img_array) (seq 0 timepoints) = Ok imgs
    ∧ tr' = tr ++ ((λ img, ModelEval (ModelCall model (scale_img w img) (0, 0)
                                       (Some (nuc_diameter self)))) <$> imgs)
    ∧ dtype masks = uint32 ∧ ishape masks = shape img_array.
Proof.
  unfold _n_segmentation. intros H.
  apply run_bind_Ok in H as (model & ? & [Hm ->]%lift_Ok & H).
  apply run_bind_Ok in H as (img_array & ? & [Hd ->]%lift_Ok & H).
  apply run_bind_Ok in H as (timepoints & ? & [Ht ->]%lift_Ok & H).
  exists model, img_array, timepoints.
  eapply (for_each_Ok (λ s, dtype s = uint32 ∧ ishape s = shape img_array)
            (λ t, get_item t img_array)) in H as ((Hdt & Hsh) & imgs & Himgs & ->).
  - exists imgs. by split_and!.
  - clear. intros t s tr s' tr' [Hdt Hsh] H. run_inv H.
    apply set_item_Ok in H as [-> ->]. split; [done|]. eauto.
  - done.
Qed.

(** X6: when [_n_segmentation] returns a mask, it has evaluated the model
    once per timepoint of the DAPI image and in the order of the timepoints,
    each time the model [MODEL_DICT["nuclei"]] on the rescaled image of the
    timepoint, with the channels [[0, 0]] and the diameter that the cell
    line implies; nothing else was recorded.  The mask is a [uint32] array
    of the shape of the DAPI image. *)
Theorem n_segmentation_evaluations (w : world) (self : Image) tr masks tr' :
  _n_segmentation w self tr = (Ok masks, tr') →
  ∃ model img_array timepoints imgs,
    dict_lookup (MODEL_DICT w) "nuclei" = Ok model
    ∧ dict_lookup (img_dict self) "DAPI" = Ok img_array
    ∧ first_axis img_array = Ok timepoints
    ∧ mapM (λ t, get_item t img_array) (seq 0 timepoints) = Ok imgs
    ∧ length imgs = timepoints
    ∧ tr' = tr ++ ((λ img, ModelEval (ModelCall model (scale_img w img) (0, 0)
                                       (Some (nuc_diameter self)))) <$> imgs)
    ∧ dtype masks = uint32 ∧ ishape masks = shape img_array.
Proof.
  intros H.
  destruct (n_segmentation_Ok _ _ _ _ _ H)
    as (model & img_array & timepoints & imgs & ? & ? & ? & Himgs & ? & ? & ?).
  exists model, img_array, timepoints, imgs. split_and!; try done.
  apply mapM_result_length in Himgs. by rewrite length_seq in Himgs.
Qed.

(** X7: only [IndexError] is caught.  When the model fails with another
    exception at the first timepoint, [_n_segmentation] ends with that
    exception after this one evaluation: no fallback mask is used and no
    later timepoint is evaluated. *)
Theorem n_segmentation_other_error (w : world) (self : Image) tr
    model img_array img_0 (e : exn) :
  dict_lookup (MODEL_DICT w) "nuclei" = Ok model →
  dict_lookup (img_dict self) "DAPI" = Ok img_array →
  get_item 0 img_array = Ok img_0 →
  cellpose_eval w (ModelCall model (scale_img w img_0) (0, 0)
                     (Some (nuc_diameter self))) = Raise e →
  e ≠ IndexError →
  _n_segmentation w self tr
  = (Raise e, tr ++ [ModelEval (ModelCall model (scale_img w img_0) (0, 0)
                                  (Some (nuc_diameter self)))]).
Proof.
  intros Hm Hd Hi He Hne. unfold _n_segmentation.
  unfold mbind at 1, run_bind, lift. rewrite Hm.
  unfold mbind at 1, run_bind. rewrite Hd.
  assert (∃ s sh, shape img_array = S s :: sh) as (s & sh & Hsh).
  { unfold get_item in Hi. destruct (shape img_array) as [|[|s] sh]; [done| |eauto].
    by rewrite decide_False in Hi by lia. }
  unfold first_axis. rewrite Hsh.
  unfold mbind at 1, run_bind. simpl.
  unfold mbind, run_bind, emit. rewrite Hi, He.
  by destruct e.
Qed.

(** X8: when [_c_segmentation] returns a mask, the DAPI and Tub images
    have the same number of timepoints and the model chosen by
    [_get_models] was evaluated once per timepoint, in order, on the rescaled
    composite [dstack] of the two images of the timepoint, with the channels
    [[2, 1]] and without a diameter.  The mask is a [uint32] array of the
    shape of the DAPI image. *)
Theorem c_segmentation_evaluations (w : world) (self : Image) tr masks tr' :
  _c_segmentation w self tr = (Ok masks, tr') →
  ∃ model dapi_array tub_array timepoints imgs,
    _get_models w self = Ok model
    ∧ dict_lookup (img_dict self) "DAPI" = Ok dapi_array
    ∧ dict_lookup (img_dict self) "Tub" = Ok tub_array
    ∧ first_axis dapi_array = Ok timepoints
    ∧ first_axis tub_array = Ok timepoints
    ∧ mapM (λ t, dapi_t ← get_item t dapi_array;
                 tub_t ← get_item t tub_array;
                 dstack dapi_t tub_t) (seq 0 timepoints) = Ok imgs
    ∧ tr' = tr ++ ((λ img, ModelEval (ModelCall model (scale_img w img) (2, 1) None))
                     <$> imgs)
    ∧ dtype masks = uint32 ∧ ishape masks = shape dapi_array.
Proof.
  unfold _c_segmentation. intros H.
  apply run_bind_Ok in H as (model & ? & [Hm ->]%lift_Ok & H).
  apply run_bind_Ok in H as (dapi_array & ? & [Hd ->]%lift_Ok & H).
  apply run_bind_Ok in H as (tub_array & ? & [Ht ->]%lift_Ok & H).
  apply run_bind_Ok in H as (timepoints & ? & [H1 ->]%lift_Ok & H).
  apply run_bind_Ok in H as (t_tub & ? & [H2 ->]%lift_Ok & H).
  case_decide as Heq; [subst t_tub|done].
  exists model, dapi_array, tub_array, timepoints.
  eapply (for_each_Ok (λ s, dtype s = uint32 ∧ ishape s = shape dapi_array)
            (λ t, dapi_t ← get_item t dapi_array;
                  tub_t ← get_item t tub_array;
                  dstack dapi_t tub_t))
    in H as ((Hdt & Hsh) & imgs & Himgs & ->).
  - exists imgs. by split_and!.
  - clear. intros t s tr s' tr' [Hdt Hsh] H. run_inv H.
    apply set_item_Ok in H as [-> ->]. split; [done|].
    eexists. rewrite Hstep, Hstep0. simpl. split; [exact Hstep1|done].
  - done.
Qed.

(** X9: when the DAPI and Tub images differ in their number of
    timepoints, [_c_segmentation] fails with [AssertionError] before any
    evaluation of the model.  In a fresh segmentation the nuclei have been
    segmented by then: [_segmentation] ends with [AssertionError] right after
    the evaluations of the nucleus model, and uploads nothing. *)
Theorem c_segmentation_time_mismatch (w : world) (self : Image) tr
    model dapi_array tub_array (t_dapi t_tub : nat) n_mask tr_n :
  _get_models w self = Ok model →
  dict_lookup (img_dict self) "DAPI" = Ok dapi_array →
  dict_lookup (img_dict self) "Tub" = Ok tub_array →
  first_axis dapi_array = Ok t_dapi → first_axis tub_array = Ok t_tub →
  t_dapi ≠ t_tub →
  stored_segmentation w self = None → has_key (channels self) "Tub" = true →
  _n_segmentation w self (tr ++ [ListChildren (dataset_id self)]) = (Ok n_mask, tr_n) →
  (∀ tr0, _c_segmentation w self tr0 = (Raise AssertionError, tr0))
  ∧ _segmentation w self tr = (Raise AssertionError, tr_n).
Proof.
  intros Hm Hd Ht H1 H2 Hne Hst Hk Hn.
  assert (Hc : ∀ tr0, _c_segmentation w self tr0 = (Raise AssertionError, tr0)).
  { intros tr0. unfold _c_segmentation.
    unfold mbind, run_bind, lift. rewrite Hm, Hd, Ht, H1, H2.
    by rewrite decide_False. }
  split; [done|].
  unfold stored_segmentation in Hst. unfold _segmentation. rewrite Hst, Hk.
  unfold mbind at 1, run_bind, emit.
  unfold mbind at 1, run_bind. rewrite Hn.
  unfold mbind at 1, run_bind.
  unfold mbind at 1, run_bind. by rewrite Hc.
Qed.

(** ** Stored and uploaded masks *)

(** X10: [_segmentation] calls the upload at most once and as its last
    action.  With stored masks it never does.  Without stored masks, a
    result means that the nucleus and cell masks it returns were uploaded
    and that the upload succeeded; a failure means that either the upload
    was never called, or it was called on the freshly computed masks and
    raised the exception [_segmentation] ends with. *)
Theorem segmentation_uploads (w : world) (self : Image) (tr : list event) :
  ∃ calls ups,
    Forall (λ ev, is_upload ev = false) calls
    ∧ (_segmentation w self tr).2 = tr ++ calls ++ ups
    ∧ match stored_segmentation w self, (_segmentation w self tr).1 with
      | Some _, _ => ups = []
      | None, Ok (n_mask, c_mask, _) =>
          ups = [UploadMasks (dataset_id self) (image_id self) n_mask c_mask]
          ∧ upload_masks w (dataset_id self) (image_id self) n_mask c_mask = Ok ()
      | None, Raise e =>
          ups = []
          ∨ ∃ n_mask c_mask,
              ups = [UploadMasks (dataset_id self) (image_id self) n_mask c_mask]
              ∧ upload_masks w (dataset_id self) (image_id self) n_mask c_mask
                = Raise e
      end.
Proof.
  destruct (_segmentation w self tr) as [res tr'] eqn:E. simpl.
  unfold _segmentation in E. unfold stored_segmentation.
  assert (Hn_emits : emits (λ ev, is_upload ev = false) (_n_segmentation w self)).
  { eapply emits_weaken; [|apply n_segmentation_emits]. by intros []. }
  assert (Hc_emits : emits (λ ev, is_upload ev = false) (_c_segmentation w self)).
  { eapply emits_weaken; [|apply c_segmentation_emits]. by intros []. }
  apply run_bind_inv in E as [(? & tr1 & ->%emit_Ok & E)|(e & [=] & _)].
  destruct (list_find _ _) as [[i [name found_id]]|].
  - apply run_bind_inv in E as [(? & tr2 & ->%emit_Ok & E)|(e & [=] & _)].
    eapply (emits_inv (λ ev, is_upload ev = false)) in E as (es & -> & Hes).
    2:{ destruct (has_key (channels self) "Tub"); emits_tac. }
    exists ([ListChildren (dataset_id self); GetImage found_id] ++ es), [].
    split; [by repeat constructor|]. split; [|done].
    rewrite <- !app_assoc. simpl. by rewrite app_nil_r.
  - apply run_bind_inv in E as [(n0 & tr2 & Hn & E)|(e & Hn & ->)];
      destruct (emits_inv _ _ _ _ _ Hn_emits Hn) as (es_n & -> & Hes_n).
    2:{ exists (ListChildren (dataset_id self) :: es_n), [].
        split; [by constructor|]. split; [|by left].
        by rewrite app_nil_r, <- app_assoc. }
    assert (Hb_emits : emits (λ ev, is_upload ev = false)
      (if has_key (channels self) "Tub"
       then
         c_mask ← _c_segmentation w self;
         stacked ← lift (stack n0 c_mask);
         compacted ← lift (_compact_mask stacked);
         '(n_mask, c_mask) ← lift (unpack2 compacted);
         cyto_mask ← lift (_get_cyto n_mask c_mask);
         mret (n_mask, Some c_mask, Some cyto_mask)
       else
         n_mask ← lift (_compact_mask n0);
         mret (n_mask, None, None))).
    { destruct (has_key (channels self) "Tub"); emits_tac. }
    apply run_bind_inv in E as [([[n1 c1] cy1] & tr3 & Hb & E)|(e & Hb & ->)];
      destruct (emits_inv _ _ _ _ _ Hb_emits Hb) as (es_b & -> & Hes_b).
    2:{ exists (ListChildren (dataset_id self) :: es_n ++ es_b), [].
        split; [constructor; [done|by apply Forall_app]|]. split; [|by left].
        by rewrite app_nil_r, <- !app_assoc. }
    apply run_bind_inv in E as [(? & tr4 & ->%emit_Ok & E)|(e & [=] & _)].
    exists (ListChildren (dataset_id self) :: es_n ++ es_b),
           [UploadMasks (dataset_id self) (image_id self) n1 c1].
    split; [constructor; [done|by apply Forall_app]|].
    unfold mbind, run_bind, lift in E.
    destruct (upload_masks w (dataset_id self) (image_id self) n1 c1)
      as [[]|e] eqn:Hup; injection E as <- <-.
    + split; [simpl; by rewrite <- !app_assoc|done].
    + split; [simpl; by rewrite <- !app_assoc|]. right. eauto.
Qed.

Lemma compact_mask_Ok (mask r : iarray) :
  _compact_mask mask = Ok r →
  ishape r = ishape mask
  ∧ (dtype r = uint8 ∨ dtype r = uint16 ∨ dtype r = dtype mask).
Proof.
  unfold _compact_mask. destruct (np_max mask) as [m|]; simpl; [|done].
  repeat case_match; intros [= <-]; auto.
Qed.

Lemma get_item_shape {A} (t : nat) (a r : ndarray A) :
  get_item t a = Ok r → ∃ s, shape a = s :: shape r.
Proof.
  unfold get_item. destruct (shape a) as [|s sh]; [done|].
  case_decide; [|done]. intros [= <-]. eauto.
Qed.

Lemma unpack2_Ok (a x y : iarray) :
  unpack2 a = Ok (x, y) →
  dtype x = dtype a ∧ dtype y = dtype a
  ∧ ishape a = 2 :: ishape x ∧ ishape y = ishape x.
Proof.
  unfold unpack2. destruct (ishape a) as [|s sh] eqn:Hsh; [done|].
  case_decide; [subst s|done].
  destruct (get_item 0 (arr a)) as [x0|] eqn:Hx; simpl; [|done].
  destruct (get_item 1 (arr a)) as [y0|] eqn:Hy; simpl; [|done].
  intros [= <- <-]. unfold ishape in *. simpl.
  apply get_item_shape in Hx as [s Hx]. apply get_item_shape in Hy as [s' Hy].
  split_and!; [done|done|congruence|congruence].
Qed.

Lemma get_cyto_Ok_same_shape (n c r : iarray) :
  ishape n = ishape c → _get_cyto n c = Ok r →
  dtype r = dtype c ∧ ishape r = ishape c.
Proof.
  unfold _get_cyto, mul_bool, broadcast2, ishape. simpl. intros ->.
  rewrite broadcast_shapes_same. simpl. rewrite broadcast_shapes_same. simpl.
  rewrite broadcast_shapes_same. simpl. by intros [= <-].
Qed.

(** X11: freshly computed masks agree in type and shape: the nucleus mask
    has the shape of the DAPI image and an unsigned type of 8, 16 or 32
    bits, and the cell and cytoplasm masks, when there are any, have the
    type and the shape of the nucleus mask. *)
Theorem segmentation_fresh_masks (w : world) (self : Image) tr n c cyto tr' :
  stored_segmentation w self = None →
  _segmentation w self tr = (Ok (n, c, cyto), tr') →
  (dtype n = uint8 ∨ dtype n = uint16 ∨ dtype n = uint32)
  ∧ (∃ img_array, dict_lookup (img_dict self) "DAPI" = Ok img_array
       ∧ ishape n = shape img_array)
  ∧ (∀ c_mask, c = Some c_mask →
       dtype c_mask = dtype n ∧ ishape c_mask = ishape n)
  ∧ (∀ cyto_mask, cyto = Some cyto_mask →
       dtype cyto_mask = dtype n ∧ ishape cyto_mask = ishape n).
Proof.
  unfold stored_segmentation, _segmentation. intros -> H.
  apply run_bind_Ok in H as (? & tr1 & _ & H).
  apply run_bind_Ok in H as (n0 & tr2 & Hn & H).
  apply n_segmentation_Ok in Hn
    as (model & img_array & T & imgs & _ & Hd & _ & _ & _ & Hdt & Hsh).
  apply run_bind_Ok in H as ([[n1 c1] cy1] & tr3 & Hb & H).
  run_inv H. simplify_eq.
  destruct (has_key (channels self) "Tub").
  - apply run_bind_Ok in Hb as (c0 & tr4 & _ & Hb).
    apply run_bind_Ok in Hb as (st & ? & [Hst ->]%lift_Ok & Hb).
    apply run_bind_Ok in Hb as (cm & ? & [Hcm ->]%lift_Ok & Hb).
    apply run_bind_Ok in Hb as ([n2 c2] & ? & [Hun ->]%lift_Ok & Hb).
    apply run_bind_Ok in Hb as (cy & ? & [Hcy ->]%lift_Ok & Hb).
    apply mret_Ok in Hb as [Hb _]. simplify_eq.
    unfold stack in Hst. case_decide as Hsame; [|done]. injection Hst as <-.
    apply compact_mask_Ok in Hcm as [Hcs Hcd]. simpl in Hcd.
    apply unpack2_Ok in Hun as (Hxn & Hxc & Hxs & Hys).
    rewrite Hcs in Hxs. unfold ishape at 1 in Hxs. simpl in Hxs.
    injection Hxs as Hxs.
    apply get_cyto_Ok_same_shape in Hcy as [Hcyd Hcys]; [|done].
    split_and!.
    + rewrite Hxn. rewrite Hdt in Hcd. done.
    + exists img_array. split; [done|]. congruence.
    + intros ? [= <-]. split; congruence.
    + intros ? [= <-]. split; congruence.
  - apply run_bind_Ok in Hb as (cm & ? & [Hcm ->]%lift_Ok & Hb).
    apply mret_Ok in Hb as [Hb _]. simplify_eq.
    apply compact_mask_Ok in Hcm as [Hcs Hcd].
    split_and!; [by rewrite <- Hdt|exists img_array; split; congruence|done..].
Qed.

(** X12: among several children named ["{image_id}_segmentation"] the
    first one in the listing is used: it is the only image loaded, whatever
    the outcome. *)
Theorem segmentation_first_child (w : world) (self : Image) (tr : list event)
    (pre post : list (string * Z)) (found_id : Z) :
  list_children w (dataset_id self)
  = pre ++ ((str (image_id self) +:+ "_segmentation")%string, found_id) :: post →
  (str (image_id self) +:+ "_segmentation")%string ∉ pre.*1 →
  stored_segmentation w self
  = Some (length pre, ((str (image_id self) +:+ "_segmentation")%string, found_id))
  ∧ (_segmentation w self tr).2
    = tr ++ [ListChildren (dataset_id self); GetImage found_id].
Proof.
  intros Hch Hpre.
  assert (Hst : stored_segmentation w self
    = Some (length pre, ((str (image_id self) +:+ "_segmentation")%string, found_id))).
  { unfold stored_segmentation. apply list_find_Some. rewrite Hch. split_and!.
    - by rewrite lookup_app_r, Nat.sub_diag.
    - done.
    - intros j y Hj Hlt Hy. rewrite lookup_app_l in Hj by done.
      apply Hpre, list_elem_of_fmap. exists y. split; [done|].
      by eapply list_elem_of_lookup_2. }
  split; [done|]. unfold stored_segmentation in Hst.
  unfold _segmentation. rewrite Hst.
  unfold mbind, run_bind, emit, lift, mret, run_ret. simpl.
  rewrite <- app_assoc. simpl.
  destruct (get_image w found_id) as [masks|]; simpl; [|done].
  destruct (has_key (channels self) "Tub").
  - destruct (channel_of 0 masks); simpl; [|done].
    destruct (channel_of 1 masks); simpl; [|done].
    by destruct (_get_cyto _ _).
  - by destruct (channel_of 0 masks).
Qed.

(** X13: stored masks with a single channel do not serve an image with a
    ["Tub"] channel: reading the cell channel fails with [IndexError], and
    [_segmentation] ends there without computing fresh masks. *)
Theorem segmentation_stored_single_channel (w : world) (self : Image)
    (tr : list event) (i : nat) (name : string) (found_id : Z) (masks : iarray)
    (sh : list nat) :
  stored_segmentation w self = Some (i, (name, found_id)) →
  get_image w found_id = Ok masks → ishape masks = sh ++ [1] →
  has_key (channels self) "Tub" = true →
  _segmentation w self tr
  = (Raise IndexError, tr ++ [ListChildren (dataset_id self); GetImage found_id]).
Proof.
  intros Hst Hg Hsh Hk. unfold stored_segmentation in Hst.
  unfold _segmentation. rewrite Hst, Hk.
  unfold mbind, run_bind, emit, lift. rewrite Hg. rewrite <- app_assoc. simpl.
  unfold channel_of, take_last. unfold ishape in Hsh. rewrite Hsh, reverse_snoc.
  simpl. done.
Qed.

(** ** Post-filtering, once more *)

Lemma length_cleared_data (mask : iarray) :
  length (cleared_data mask) = length (idata mask).
Proof. unfold cleared_data. by rewrite length_imap. Qed.

Lemma length_filtered_data (mask : iarray) :
  length (filtered_data mask) = length (idata mask).
Proof.
  unfold filtered_data. rewrite length_zip_with, length_fmap, length_cleared_data. lia.
Qed.

(** A pixel of the filtered mask: the pixel of the mask when
    [clear_border] left it and its label keeps more than 10 pixels, else
    0. *)
Lemma filtered_data_lookup (mask : iarray) (i : nat) (v : Z) :
  idata mask !! i = Some v →
  ∃ c, cleared_data mask !! i = Some c ∧ (c = v ∨ c = 0%Z)
    ∧ filtered_data mask !! i = Some (if kept mask c then v else 0%Z).
Proof.
  intros Hv.
  assert (is_Some (cleared_data mask !! i)) as [c Hc].
  { apply lookup_lt_is_Some. rewrite length_cleared_data. by eapply lookup_lt_Some. }
  exists c. split; [done|]. split.
  - exact (Forall2_lookup_lr _ _ _ _ _ _ (cleared_data_Forall2 mask) Hv Hc).
  - unfold filtered_data. rewrite lookup_zip_with, Hv, list_lookup_fmap, Hc. simpl.
    f_equal. destruct (kept mask c); simpl; lia.
Qed.

Lemma filtered_data_nonzero (mask : iarray) (i : nat) (x : Z) :
  filtered_data mask !! i = Some x → x ≠ 0%Z →
  idata mask !! i = Some x ∧ cleared_data mask !! i = Some x
  ∧ 10 < area (cleared_data mask) x.
Proof.
  intros Hx Hne.
  assert (is_Some (idata mask !! i)) as [v Hv].
  { apply lookup_lt_is_Some. rewrite <- length_filtered_data. by eapply lookup_lt_Some. }
  destruct (filtered_data_lookup mask i v Hv) as (c & Hc & Hcv & Hr).
  rewrite Hx in Hr. injection Hr as ->.
  destruct (kept mask c) eqn:Hk; [|done].
  unfold kept in Hk. apply andb_true_iff in Hk as [Hc0 Hk].
  destruct (Z.eqb_spec c 0); [done|].
  destruct Hcv as [->|]; [|done].
  split_and!; [done..|]. by apply Nat.ltb_lt.
Qed.

Lemma area_mono (l l' : list Z) (label : Z) :
  Forall2 (λ a b, a = label → b = label) l l' → area l label ≤ area l' label.
Proof.
  unfold area. induction 1 as [|a b l l' Hab _ IH]; [done|].
  rewrite !filter_cons. repeat case_decide; simpl; lia.
Qed.

Lemma filtered_data_area (mask : iarray) (label : Z) :
  label ≠ 0%Z → label ∈ filtered_data mask → 10 < area (filtered_data mask) label.
Proof.
  intros Hne [i Hi]%list_elem_of_lookup.
  destruct (filtered_data_nonzero _ _ _ Hi Hne) as (_ & _ & Harea).
  eapply Nat.lt_le_trans; [exact Harea|]. apply area_mono.
  apply Forall2_same_length_lookup_2.
  { by rewrite length_cleared_data, length_filtered_data. }
  intros j c x Hc Hx ->.
  assert (is_Some (idata mask !! j)) as [v Hv].
  { apply lookup_lt_is_Some. rewrite <- length_cleared_data. by eapply lookup_lt_Some. }
  destruct (filtered_data_lookup mask j v Hv) as (c' & Hc' & Hcv & Hr).
  rewrite Hc in Hc'. injection Hc' as <-. rewrite Hx in Hr. injection Hr as ->.
  destruct Hcv as [->|]; [|done].
  unfold kept. destruct (Z.eqb_spec v 0); [done|]. simpl.
  by apply Nat.ltb_lt in Harea as ->.
Qed.

(** X14: [filter_segmentation] only removes: the result has the type and
    the shape of the mask, every pixel of it is the pixel of the mask or 0,
    and every label that is left has more than 10 pixels in the result. *)
Theorem filter_segmentation_keeps (mask : iarray) :
  wf_array (arr mask) → 1 ≤ length (ishape mask) ≤ 3 →
  Forall (λ s, 5 < s) (ishape mask) → Forall (λ z, (0 ≤ z)%Z) (idata mask) →
  ∃ r, filter_segmentation mask = Ok r
    ∧ dtype r = dtype mask ∧ ishape r = ishape mask
    ∧ Forall2 (λ v x, x = v ∨ x = 0%Z) (idata mask) (idata r)
    ∧ (∀ label, label ≠ 0%Z → label ∈ idata r → 10 < area (idata r) label).
Proof.
  intros Hwf Hnd Hsh Hpos. rewrite filter_segmentation_closed by done.
  eexists. split; [done|]. rewrite idata_mk. fold (filtered_data mask).
  split_and!; [done..| |].
  - apply Forall2_same_length_lookup_2; [by rewrite length_filtered_data|].
    intros i v x Hv Hx.
    destruct (filtered_data_lookup mask i v Hv) as (c & _ & _ & Hr).
    rewrite Hx in Hr. injection Hr as ->. destruct (kept mask c); auto.
  - intros label. apply filtered_data_area.
Qed.

Lemma grow_empty (labels : ndarray Z) : grow labels ∅ = ∅.
Proof.
  unfold grow. rewrite elements_empty. simpl.
  rewrite filter_none; [set_solver|]. apply Forall_forall. by intros.
Qed.

Lemma flood_empty (fuel : nat) (labels : ndarray Z) : flood fuel labels ∅ = ∅.
Proof.
  destruct fuel as [|fuel]; simpl; [done|].
  by rewrite decide_True by apply grow_empty.
Qed.

(** A non-background pixel of the border region belongs to
    [border_objects]. *)
Lemma border_objects_seed (labels : ndarray Z) (ext i : nat) :
  in_border ext (shape labels) i = true → is_object labels i = true →
  i ∈ border_objects labels ext.
Proof. intros Hb Ho. by eapply border_objects_complete. Qed.

(** No object of a filtered mask reaches into the border region. *)
Lemma filtered_border_objects (mask : iarray) :
  border_objects (NDArray (ishape mask) (filtered_data mask)) 6 = ∅.
Proof.
  unfold border_objects. simpl.
  rewrite filter_none; [apply flood_empty|].
  apply Forall_forall. intros i _ Hi. apply andb_true_iff in Hi as [Hb Ho].
  unfold is_object in Ho. simpl in Ho.
  destruct (filtered_data mask !! i) as [x|] eqn:Hx; [|done].
  destruct (Z.eqb_spec x 0) as [|Hne]; [done|].
  destruct (filtered_data_nonzero _ _ _ Hx Hne) as (Hv & Hc & _).
  unfold cleared_data in Hc. rewrite list_lookup_imap, Hv in Hc. simpl in Hc.
  rewrite decide_True in Hc; [by simplify_eq|].
  apply border_objects_seed; [done|].
  unfold is_object. unfold idata in Hv. rewrite Hv. by destruct (Z.eqb_spec x 0).
Qed.

(** X15: [filter_segmentation] is idempotent: filtering a filtered mask
    returns it unchanged. *)
Theorem filter_segmentation_idempotent (mask r : iarray) :
  wf_array (arr mask) → 1 ≤ length (ishape mask) ≤ 3 →
  Forall (λ s, 5 < s) (ishape mask) → Forall (λ z, (0 ≤ z)%Z) (idata mask) →
  filter_segmentation mask = Ok r → filter_segmentation r = Ok r.
Proof.
  intros Hwf Hnd Hsh Hpos. rewrite filter_segmentation_closed by done.
  fold (filtered_data mask). intros [= <-].
  assert (Hc : cleared_data
                 (IArray (dtype mask) (NDArray (ishape mask) (filtered_data mask)))
               = filtered_data mask).
  { unfold cleared_data. rewrite idata_mk. simpl. rewrite filtered_border_objects.
    apply list_eq. intros i. rewrite list_lookup_imap.
    by destruct (filtered_data mask !! i). }
  rewrite filter_segmentation_closed.
  - rewrite Hc, idata_mk. do 3 f_equal.
    apply list_eq. intros i. rewrite lookup_zip_with, list_lookup_fmap.
    destruct (filtered_data mask !! i) as [x|] eqn:Hx; simpl; [|done].
    f_equal. unfold kept. rewrite Hc.
    destruct (Z.eqb_spec x 0) as [->|Hne]; simpl; [done|].
    assert (10 < area (filtered_data mask) x) as ->%Nat.ltb_lt; [|simpl; lia].
    apply filtered_data_area; [done|]. by eapply list_elem_of_lookup_2.
  - unfold wf_array in *. simpl. rewrite length_filtered_data. done.
  - done.
  - done.
  - rewrite idata_mk.
    apply Forall_lookup. intros i x Hx.
    destruct (decide (x = 0%Z)) as [->|Hne]; [done|].
    destruct (filtered_data_nonzero _ _ _ Hx Hne) as (Hv & _ & _).
    eapply (proj1 (Forall_lookup _ _) Hpos); eauto.
Qed.

(** X16: a mask of non-negative labels with one to three axes is filtered
    if and only if every axis is longer than the buffer of 5 pixels;
    otherwise [filter_segmentation] fails, with [ValueError]. *)
Theorem filter_segmentation_defined (mask : iarray) :
  wf_array (arr mask) → 1 ≤ length (ishape mask) ≤ 3 →
  Forall (λ z, (0 ≤ z)%Z) (idata mask) →
  (Forall (λ s, 5 < s) (ishape mask) ↔ ∃ r, filter_segmentation mask = Ok r)
  ∧ (∀ e, filter_segmentation mask = Raise e →
       e = ValueError ∧ Exists (λ s, s ≤ 5) (ishape mask)).
Proof.
  intros Hwf Hnd Hpos.
  destruct (decide (Forall (λ s, 5 < s) (ishape mask))) as [Hsh|Hsh].
  - rewrite filter_segmentation_closed by done. split; [|done].
    split; [eauto|done].
  - assert (Exists (λ s, s ≤ 5) (ishape mask)) as Hex.
    { apply not_Forall_Exists in Hsh; [|apply _].
      eapply Exists_impl; [exact Hsh|]. simpl. lia. }
    assert (filter_segmentation mask = Raise ValueError) as ->.
    { unfold filter_segmentation, clear_border.
      assert (List.existsb (λ s, s <=? 5) (ishape mask) = true) as ->; [|done].
      apply List.existsb_exists. apply Exists_exists in Hex as (s & Hin & Hs).
      exists s. split; [by apply list_elem_of_In|]. by apply Nat.leb_le. }
    split; [|by intros e [= <-]]. split; [done|]. by intros [r ?].
Qed.

(** ** Compaction, once more *)

Lemma wrap_idem (dt : int_dtype) (z : Z) : wrap dt (wrap dt z) = wrap dt z.
Proof.
  unfold wrap. destruct dt; simpl;
    rewrite ?Z.mod_mod by lia; try done;
    rewrite Z.sub_add, Z.mod_mod by lia; done.
Qed.

Lemma astype_idem (dt : int_dtype) (m : iarray) :
  astype dt (astype dt m) = astype dt m.
Proof.
  unfold astype, np_map. simpl. do 2 f_equal.
  rewrite <- list_fmap_compose. apply list_fmap_ext. intros i z _. apply wrap_idem.
Qed.

Lemma wrap_range (dt : int_dtype) (z : Z) :
  is_signed dt = false → (0 ≤ wrap dt z < 2 ^ bits dt)%Z.
Proof. intros Hs. unfold wrap. rewrite Hs. apply Z.mod_pos_bound. by destruct dt. Qed.

(** X17: [_compact_mask] is idempotent: a compacted mask is compacted to
    itself, whatever the type and the values of the original mask. *)
Theorem compact_mask_idempotent (mask r : iarray) :
  _compact_mask mask = Ok r → _compact_mask r = Ok r.
Proof.
  unfold _compact_mask.
  destruct (np_max mask) as [m|] eqn:Hm; simpl; [|done].
  destruct (np_max_spec _ _ Hm) as [Hin Hle].
  assert (Hmax : ∀ dt, is_signed dt = false →
            ∃ m', np_max (astype dt mask) = Ok m'
              ∧ (0 ≤ m' < 2 ^ bits dt)%Z
              ∧ ((0 ≤ m < 2 ^ bits dt)%Z → (m ≤ m')%Z)).
  { intros dt Hs.
    destruct (np_max (astype dt mask)) as [m'|] eqn:Hm'.
    - destruct (np_max_spec _ _ Hm') as [Hin' Hle'].
      exists m'. split; [done|]. unfold astype, idata in Hin', Hle'. simpl in *.
      split.
      + apply list_elem_of_fmap in Hin' as (z & -> & _). by apply wrap_range.
      + intros Hr. rewrite Forall_forall in Hle'. apply Hle'.
        apply list_elem_of_fmap. exists m. split; [|done].
        symmetry. by apply wrap_small.
    - unfold np_max, astype, idata in *. simpl in *.
      destruct (data (arr mask)); [done|]. done. }
  destruct (Z.ltb_spec m (2 ^ 8)) as [H8|H8].
  - intros [= <-]. destruct (Hmax uint8 eq_refl) as (m' & -> & Hr & _). simpl in *.
    destruct (Z.ltb_spec m' (2 ^ 8)); [|lia]. by rewrite astype_idem.
  - destruct (Z.ltb_spec m (2 ^ 16)) as [H16|H16].
    + intros [= <-]. destruct (Hmax uint16 eq_refl) as (m' & -> & Hr & Hge). simpl in *.
      destruct (Z.ltb_spec m' (2 ^ 8)); [lia|].
      destruct (Z.ltb_spec m' (2 ^ 16)); [|lia]. by rewrite astype_idem.
    + intros [= <-]. rewrite Hm. simpl.
      destruct (Z.ltb_spec m (2 ^ 8)); [lia|].
      destruct (Z.ltb_spec m (2 ^ 16)); [lia|]. done.
Qed.

(** Compaction of a mask of non-negative labels keeps the labels. *)
Lemma compact_mask_values (mask : iarray) :
  idata mask ≠ [] → Forall (λ z, (0 ≤ z)%Z) (idata mask) →
  ∃ m r, np_max mask = Ok m ∧ _compact_mask mask = Ok r
    ∧ ishape r = ishape mask ∧ idata r = idata mask
    ∧ dtype r = (if (m <? 2 ^ 8)%Z then uint8
                 else if (m <? 2 ^ 16)%Z then uint16 else dtype mask).
Proof.
  intros Hne Hpos.
  destruct (np_max mask) as [m|] eqn:Hm.
  2:{ unfold np_max in Hm. by destruct (idata mask). }
  destruct (np_max_spec _ _ Hm) as [Hin Hle].
  exists m. unfold _compact_mask. rewrite Hm. simpl.
  assert (Hkeep : ∀ dt, is_signed dt = false → (m < 2 ^ bits dt)%Z →
            idata (astype dt mask) = idata mask).
  { intros dt Hs Hlt. unfold idata, astype in *. simpl.
    rewrite <- (list_fmap_id (data (arr mask))) at 2.
    apply list_fmap_ext. intros i z Hz. apply wrap_small; [done|].
    apply list_elem_of_lookup_2 in Hz.
    rewrite Forall_forall in Hpos, Hle. specialize (Hpos _ Hz).
    specialize (Hle _ Hz). simpl in *. lia. }
  destruct (Z.ltb_spec m (2 ^ 8)) as [H8|H8].
  - eexists. split_and!; try done. by apply Hkeep.
  - destruct (Z.ltb_spec m (2 ^ 16)) as [H16|H16].
    + eexists. split_and!; try done. by apply Hkeep.
    + eexists. by split_and!.
Qed.

Lemma foldl_max_cons (a y : Z) (l : list Z) :
  foldl Z.max (Z.max a y) l = Z.max a (foldl Z.max y l).
Proof.
  revert a y. induction l as [|z l IH]; intros a y; simpl; [done|].
  by rewrite <- IH, Z.max_assoc.
Qed.

Lemma foldl_max_app (x y : Z) (l l' : list Z) :
  foldl Z.max x (l ++ y :: l') = Z.max (foldl Z.max x l) (foldl Z.max y l').
Proof. rewrite foldl_app. simpl. apply foldl_max_cons. Qed.

(** X18: the joint compaction of a fresh segmentation,
    [n_mask, c_mask = _compact_mask(np.stack([n_mask, c_mask]))], returns the
    two masks with their shapes and all their labels, in one common element
    type that is chosen from the larger of the two maxima. *)
Theorem compact_stack_roundtrip (n_mask c_mask : iarray) :
  wf_array (arr n_mask) → wf_array (arr c_mask) →
  ishape n_mask = ishape c_mask → dtype n_mask = dtype c_mask →
  idata n_mask ≠ [] →
  Forall (λ z, (0 ≤ z)%Z) (idata n_mask) → Forall (λ z, (0 ≤ z)%Z) (idata c_mask) →
  ∃ n c,
    (stacked ← stack n_mask c_mask;
     compacted ← _compact_mask stacked;
     unpack2 compacted) = Ok (n, c)
    ∧ arr n = arr n_mask ∧ arr c = arr c_mask
    ∧ dtype n = dtype c
    ∧ ∀ m, np_max n_mask = Ok m →
        ∀ m', np_max c_mask = Ok m' →
          dtype n = (if (Z.max m m' <? 2 ^ 8)%Z then uint8
                     else if (Z.max m m' <? 2 ^ 16)%Z then uint16
                     else dtype n_mask).
Proof.
  intros Hwn Hwc Hsh Hdt Hne Hpn Hpc.
  unfold stack. rewrite decide_True by done. simpl.
  set (st := IArray (dtype n_mask)
               (NDArray (2 :: ishape n_mask) (idata n_mask ++ idata c_mask))).
  destruct (compact_mask_values st) as (M & r & HM & -> & Hrs & Hrd & Hrt).
  { unfold st. rewrite idata_mk. by destruct (idata n_mask). }
  { unfold st. rewrite idata_mk. by apply Forall_app. }
  simpl. destruct r as [dtr [shr dr]].
  unfold st, np_max, ishape, idata, wf_array in *. simpl in *. subst shr dr.
  unfold unpack2, get_item, ishape. simpl.
  change (foldr Nat.mul 1 (shape (arr n_mask))) with (size_of (shape (arr n_mask))).
  rewrite Nat.add_0_r, drop_0, <- Hwn, drop_app_length, take_app_length.
  rewrite Hwn, Hsh, <- Hwc, firstn_all.
  destruct (arr n_mask) as [shn dn], (arr c_mask) as [shc dc]. simpl in *. subst shc.
  eexists _, _. split; [done|]. simpl. split_and!; [done..|].
  intros m Hm m' Hm'. subst dtr.
  destruct dn as [|x l]; [done|]. destruct dc as [|y l']; [done|].
  simpl in HM. rewrite foldl_max_app in HM. by simplify_eq.
Qed.

(** ** Cytoplasm and the nucleus-to-cell link *)

(** On masks of one shape the link is the dictionary built from the
    overlapping pixels in flatten order. *)
Lemma overlay_mask_same_shape (n c : iarray) :
  wf_array (arr n) → wf_array (arr c) → ishape n = ishape c →
  _overlay_mask n (Some c)
  = Ok (overlay_frame (foldl (λ d kv, dict_set d kv.1 kv.2) [] (overlap_pairs n c))).
Proof.
  intros Hn Hc Hs. unfold _overlay_mask, ishape in *.
  rewrite broadcast2_same by (by try apply np_map_wf). simpl.
  unfold wf_array in *. unfold bool_index. simpl. rewrite !decide_True by done. simpl.
  set (m := zip_with andb _ _).
  assert (Hl : length (data (arr n)) = length (data (arr c))) by congruence.
  assert (Hm : length (data (arr c)) = length m).
  { unfold m. rewrite length_zip_with, !length_fmap. lia. }
  assert (Hz := bool_index_zip _ _ _ Hl Hm).
  assert (Hlen : length (filter (λ p, p.2 = true) (zip (data (arr n)) m)).*1
               = length (filter (λ p, p.2 = true) (zip (data (arr c)) m)).*1).
  { clear Hz. revert Hl Hm. generalize (data (arr n)) (data (arr c)) m. clear.
    induction l as [|x l IH]; intros [|y l'] [|b m] ? ?; simplify_eq/=; [done|].
    rewrite !filter_cons. destruct b; csimpl; auto. }
  rewrite decide_True by done.
  unfold overlay_all. rewrite Hz. unfold m. by rewrite overlap_filter.
Qed.

(** X19: a cytoplasm mask shares no pixel with the nucleus mask it was
    derived from: linking the nuclei to the cytoplasm mask instead of the
    cell mask gives the table without rows. *)
Theorem cyto_overlay_empty (n c cyto : iarray) :
  wf_array (arr n) → wf_array (arr c) → ishape n = ishape c →
  _get_cyto n c = Ok cyto →
  overlap_pairs n cyto = []
  ∧ _overlay_mask n (Some cyto) = Ok (overlay_frame []).
Proof.
  intros Hn Hc Hs. rewrite get_cyto_same_shape by done. intros [= <-].
  assert (Hl : length (idata n) = length (idata c)).
  { unfold wf_array, ishape, idata in *. congruence. }
  assert (Hempty : overlap_pairs n
            (IArray (dtype c) (NDArray (ishape c)
               (zip_with cyto_pixel (idata n) (idata c)))) = []).
  { unfold overlap_pairs. rewrite idata_mk. apply filter_none, Forall_forall.
    intros [nv x] [i Hi]%list_elem_of_lookup [Hnv Hx]. simpl in *.
    apply lookup_zip_with_Some in Hi as (nv' & x' & [= <- <-] & Hi & Hx').
    apply lookup_zip_with_Some in Hx' as (nv'' & cv & -> & Hi' & _).
    rewrite Hi in Hi'. injection Hi' as <-.
    unfold cyto_pixel in Hx. case_decide; [lia|done]. }
  split; [done|].
  rewrite overlay_mask_same_shape; [by rewrite Hempty|done| |done].
  unfold wf_array in *. simpl. rewrite length_zip_with. unfold ishape, idata in *. lia.
Qed.

(** X20: on masks of different shapes the two operations differ:
    [_get_cyto] broadcasts, and returns a mask of the common shape, where
    [_overlay_mask] fails with [IndexError] at the boolean indexing; when
    the shapes do not broadcast both fail with [ValueError]. *)
Theorem masks_of_different_shape (n c : iarray) :
  wf_array (arr n) → wf_array (arr c) → ishape n ≠ ishape c →
  match broadcast_shapes (ishape c) (ishape n) with
  | Some sh =>
      (∃ cyto, _get_cyto n c = Ok cyto ∧ ishape cyto = sh ∧ dtype cyto = dtype c)
      ∧ _overlay_mask n (Some c) = Raise IndexError
  | None =>
      _get_cyto n c = Raise ValueError
      ∧ _overlay_mask n (Some c) = Raise ValueError
  end.
Proof.
  intros Hn Hc Hne. rewrite get_cyto_closed by done.
  unfold _overlay_mask, broadcast2, ishape in *. simpl.
  destruct (broadcast_shapes (shape (arr c)) (shape (arr n))) as [sh|]; simpl;
    [|done].
  split; [eauto|].
  unfold bool_index. simpl.
  destruct (decide (shape (arr n) = sh)) as [<-|]; simpl; [|done].
  by rewrite decide_False by done.
Qed.

(** ** Outer-join reconciliation, once more *)




Lemma existsb_isna_insert (row : list cell) (i : nat) (z : Z) :
  List.existsb isna row = false → List.existsb isna (<[i := CInt z]> row) = false.
Proof.
  revert i. induction row as [|c row IH]; intros i Hrow; [done|].
  simpl in Hrow. apply orb_false_elim in Hrow as [Hc Hrow].
  destruct i as [|i]; simpl; [done|]. by rewrite Hc, IH.
Qed.

Lemma astype_column_Ok (df df' : DataFrame) (i : nat) (w : int_dtype) :
  astype_column df i w = Ok df' →
  columns df' = alter (λ c, (c.1, DInt w)) i (columns df)
  ∧ (no_na df → no_na df').
Proof.
  unfold astype_column.
  destruct (mapM _ (rows df)) as [rows'|] eqn:E; simpl; [|done].
  intros [= <-]. split; [done|]. unfold no_na. simpl. clear -E.
  revert rows' E. induction (rows df) as [|row rs IH]; intros rows' E Hna.
  - by injection E as <-.
  - rewrite mapM_result_cons in E. apply Forall_cons in Hna as [Hrow Hna].
    destruct (row !! i) as [c|] eqn:Hc.
    + destruct (astype_cell w c) as [c'|] eqn:Hc'; simpl in E; [|done].
      destruct (mapM _ rs) as [rs'|] eqn:E'; simpl in E; [|done].
      injection E as <-. constructor; [|by apply IH].
      unfold astype_cell in Hc'. destruct c as [z|f].
      * injection Hc' as <-. by apply existsb_isna_insert.
      * destruct (Z_of_float f); [|done]. injection Hc' as <-.
        by apply existsb_isna_insert.
    + simpl in E. destruct (mapM _ rs) as [rs'|] eqn:E'; simpl in E; [|done].
      injection E as <-. constructor; [done|by apply IH].
Qed.

Lemma restore_column_Ok (df df' : DataFrame) (c : string * col_dtype) :
  restore_column df c = Ok df' →
  (no_na df → no_na df')
  ∧ (∀ name, int_column df name → int_column df' name)
  ∧ (∀ w, c.2 = DInt w → int_column df' c.1).
Proof.
  unfold restore_column. destruct c as [name d]. simpl.
  destruct d as [w| |]; [|by intros [= <-]..].
  destruct (list_find (λ c', c'.1 = name) (columns df)) as [[i [name' d']]|] eqn:Hf;
    [|done].
  apply list_find_Some in Hf as (Hi & Hname & Hfirst). simpl in *. subst name'.
  destruct (is_integer_dtype d') eqn:Hint.
  - intros ?. simplify_eq. split_and!; [done..|]. intros _ _.
    destruct d' as [w'| |]; [|done..]. exists i, w'. split; [done|].
    intros j c Hj Hc. by apply (Hfirst j c).
  - intros [Hcols Hna]%astype_column_Ok. split_and!; [done| |].
    + intros name0 (i0 & w0 & Hi0 & Hfirst0). exists i0, w0.
      rewrite Hcols. split.
      * rewrite list_lookup_alter_ne; [done|]. intros ->.
        rewrite Hi in Hi0. by simplify_eq.
      * intros j c Hj Hc. rewrite list_lookup_alter in Hc.
        case_decide; [subst j|by eapply Hfirst0].
        rewrite Hi in Hc. simplify_eq/=. intros ->.
        by apply (Hfirst0 i (name0, d') Hj).
    + intros _ _. exists i, w. rewrite Hcols. split.
      * by rewrite list_lookup_alter, decide_True, Hi.
      * intros j c Hj Hc. rewrite list_lookup_alter_ne in Hc by lia.
        by apply (Hfirst j c).
Qed.

Lemma restore_Ok (src df df' : DataFrame) :
  restore src df = Ok df' →
  (no_na df → no_na df')
  ∧ (∀ name, int_column df name → int_column df' name)
  ∧ (∀ name w, (name, DInt w) ∈ columns src → int_column df' name).
Proof.
  unfold restore. revert df.
  induction (columns src) as [|c cols IH]; intros df H.
  - injection H as <-. split_and!; [done..|]. by intros ?? ?%elem_of_nil.
  - rewrite restore_step in H.
    destruct (restore_column df c) as [df1|] eqn:Hc; [|by rewrite restore_Raise in H].
    apply restore_column_Ok in Hc as (Hna & Hkeep & Hnew).
    destruct (IH _ H) as (Hna' & Hkeep' & Hnew').
    split_and!; [auto|auto|].
    intros name w [Heq|Hin]%elem_of_cons; [subst c|by eapply Hnew'].
    apply Hkeep'. by apply (Hnew w).
Qed.

(** X22: whenever [_outer_merge] returns a table, for inputs with distinct
    column names: no value of the table is missing, and every column that
    has an integer type in one of the inputs has an integer type in the
    result, also when the join had converted it to float. *)
Theorem outer_merge_result (df1 df2 : DataFrame) (on : list string) (df : DataFrame) :
  NoDup (columns df1).*1 → NoDup (columns df2).*1 →
  _outer_merge df1 df2 on = Ok df →
  no_na df
  ∧ ∀ name w, (name, DInt w) ∈ columns df1 ∨ (name, DInt w) ∈ columns df2 →
      int_column df name.
Proof.
  unfold _outer_merge. intros _ _ H.
  destruct (merge_outer df1 df2 on) as [m|]; simpl in H; [|done].
  destruct (restore df1 (dropna m)) as [d1|] eqn:H1; simpl in H; [|done].
  apply restore_Ok in H1 as (Hna1 & _ & Hint1).
  apply restore_Ok in H as (Hna2 & Hkeep2 & Hint2).
  split.
  - apply Hna2, Hna1. unfold no_na, dropna. simpl.
    apply Forall_forall. by intros row [? _]%list_elem_of_filter.
  - intros name w [Hin|Hin]; [apply Hkeep2|]; eauto.
Qed.

Lemma key_positions_on (cols : list (string * col_dtype)) (on : list string)
    (pos : list nat) (i : nat) :
  key_positions cols on = Ok pos → i ∈ pos →
  ∃ c, cols !! i = Some c ∧ c.1 ∈ on.
Proof.
  unfold key_positions. revert pos. induction on as [|x on IH]; intros pos E Hi.
  - injection E as <-. by apply elem_of_nil in Hi.
  - rewrite mapM_result_cons in E.
    destruct (col_pos cols x) as [j|] eqn:Hx; simpl in E; [|done].
    destruct (mapM _ on) as [pos'|] eqn:E'; simpl in E; [|done].
    injection E as <-. apply elem_of_cons in Hi as [->|Hi].
    + unfold col_pos in Hx.
      destruct (list_find (λ c, c.1 = x) cols) as [[j' c]|] eqn:Hf; [|done].
      simpl in Hx. injection Hx as ->.
      apply list_find_Some in Hf as (Hj & <- & _). exists c. split; [done|left].
    + destruct (IH pos' eq_refl Hi) as (c & ? & ?). exists c. split; [done|by right].
Qed.

Lemma merged_names_inv (df1 df2 : DataFrame) (lk rk : list nat) (n : string) :
  n ∈ (merged_columns df1 df2 lk rk).*1 →
  (∃ i c, columns df1 !! i = Some c
     ∧ ((i ∈ lk ∧ n = c.1)
        ∨ ((i ∉ lk) ∧ n = suffixed (rest_of rk (columns df2)).*1 "_x" c.1)))
  ∨ (∃ c, c ∈ rest_of rk (columns df2)
       ∧ n = suffixed (rest_of lk (columns df1)).*1 "_y" c.1).
Proof.
  unfold merged_columns. rewrite fmap_app, elem_of_app.
  intros [Hn|Hn]; [left|right].
  - apply list_elem_of_fmap in Hn as (m & -> & [i Hi]%list_elem_of_lookup).
    rewrite list_lookup_imap in Hi.
    destruct (columns df1 !! i) as [c|] eqn:Hc; [|done]. simpl in Hi.
    exists i, c. split; [done|].
    destruct (list_find (λ p, p = i) lk) as [[j p]|] eqn:Hf.
    + apply list_find_Some in Hf as (Hj & -> & _). injection Hi as <-.
      left. split; [by eapply list_elem_of_lookup_2|done].
    + apply list_find_None in Hf. rewrite Forall_forall in Hf.
      injection Hi as <-. right. split; [|done]. intros Hin. by apply (Hf i).
  - apply list_elem_of_fmap in Hn as (m & -> & Hm).
    apply list_elem_of_fmap in Hm as (c & -> & Hc). eauto.
Qed.

Lemma restore_column_names (df df' : DataFrame) (c : string * col_dtype) :
  restore_column df c = Ok df' →
  (columns df').*1 = (columns df).*1
  ∧ (∀ w, c.2 = DInt w → c.1 ∈ (columns df).*1).
Proof.
  unfold restore_column. destruct (c.2) as [w| |]; [|by intros [= <-]..].
  destruct (list_find (λ c', c'.1 = c.1) (columns df)) as [[i c']|] eqn:Hf; [|done].
  apply list_find_Some in Hf as (Hi & Hname & _).
  assert (c.1 ∈ (columns df).*1) as Hin.
  { rewrite <- Hname. apply list_elem_of_fmap. exists c'. split; [done|].
    by eapply list_elem_of_lookup_2. }
  destruct (is_integer_dtype c'.2).
  - intros [= <-]. by split.
  - unfold astype_column. destruct (mapM _ (rows df)); simpl; [|done].
    intros [= <-]. simpl. split; [apply alter_dtype_names|done].
Qed.

Lemma restore_names (src df df' : DataFrame) :
  restore src df = Ok df' →
  (columns df').*1 = (columns df).*1
  ∧ (∀ name w, (name, DInt w) ∈ columns src → name ∈ (columns df).*1).
Proof.
  unfold restore. revert df.
  induction (columns src) as [|c cols IH]; intros df H.
  - injection H as <-. split; [done|]. by intros ?? ?%elem_of_nil.
  - rewrite restore_step in H.
    destruct (restore_column df c) as [df1|] eqn:Hc; [|by rewrite restore_Raise in H].
    apply restore_column_names in Hc as [Hn Hc].
    destruct (IH _ H) as [Hn' Hc']. split; [congruence|].
    intros name w [Heq|Hin]%elem_of_cons.
    + subst c. by apply (Hc w).
    + rewrite <- Hn. by eapply Hc'.
Qed.

(** X23: when the two tables share, outside the join key, the name of a
    column that is an integer column of the first table, [_outer_merge]
    returns no table: the join renames the column with the suffixes [_x] and
    [_y], and the loop that restores the integer types then looks the
    original name up. *)
Theorem outer_merge_shared_column (df1 df2 : DataFrame) (on : list string)
    (name : string) (w : int_dtype) :
  NoDup (columns df1).*1 → NoDup (columns df2).*1 →
  (name, DInt w) ∈ columns df1 → name ∈ (columns df2).*1 → name ∉ on →
  (∀ c, c ∈ (columns df1).*1 ++ (columns df2).*1 →
     (c +:+ "_x")%string ≠ name ∧ (c +:+ "_y")%string ≠ name) →
  ∃ e, _outer_merge df1 df2 on = Raise e.
Proof.
  intros Hnd1 Hnd2 Hin1 Hin2 Hon Hsfx.
  destruct (_outer_merge df1 df2 on) as [df|e] eqn:H; [exfalso|by eauto].
  revert H.

  intros H. unfold _outer_merge in H.
  destruct (merge_outer df1 df2 on) as [m|] eqn:Hm; [|done].
  apply merge_outer_Ok in Hm as (lk & rk & Hlk & Hrk & _ & ->).
  simpl in H.
  destruct (restore df1 (dropna (merged df1 df2 lk rk))) as [d1|] eqn:H1; [|done].
  apply restore_names in H1 as [_ Hneed].
  specialize (Hneed name w Hin1). simpl in Hneed.
  assert (Hrest1 : name ∈ (rest_of lk (columns df1)).*1).
  { apply list_elem_of_fmap. exists (name, DInt w). split; [done|].
    apply list_elem_of_lookup in Hin1 as [p Hp].
    apply elem_of_rest_of. exists p. split; [|done]. intros Hk.
    destruct (key_positions_on _ _ _ _ Hlk Hk) as (c & Hc & Hcon).
    rewrite Hp in Hc. simplify_eq. by apply Hon. }
  assert (Hrest2 : name ∈ (rest_of rk (columns df2)).*1).
  { apply list_elem_of_fmap in Hin2 as ([n d] & -> & Hin2).
    apply list_elem_of_fmap. exists (n, d). split; [done|].
    apply list_elem_of_lookup in Hin2 as [q Hq].
    apply elem_of_rest_of. exists q. split; [|done]. intros Hk.
    destruct (key_positions_on _ _ _ _ Hrk Hk) as (c & Hc & Hcon).
    rewrite Hq in Hc. simplify_eq. by apply Hon. }
  apply merged_names_inv in Hneed
    as [(i & c & Hc & [[Hk ->]|[Hk Hn]])|(c & Hc & Hn)].
  - destruct (key_positions_on _ _ _ _ Hlk Hk) as (c' & Hc' & Hcon).
    rewrite Hc in Hc'. simplify_eq. by apply Hon.
  - unfold suffixed in Hn. case_decide as Hs.
    + destruct (Hsfx c.1) as [Hx _]; [|by apply Hx]. apply elem_of_app. left.
      apply list_elem_of_fmap. exists c. split; [done|].
      by eapply list_elem_of_lookup_2.
    + by subst.
  - unfold suffixed in Hn. case_decide as Hs.
    + destruct (Hsfx c.1) as [_ Hy]; [|by apply Hy]. apply elem_of_app. right.
      apply list_elem_of_fmap. exists c. split; [done|].
      apply elem_of_rest_of in Hc as (j & _ & Hj). by eapply list_elem_of_lookup_2.
    + by subst.
Qed.

Lemma col_pos_Some (cols : list (string * col_dtype)) (name : string) (d : col_dtype) :
  NoDup cols.*1 → (name, d) ∈ cols →
  ∃ i, col_pos cols name = Some i ∧ cols !! i = Some (name, d).
Proof.
  intros Hnd [j Hj]%list_elem_of_lookup. unfold col_pos.
  destruct (list_find (λ c, c.1 = name) cols) as [[i [n' d']]|] eqn:Hf.
  - apply list_find_Some in Hf as (Hi & Hn & _). simpl in Hn. subst n'.
    destruct (lookup_unique_name _ _ _ _ _ _ Hnd Hi Hj) as [-> ->]. eauto.
  - apply list_find_None in Hf. rewrite Forall_forall in Hf.
    destruct (Hf (name, d)); [by eapply list_elem_of_lookup_2|done].
Qed.

(** X24: when no pixel of a nucleus lies in a cell, the link has no rows,
    and the join of any nucleus table with it on ["label"], the first join
    of [_channel_data], succeeds and has no rows: every nucleus is dropped
    from the measurements. *)
Theorem outer_merge_without_overlap (n_mask c_mask : iarray) (nucleus_data : DataFrame) :
  wf_array (arr n_mask) → wf_array (arr c_mask) → ishape n_mask = ishape c_mask →
  overlap_pairs n_mask c_mask = [] →
  wf_frame nucleus_data →
  (∃ w, ("label"%string, DInt w) ∈ columns nucleus_data) →
  "Cyto_ID"%string ∉ (columns nucleus_data).*1 →
  ∃ overlay df,
    _overlay_mask n_mask (Some c_mask) = Ok overlay
    ∧ rows overlay = []
    ∧ _outer_merge nucleus_data overlay ["label"%string] = Ok df
    ∧ rows df = [].
Proof.
  intros Hwn Hwc Hsh Hno Hwf [w Hlabel] Hcyto.
  rewrite overlay_mask_same_shape, Hno by done. simpl.
  cut (∃ df, _outer_merge nucleus_data (overlay_frame []) ["label"%string] = Ok df
             ∧ rows df = []).
  { intros (df & ? & ?). by exists (overlay_frame []), df. }
  destruct (col_pos_Some _ _ _ (wf_names _ Hwf) Hlabel) as (i & Hpos & Hi).
  unfold _outer_merge, merge_outer, key_positions.
  rewrite !mapM_result_cons, Hpos. simpl.
  set (ov := overlay_frame []).
  assert (Hrows : rows (dropna (merged nucleus_data ov [i] [0])) = []).
  { unfold dropna. simpl. apply filter_none, Forall_fmap, Forall_forall.
    intros row (k & Hrow & _)%list_elem_of_bind. simpl.
    assert (∃ l, l ∈ rows nucleus_data ∧ row = l ++ [NaN]) as (l & Hl & ->).
    { unfold group in Hrow.
      change (matches_right ov [0] k) with (@nil (list cell)) in Hrow.
      destruct (matches_left nucleus_data [i] k) as [|l0 ls] eqn:El;
        [by apply elem_of_nil in Hrow|].
      apply list_elem_of_fmap in Hrow as (l & -> & Hl). exists l. split; [|done].
      rewrite <- El in Hl. by apply list_elem_of_filter in Hl as [_ ?]. }
    assert (length l = length (columns nucleus_data)) as Hlen.
    { destruct Hwf as [_ Hr]. rewrite Forall_forall in Hr.
      apply Hr, Forall2_length in Hl. by rewrite length_fmap in Hl. }
    rewrite (existsb_isna_coerce _ _ (length l)); [done| |].
    - rewrite length_fmap, length_merged_columns. simpl. lia.
    - by rewrite lookup_app_r, Nat.sub_diag. }
  destruct (restore_empty (columns nucleus_data) _ Hrows) as (df' & Hdf' & Hr' & Hn').
  { intros c w' Hin. simpl. unfold merged_columns. rewrite fmap_app.
    apply elem_of_app. left.
    apply list_elem_of_lookup in Hin as [j Hj].
    apply list_elem_of_lookup. exists j.
    rewrite list_lookup_fmap, list_lookup_imap, Hj. simpl.
    case_decide; simpl; [done|].
    unfold suffixed. rewrite decide_False; [done|].
    intros ->%list_elem_of_singleton.
    apply Hcyto, list_elem_of_fmap. exists ("Cyto_ID"%string, DInt w').
    split; [done|]. by eapply list_elem_of_lookup_2. }
  unfold restore in *. rewrite Hdf'. simpl. eauto.
Qed.

(** ** Flatfield correction of all channels *)

Lemma get_img_dict_keys (array : ndarray float) (channels : list (string * Z))
    (ffd : list (string * ndarray float)) (d : list (string * ndarray float)) :
  NoDup channels.*1 → _get_img_dict array channels ffd = Ok d →
  d.*1 = channels.*1.
Proof.
  unfold _get_img_dict. revert d.
  induction channels as [|[ch0 idx0] channels IH] using rev_ind;
    intros d Hnd Hd; [by injection Hd as <-|].
  rewrite foldl_app in Hd. simpl in Hd.
  rewrite fmap_app in Hnd. apply NoDup_app in Hnd as (Hnd & Hfresh & _).
  destruct (foldl _ (Ok []) channels) as [d0|] eqn:Hd0; [|done]. simpl in Hd.
  destruct (take_last idx0 array) as [plane0|]; [|done]. simpl in Hd.
  destruct (dict_lookup ffd ch0) as [field0|]; [|done]. simpl in Hd.
  destruct (flatfield_divide plane0 field0) as [img0|]; [|done].
  simpl in Hd. injection Hd as <-.
  rewrite dict_set_keys, (IH d0 Hnd eq_refl), fmap_app.
  rewrite decide_False; [done|]. intros Hin. apply (Hfresh ch0 Hin). set_solver.
Qed.

(** X25: when [_get_img_dict] returns, the dictionary holds exactly the
    channels, in their order, and the entry of a channel is the quotient of
    its plane of the image by its flatfield mask. *)
Theorem get_img_dict_entries (array : ndarray float) (channels : list (string * Z))
    (_flatfield_dict : list (string * ndarray float))
    (img_dict : list (string * ndarray float)) :
  NoDup channels.*1 →
  _get_img_dict array channels _flatfield_dict = Ok img_dict →
  img_dict.*1 = channels.*1
  ∧ ∀ ch idx, (ch, idx) ∈ channels →
      ∃ plane field img,
        take_last idx array = Ok plane
        ∧ dict_get _flatfield_dict ch = Some field
        ∧ flatfield_divide plane field = Ok img
        ∧ dict_get img_dict ch = Some img.
Proof.
  intros Hnd Hd. split; [by eapply get_img_dict_keys|].
  intros ch idx Hin.
  destruct (get_img_dict_spec _ _ _ _ Hnd Hd ch idx Hin)
    as (plane & field & img & Hp & Hf & Hi & Hg).
  exists plane, field, img. split_and!; [done| |done|done].
  unfold dict_lookup in Hf. by destruct (dict_get _flatfield_dict ch); simplify_eq.
Qed.

Lemma broadcast_rev_length (ra rb rs : list nat) :
  broadcast_rev ra rb = Some rs → length rs = length ra `max` length rb.
Proof.
  revert rb rs. induction ra as [|a ra IH]; intros rb rs H.
  - destruct rb; simplify_eq/=; done.
  - destruct rb as [|b rb]; simplify_eq/=; [done|].
    repeat case_decide; simplify_eq;
      destruct (broadcast_rev ra rb) as [rs'|] eqn:E; simplify_eq/=;
      by rewrite (IH _ _ E).
Qed.

Lemma broadcast_shapes_length (a b sh : list nat) :
  broadcast_shapes a b = Some sh → length sh = length a `max` length b.
Proof.
  unfold broadcast_shapes. intros H.
  destruct (broadcast_rev (reverse a) (reverse b)) as [rs|] eqn:E; simplify_eq/=.
  apply broadcast_rev_length in E. by rewrite !length_reverse in *.
Qed.

(** The quotient of a stack with several z planes cannot be squeezed. *)
Lemma flatfield_divide_z_stack (plane field : ndarray float) (t z : nat)
    (rest : list nat) :
  shape plane = t :: z :: rest → z ≠ 1 →
  length (shape field) ≤ length (shape plane) →
  flatfield_divide plane field = Raise ValueError.
Proof.
  intros Hsh Hz Hlen. unfold flatfield_divide, broadcast2.
  destruct (broadcast_shapes (shape plane) (shape field)) as [sh|] eqn:E; [|done].
  simpl. unfold squeeze_axis1. simpl.
  pose proof (broadcast_shapes_length _ _ _ E) as Hl.
  destruct (broadcast_shapes_compat _ _ _ E) as [Hc _].
  unfold pad_shape in Hc. rewrite Hl in Hc.
  replace (length (shape plane) `max` length (shape field) - length (shape plane))
    with 0 in Hc by lia.
  simpl in Hc. rewrite Hsh in Hc.
  inversion Hc as [|? t0 ? sh0 _ Hc0]; subst.
  inversion Hc0 as [|? z0 ? sh1 Hz0 _]; subst.
  destruct Hz0 as [<-|]; [|done].
  by destruct z as [|[|z]].
Qed.

(** X26: an image with a number of z planes other than 1 cannot be
    corrected: [_get_img_dict] fails with [ValueError] at the first channel,
    for flatfield masks of up to four axes. *)
Theorem get_img_dict_z_stack (array : ndarray float) (channels : list (string * Z))
    (_flatfield_dict : list (string * ndarray float)) (T Z Y X C : nat) :
  shape array = [T; Z; Y; X; C] → Z ≠ 1 → channels ≠ [] →
  Forall (λ ch_idx, (0 ≤ ch_idx.2 < Z.of_nat C)%Z
                    ∧ ∃ field, dict_get _flatfield_dict ch_idx.1 = Some field
                               ∧ length (shape field) ≤ 4) channels →
  _get_img_dict array channels _flatfield_dict = Raise ValueError.
Proof.
  intros Hsh HZ Hne Hch. unfold _get_img_dict.
  destruct channels as [|[ch idx] channels]; [done|].
  apply Forall_cons in Hch as [[Hidx (field & Hfield & Hlen)] _]. simpl in *.
  assert (∃ plane, take_last idx array = Ok plane ∧ shape plane = [T; Z; Y; X])
    as (plane & -> & Hplane).
  { unfold take_last. rewrite Hsh. simpl.
    destruct (Z.ltb_spec idx 0); [lia|]. rewrite decide_True by done. eauto. }
  unfold dict_lookup. rewrite Hfield. simpl.
  rewrite (flatfield_divide_z_stack plane field T Z [Y; X]); [|done|done|].
  - simpl. clear. induction channels as [|c cs IH]; [done|]. exact IH.
  - rewrite Hplane. simpl. lia.
Qed.

(** ** Instances *)

Lemma edit_properties_injective_witness :
  "area_nucleus"%string ≠ "intensity_mean_DAPI_nucleus"%string.
Proof.
  apply (edit_properties_injective "DAPI" "nucleus" features_default
           "area" "intensity_mean"); [discriminate|reflexivity..].
Defined.

Lemma n_segmentation_evaluations_witness :
  ∃ model img_array timepoints imgs,
    dict_lookup (MODEL_DICT world_fresh) "nuclei" = Ok model
    ∧ dict_lookup (img_dict image_dapi_tub) "DAPI" = Ok img_array
    ∧ first_axis img_array = Ok timepoints
    ∧ mapM (λ t, get_item t img_array) (seq 0 timepoints) = Ok imgs
    ∧ length imgs = timepoints
    ∧ (_n_segmentation world_fresh image_dapi_tub []).2
      = [] ++ ((λ img, ModelEval (ModelCall model (scale_img world_fresh img) (0, 0)
                                   (Some (nuc_diameter image_dapi_tub)))) <$> imgs)
    ∧ dtype (zeros [2; 6; 6] uint32) = uint32
    ∧ ishape (zeros [2; 6; 6] uint32) = shape img_array.
Proof.
  apply (n_segmentation_evaluations world_fresh image_dapi_tub []).
  vm_compute. reflexivity.
Defined.

Lemma n_segmentation_other_error_witness :
  _n_segmentation world_broken image_dapi_tub []
  = (Raise ValueError,
     [] ++ [ModelEval (ModelCall "nuclei"
                         (scale_img world_broken (NDArray [6; 6] (replicate 36 0%float)))
                         (0, 0) (Some (nuc_diameter image_dapi_tub)))]).
Proof.
  apply (n_segmentation_other_error world_broken image_dapi_tub [] "nuclei"
           stack_2x6x6); [reflexivity..|discriminate].
Defined.

Lemma c_segmentation_evaluations_witness :
  ∃ model dapi_array tub_array timepoints imgs,
    _get_models world_fresh image_dapi_tub = Ok model
    ∧ dict_lookup (img_dict image_dapi_tub) "DAPI" = Ok dapi_array
    ∧ dict_lookup (img_dict image_dapi_tub) "Tub" = Ok tub_array
    ∧ first_axis dapi_array = Ok timepoints
    ∧ first_axis tub_array = Ok timepoints
    ∧ mapM (λ t, dapi_t ← get_item t dapi_array;
                 tub_t ← get_item t tub_array;
                 dstack dapi_t tub_t) (seq 0 timepoints) = Ok imgs
    ∧ (_c_segmentation world_fresh image_dapi_tub []).2
      = [] ++ ((λ img, ModelEval (ModelCall model (scale_img world_fresh img)
                                   (2, 1) None)) <$> imgs)
    ∧ dtype (zeros [2; 6; 6] uint32) = uint32
    ∧ ishape (zeros [2; 6; 6] uint32) = shape dapi_array.
Proof.
  apply (c_segmentation_evaluations world_fresh image_dapi_tub []).
  vm_compute. reflexivity.
Defined.

Lemma c_segmentation_time_mismatch_witness :
  (∀ tr0, _c_segmentation world_fresh image_mismatch tr0 = (Raise AssertionError, tr0))
  ∧ _segmentation world_fresh image_mismatch []
    = (Raise AssertionError,
       (_n_segmentation world_fresh image_mismatch
          ([] ++ [ListChildren (dataset_id image_mismatch)])).2).
Proof.
  apply (c_segmentation_time_mismatch world_fresh image_mismatch [] "cyto"
           stack_2x6x6 stack_1x6x6 2 1 (zeros [2; 6; 6] uint32));
    [reflexivity..|lia|reflexivity|reflexivity|vm_compute; reflexivity].
Defined.

Lemma segmentation_fresh_masks_witness :
  (dtype (zeros [2; 6; 6] uint8) = uint8 ∨ dtype (zeros [2; 6; 6] uint8) = uint16
   ∨ dtype (zeros [2; 6; 6] uint8) = uint32)
  ∧ (∃ img_array, dict_lookup (img_dict image_dapi_tub) "DAPI" = Ok img_array
       ∧ ishape (zeros [2; 6; 6] uint8) = shape img_array)
  ∧ (∀ c_mask, Some (zeros [2; 6; 6] uint8) = Some c_mask →
       dtype c_mask = dtype (zeros [2; 6; 6] uint8)
       ∧ ishape c_mask = ishape (zeros [2; 6; 6] uint8))
  ∧ (∀ cyto_mask, Some (zeros [2; 6; 6] uint8) = Some cyto_mask →
       dtype cyto_mask = dtype (zeros [2; 6; 6] uint8)
       ∧ ishape cyto_mask = ishape (zeros [2; 6; 6] uint8)).
Proof.
  apply (segmentation_fresh_masks world_fresh image_dapi_tub []
           (zeros [2; 6; 6] uint8) (Some (zeros [2; 6; 6] uint8))
           (Some (zeros [2; 6; 6] uint8))
           (_segmentation world_fresh image_dapi_tub []).2);
    vm_compute; reflexivity.
Defined.

Lemma segmentation_first_child_witness :
  stored_segmentation world_stored_twice image_dapi_tub
  = Some (length [("3_segmentation"%string, 40%Z)],
          ((str (image_id image_dapi_tub) +:+ "_segmentation")%string, 41%Z))
  ∧ (_segmentation world_stored_twice image_dapi_tub []).2
    = [] ++ [ListChildren (dataset_id image_dapi_tub); GetImage 41].
Proof.
  apply (segmentation_first_child world_stored_twice image_dapi_tub []
           [("3_segmentation"%string, 40%Z)] [("7_segmentation"%string, 42%Z)]).
  - reflexivity.
  - apply (bool_decide_unpack _). vm_compute. exact I.
Defined.

Lemma segmentation_stored_single_channel_witness :
  _segmentation world_single_channel image_dapi_tub []
  = (Raise IndexError,
     [] ++ [ListChildren (dataset_id image_dapi_tub); GetImage 41]).
Proof.
  apply (segmentation_stored_single_channel world_single_channel image_dapi_tub []
           0 "7_segmentation" 41 single_channel_masks [1; 1; 2; 2]); reflexivity.
Defined.

Lemma filter_segmentation_keeps_witness :
  ∃ r, filter_segmentation mask_15x23 = Ok r
    ∧ dtype r = dtype mask_15x23 ∧ ishape r = ishape mask_15x23
    ∧ Forall2 (λ v x, x = v ∨ x = 0%Z) (idata mask_15x23) (idata r)
    ∧ (∀ label, label ≠ 0%Z → label ∈ idata r → 10 < area (idata r) label).
Proof.
  apply (filter_segmentation_keeps mask_15x23).
  - reflexivity.
  - simpl. lia.
  - repeat constructor; lia.
  - apply (bool_decide_unpack _). vm_compute. exact I.
Defined.

Lemma filter_segmentation_idempotent_witness :
  filter_segmentation filtered_15x23 = Ok filtered_15x23.
Proof.
  apply (filter_segmentation_idempotent mask_15x23 filtered_15x23).
  - reflexivity.
  - simpl. lia.
  - repeat constructor; lia.
  - apply (bool_decide_unpack _). vm_compute. exact I.
  - vm_compute. reflexivity.
Defined.

Lemma filter_segmentation_defined_witness :
  (Forall (λ s, 5 < s) (ishape mask_15x23)
   ↔ ∃ r, filter_segmentation mask_15x23 = Ok r)
  ∧ (∀ e, filter_segmentation mask_15x23 = Raise e →
       e = ValueError ∧ Exists (λ s, s ≤ 5) (ishape mask_15x23)).
Proof.
  apply (filter_segmentation_defined mask_15x23).
  - reflexivity.
  - simpl. lia.
  - apply (bool_decide_unpack _). vm_compute. exact I.
Defined.

Lemma compact_mask_idempotent_witness :
  _compact_mask (IArray uint16 (NDArray [2; 2] [300; 0; 5; 7]%Z))
  = Ok (IArray uint16 (NDArray [2; 2] [300; 0; 5; 7]%Z)).
Proof. apply (compact_mask_idempotent labels_u32). vm_compute. reflexivity. Defined.

Lemma compact_stack_roundtrip_witness :
  ∃ n c,
    (stacked ← stack nucleus_2x2 cells_2x2;
     compacted ← _compact_mask stacked;
     unpack2 compacted) = Ok (n, c)
    ∧ arr n = arr nucleus_2x2 ∧ arr c = arr cells_2x2
    ∧ dtype n = dtype c
    ∧ ∀ m, np_max nucleus_2x2 = Ok m →
        ∀ m', np_max cells_2x2 = Ok m' →
          dtype n = (if (Z.max m m' <? 2 ^ 8)%Z then uint8
                     else if (Z.max m m' <? 2 ^ 16)%Z then uint16
                     else dtype nucleus_2x2).
Proof.
  apply (compact_stack_roundtrip nucleus_2x2 cells_2x2);
    try reflexivity; try discriminate; repeat constructor; vm_compute; discriminate.
Defined.

Lemma cyto_overlay_empty_witness :
  overlap_pairs nucleus_2x2 cells_apart_2x2 = []
  ∧ _overlay_mask nucleus_2x2 (Some cells_apart_2x2) = Ok (overlay_frame []).
Proof.
  apply (cyto_overlay_empty nucleus_2x2 cells_2x2 cells_apart_2x2); reflexivity.
Defined.

Lemma masks_of_different_shape_witness :
  match broadcast_shapes (ishape cells_1x2) (ishape nucleus_2x2) with
  | Some sh =>
      (∃ cyto, _get_cyto nucleus_2x2 cells_1x2 = Ok cyto
         ∧ ishape cyto = sh ∧ dtype cyto = dtype cells_1x2)
      ∧ _overlay_mask nucleus_2x2 (Some cells_1x2) = Raise IndexError
  | None =>
      _get_cyto nucleus_2x2 cells_1x2 = Raise ValueError
      ∧ _overlay_mask nucleus_2x2 (Some cells_1x2) = Raise ValueError
  end.
Proof.
  apply (masks_of_different_shape nucleus_2x2 cells_1x2);
    [reflexivity|reflexivity|discriminate].
Defined.


Lemma outer_merge_result_witness :
  let df := DF [("label", DInt int64); ("area_nucleus", DFloat);
                ("timepoint", DInt int64); ("Cyto_ID", DInt int64)]%string [] in
  no_na df
  ∧ ∀ name w,
      (name, DInt w) ∈ columns nucleus_table ∨ (name, DInt w) ∈ columns overlay_table →
      int_column df name.
Proof.
  apply (outer_merge_result nucleus_table overlay_table ["label"%string]).
  - apply (bool_decide_unpack _). vm_compute. exact I.
  - apply (bool_decide_unpack _). vm_compute. exact I.
  - vm_compute. reflexivity.
Defined.

Lemma outer_merge_shared_column_witness :
  ∃ e, _outer_merge cell_table cyto_table ["label"%string] = Raise e.
Proof.
  apply (outer_merge_shared_column cell_table cyto_table _ "timepoint" int64).
  - apply (bool_decide_unpack _). vm_compute. exact I.
  - apply (bool_decide_unpack _). vm_compute. exact I.
  - apply list_elem_of_lookup. by exists 2.
  - apply (bool_decide_unpack _). vm_compute. exact I.
  - apply (bool_decide_unpack _). vm_compute. exact I.
  - intros c Hc. vm_compute in Hc.
    repeat (apply elem_of_cons in Hc as [->|Hc]; [split; discriminate|]).
    by apply elem_of_nil in Hc.
Defined.

Lemma outer_merge_without_overlap_witness :
  ∃ overlay df,
    _overlay_mask nucleus_2x2 (Some cells_apart_2x2) = Ok overlay
    ∧ rows overlay = []
    ∧ _outer_merge nucleus_table overlay ["label"%string] = Ok df
    ∧ rows df = [].
Proof.
  apply (outer_merge_without_overlap nucleus_2x2 cells_apart_2x2 nucleus_table);
    try reflexivity.
  - frame_ok.
  - exists int64. apply list_elem_of_lookup. by exists 0.
  - apply (bool_decide_unpack _). vm_compute. exact I.
Defined.

Lemma get_img_dict_entries_witness :
  let d := [("DAPI"%string, NDArray [1; 2; 2] [1; 2; 1.5; 2]%float)] in
  d.*1 = [("DAPI"%string, 0%Z)].*1
  ∧ ∀ ch idx, (ch, idx) ∈ [("DAPI"%string, 0%Z)] →
      ∃ plane field img,
        take_last idx plane_1x1x2x2x1 = Ok plane
        ∧ dict_get [("DAPI"%string, field_2x2)] ch = Some field
        ∧ flatfield_divide plane field = Ok img
        ∧ dict_get d ch = Some img.
Proof.
  apply (get_img_dict_entries plane_1x1x2x2x1 [("DAPI"%string, 0%Z)]
           [("DAPI"%string, field_2x2)]).
  - apply (bool_decide_unpack _). vm_compute. exact I.
  - vm_compute. reflexivity.
Defined.

Lemma get_img_dict_z_stack_witness :
  _get_img_dict z_stack_1x2x1x1x1 [("DAPI"%string, 0%Z)]
    [("DAPI"%string, NDArray [1; 1] [1%float])] = Raise ValueError.
Proof.
  apply (get_img_dict_z_stack _ _ _ 1 2 1 1 1); [reflexivity|lia|discriminate|].
  repeat constructor; simpl; try lia. eexists. split; [reflexivity|simpl; lia].
Defined.
